(** * convert_to_parquet: a shallow embedding of [convert_to_parquet.py]

    The script walks an input directory tree, converts every csv / xlsx /
    xls / dta file it finds to Parquet under a mirrored output tree, and
    optionally deletes the originals.  Everything it does is an effect on
    the file system or on the console, so the embedding is a small
    state-and-error monad over an explicit file-system tree, with a log of
    the effects performed.

    Conventions of the model.
    - A path is the list of its components from the file-system root; it is
      the location the operating system resolves a path string to, so the
      string ["out/./x"] and the string ["out/x"] are the same path here.
    - [os], [pandas] and [str] are library code: their functions are
      modelled by what they do on this file system (which exception they
      raise on which node, what a chunked CSV reader yields).
    - A string is a sequence of bytes, the UTF-8 form of the text.
      [str.lower] and [str.strip] follow the Unicode tables of the
      interpreter; they are fields of the platform, known on the ASCII
      strings, where they are the letter-by-letter functions of [Str].
      [os.path.splitext], string comparison and sorting work on the
      bytes.
    - Whether pyarrow can turn a frame into an Arrow table is a field of
      the platform too: [to_parquet] raises on a frame it cannot convert,
      before it looks at the path.
    - [os.makedirs] fails on a regular file in the path; what else the
      operating system may refuse (permissions, a name it does not accept)
      is not in the tree and not modelled.
    - A file carries its size in bytes as an attribute, and its content as
      what a reader of the matching format decodes from it (for a CSV, the
      rows after the decoding with [encoding_errors='replace']).
    - A chunked CSV reader is taken as the list of the frames it yields: the
      conversion never writes to the file it is reading.
    - [print] does not fail. *)

From Stdlib Require Import List String Ascii NArith Arith Lia Bool.
From Stdlib Require Import Decimal DecimalString DecimalN.
From Stdlib Require Import Permutation.
From Equations Require Import Equations.
Import ListNotations.
Open Scope string_scope.
Open Scope list_scope.

Set Warnings "-register-all".

(* ================================================================== *)
(** ** Strings: [str.lower], [str.strip], [os.path.splitext] *)

Module Str.

(** A character of the ASCII range, and a string of such characters.  On
    these strings [lower] and [strip] below are [str.lower] and
    [str.strip]; on the others the two methods follow the Unicode tables
    of the interpreter, see [str_lower] and [str_strip]. *)
Definition is_ascii_char (c : ascii) : bool := (N_of_ascii c <? 128)%N.

Fixpoint is_ascii (s : string) : bool :=
  match s with
  | EmptyString => true
  | String c s' => is_ascii_char c && is_ascii s'
  end.

Definition is_upper (c : ascii) : bool :=
  let n := N_of_ascii c in ((65 <=? n) && (n <=? 90))%N.

Definition lower_char (c : ascii) : ascii :=
  if is_upper c then ascii_of_N (N_of_ascii c + 32) else c.

(** [s.lower()] for an ASCII string [s]. *)
Fixpoint lower (s : string) : string :=
  match s with
  | EmptyString => EmptyString
  | String c s' => String (lower_char c) (lower s')
  end.

(** The ASCII characters [str.isspace] accepts. *)
Definition is_space (c : ascii) : bool :=
  let n := N_of_ascii c in
  (((9 <=? n) && (n <=? 13)) || ((28 <=? n) && (n <=? 32)))%N.

Fixpoint lstrip (s : string) : string :=
  match s with
  | EmptyString => EmptyString
  | String c s' => if is_space c then lstrip s' else s
  end.

Fixpoint rstrip (s : string) : string :=
  match s with
  | EmptyString => EmptyString
  | String c s' =>
      match rstrip s' with
      | EmptyString => if is_space c then EmptyString else String c EmptyString
      | r => String c r
      end
  end.

(** [s.strip()] for an ASCII string [s]. *)
Definition strip (s : string) : string := rstrip (lstrip s).

Definition is_dot (c : ascii) : bool := Ascii.eqb c ".".

Fixpoint all_dots (s : string) : bool :=
  match s with
  | EmptyString => true
  | String c s' => is_dot c && all_dots s'
  end.

(** [p.rfind('.')], returned as the two halves [p[:i]] and [p[i:]]. *)
Fixpoint rsplit_dot (s : string) : option (string * string) :=
  match s with
  | EmptyString => None
  | String c s' =>
      match rsplit_dot s' with
      | Some (h, e) => Some (String c h, e)
      | None => if is_dot c then Some (EmptyString, s) else None
      end
  end.

(** [os.path.splitext] on a file name (a path component, so without a
    separator): split at the last dot, unless only dots come before it. *)
Definition splitext (p : string) : string * string :=
  match rsplit_dot p with
  | Some (h, e) => if all_dots h then (p, EmptyString) else (h, e)
  | None => (p, EmptyString)
  end.

(** [x in xs] on strings. *)
Definition mem (x : string) (xs : list string) : bool :=
  existsb (String.eqb x) xs.

Fixpoint insert_sorted (x : string) (l : list string) : list string :=
  match l with
  | [] => [x]
  | y :: l' => if String.leb x y then x :: l else y :: insert_sorted x l'
  end.

(** [sorted(l)] on strings (code-point order). *)
Definition sorted (l : list string) : list string :=
  fold_right insert_sorted [] l.

Fixpoint zeros (n : nat) : string :=
  match n with
  | O => EmptyString
  | S n' => String "0" (zeros n')
  end.

(** [str(n)] for a non-negative integer. *)
Definition dec (n : N) : string := NilEmpty.string_of_uint (N.to_uint n).

(** [f"{n:05d}"]: the decimal digits, left-padded with zeros to a width
    of at least five. *)
Definition pad5 (n : N) : string :=
  let d := dec n in zeros (5 - String.length d) ++ d.

End Str.

(* ================================================================== *)
(** ** Tables *)

Definition cell := string.
Definition row := list cell.

(** A pandas [DataFrame] as the script uses it: named columns and rows. *)
Record frame := mk_frame { columns : list string; rows : list row }.

(* ================================================================== *)
(** ** The file system *)

Definition path := list string.

Inductive content :=
| Csv (df : frame)               (* delimited text, as decoded with errors replaced *)
| Workbook (sheets : list frame) (* an xlsx workbook *)
| Stata (df : frame)             (* a .dta dataset *)
| Parquet (df : frame)           (* a Parquet file *)
| Garbage.                       (* anything no reader accepts *)

Record file := mk_file {
  f_size : N;            (* os.path.getsize *)
  f_protected : bool;    (* the OS refuses to remove or overwrite it *)
  f_data : content
}.

Inductive node :=
| File (f : file)
| Dir (entries : list (string * node)).   (* in os.scandir order *)

(** What the platform decides and the script does not: the byte size of a
    Parquet file written from a frame, what [getsize] says of a directory,
    which frames pyarrow can turn into an Arrow table ([to_parquet] raises
    on the others: a column of mixed types, an integer out of range) and
    what its exception says, and [str.lower] and [str.strip], which follow
    the Unicode tables of the interpreter and are known here on the ASCII
    strings. *)
Class Platform := {
  parquet_size : frame -> N;
  dir_size : N;
  arrow_ok : frame -> bool;
  arrow_message : frame -> string;
  str_lower : string -> string;
  str_strip : string -> string;
  str_lower_ascii : forall s, Str.is_ascii s = true -> str_lower s = Str.lower s;
  str_strip_ascii : forall s, Str.is_ascii s = true -> str_strip s = Str.strip s
}.

Module FS.

Fixpoint lookup_entry (c : string) (es : list (string * node)) : option node :=
  match es with
  | [] => None
  | (k, v) :: es' => if String.eqb c k then Some v else lookup_entry c es'
  end.

(** Replace the entry named [c], or add it at the end of the listing. *)
Fixpoint set_entry (c : string) (v : node) (es : list (string * node))
  : list (string * node) :=
  match es with
  | [] => [(c, v)]
  | (k, w) :: es' =>
      if String.eqb c k then (k, v) :: es' else (k, w) :: set_entry c v es'
  end.

Fixpoint del_entry (c : string) (es : list (string * node))
  : list (string * node) :=
  match es with
  | [] => []
  | (k, w) :: es' =>
      if String.eqb c k then es' else (k, w) :: del_entry c es'
  end.

Fixpoint lookup (p : path) (n : node) : option node :=
  match p with
  | [] => Some n
  | c :: p' =>
      match n with
      | Dir es =>
          match lookup_entry c es with
          | Some n' => lookup p' n'
          | None => None
          end
      | File _ => None
      end
  end.

Definition is_dir (p : path) (n : node) : bool :=
  match lookup p n with Some (Dir _) => true | _ => false end.

(** Apply [g] to the entry listing of the directory at [p]. *)
Fixpoint alter_dir (p : path) (g : list (string * node) -> list (string * node))
  (n : node) : node :=
  match n with
  | File _ => n
  | Dir es =>
      match p with
      | [] => Dir (g es)
      | c :: p' =>
          match lookup_entry c es with
          | Some n' => Dir (set_entry c (alter_dir p' g n') es)
          | None => n
          end
      end
  end.

(** [os.makedirs(p, exist_ok=True)] from the root: [None] when a
    component of [p] exists and is not a directory. *)
Fixpoint makedirs (p : path) (n : node) : option node :=
  match n with
  | File _ => None
  | Dir es =>
      match p with
      | [] => Some n
      | c :: p' =>
          let sub := match lookup_entry c es with
                     | Some s => s
                     | None => Dir []
                     end in
          match makedirs p' sub with
          | Some s' => Some (Dir (set_entry c s' es))
          | None => None
          end
      end
  end.

(** Where [os.makedirs] stops on a path that runs through a regular file:
    the component just below the file, which is the directory [os.mkdir]
    is asked for and cannot make. *)
Fixpoint below_file (p : path) (n : node) : path :=
  match p with
  | [] => []
  | c :: p' =>
      match n with
      | File _ => [c]
      | Dir es =>
          match lookup_entry c es with
          | Some n' => c :: below_file p' n'
          | None => [c]
          end
      end
  end.

(** A path split into its directory and its last component. *)
Fixpoint unsnoc (p : path) : option (path * string) :=
  match p with
  | [] => None
  | c :: p' =>
      match unsnoc p' with
      | None => Some ([], c)
      | Some (d, l) => Some (c :: d, l)
      end
  end.

End FS.

(* ================================================================== *)
(** ** Effects: exceptions, the effect log, the monad *)

Inductive exn :=
| FileNotFoundError (p : path)
| FileExistsError (p : path)
| NotADirectoryError (p : path)
| IsADirectoryError (p : path)
| PermissionError (p : path)
| OSError (p : path)           (* pandas: cannot save into a non-existent directory *)
| ArrowError (msg : string)    (* pyarrow: ArrowInvalid, ArrowTypeError, OverflowError *)
| ParserError (p : path)       (* a reader rejects the content *)
| EmptyDataError (p : path)    (* pandas: no columns to parse *)
| ValueError (msg : string)
| EOFError
| SystemExit (code : N).

(** [isinstance(e, Exception)]: what [except Exception] catches.
    [SystemExit] derives from [BaseException] only. *)
Definition is_exception (e : exn) : bool :=
  match e with SystemExit _ => false | _ => true end.

Definition show_path (p : path) : string :=
  fold_right (fun c s => ("/" ++ c ++ s)%string) "" p.

(** [str(e)]. *)
Definition describe (e : exn) : string :=
  match e with
  | FileNotFoundError p => String.append "No such file or directory: " (show_path p)
  | FileExistsError p => String.append "File exists: " (show_path p)
  | NotADirectoryError p => String.append "Not a directory: " (show_path p)
  | IsADirectoryError p => String.append "Is a directory: " (show_path p)
  | PermissionError p => String.append "Permission denied: " (show_path p)
  | OSError p =>
      ("Cannot save file into a non-existent directory: '" ++ show_path p ++ "'")%string
  | ArrowError msg => msg
  | ParserError p => String.append "Error reading " (show_path p)
  | EmptyDataError p => "No columns to parse from file"
  | ValueError msg => msg
  | EOFError => "EOF when reading a line"
  | SystemExit c => Str.dec c
  end.

(** The lines the script prints, by their role (the texts are Chinese
    f-strings; the fields are the values they interpolate). *)
Inductive message :=
| MsgNoGui                                   (* no GUI library, use --input *)
| MsgNoInput                                 (* no input directory chosen *)
| MsgNoFiles                                 (* no csv/xlsx/dta file found *)
| MsgConverted (f : path) (n : nat)          (* converted: f -> n Parquet files *)
| MsgFailed (f : path) (err : string)        (* conversion failed: f error: err *)
| MsgDeleteFailed (f : path) (err : string)  (* delete failed: f error: err *)
| MsgDeleteDone                              (* tried to delete all originals *)
| MsgKept                                    (* originals kept *)
| MsgSummaryHeader                           (* conversion summary: *)
| MsgSummary (succ fail : nat) (output_dir : path).

Inductive event :=
| EvMakedirs (p : path)              (* os.makedirs returned *)
| EvWalk (root : path)               (* os.walk over root *)
| EvWrite (p : path) (df : frame)    (* to_parquet wrote df at p *)
| EvRemove (p : path) (ok : bool)    (* os.remove was called on p *)
| EvInput                            (* input() read a line *)
| EvPrint (m : message).

Inductive res (A : Type) :=
| Ok (a : A)
| Raise (e : exn).
Arguments Ok {A} a.
Arguments Raise {A} e.

(** A computation runs on a file system and leaves a result, the file
    system after it, and the effects it performed, in order. *)
Definition M (A : Type) : Type := node -> res A * node * list event.

Definition ret {A} (a : A) : M A := fun fs => (Ok a, fs, []).

Definition raise {A} (e : exn) : M A := fun fs => (Raise e, fs, []).

Definition bind {A B} (m : M A) (k : A -> M B) : M B :=
  fun fs =>
    match m fs with
    | (Ok a, fs1, l1) =>
        match k a fs1 with
        | (r, fs2, l2) => (r, fs2, l1 ++ l2)
        end
    | (Raise e, fs1, l1) => (Raise e, fs1, l1)
    end.

Declare Scope monad_scope.
Delimit Scope monad_scope with monad.
Notation "x <- m ;; k" := (bind m (fun x => k))
  (at level 100, m at next level, right associativity) : monad_scope.
Notation "m ;; k" := (bind m (fun _ => k))
  (at level 100, right associativity) : monad_scope.
Open Scope monad_scope.

(** [try: body  except Exception as e: handler(e)]. *)
Definition try_except {A} (body : M A) (handler : exn -> M A) : M A :=
  fun fs =>
    match body fs with
    | (Raise e, fs1, l1) =>
        if is_exception e then
          match handler e fs1 with
          | (r, fs2, l2) => (r, fs2, l1 ++ l2)
          end
        else (Raise e, fs1, l1)
    | r => r
    end.

Definition emit (e : event) : M unit := fun fs => (Ok tt, fs, [e]).

Definition print (m : message) : M unit := emit (EvPrint m).

(** [sys.exit(code)]. *)
Definition sys_exit {A} (code : N) : M A := raise (SystemExit code).

Definition result {A} (x : res A * node * list event) : res A := fst (fst x).
Definition final_fs {A} (x : res A * node * list event) : node := snd (fst x).
Definition effects {A} (x : res A * node * list event) : list event := snd x.

(** The frames written, with their destinations, in the order written. *)
Fixpoint writes (l : list event) : list (path * frame) :=
  match l with
  | [] => []
  | EvWrite p df :: l' => (p, df) :: writes l'
  | _ :: l' => writes l'
  end.

(** The paths [os.remove] was called on, in call order. *)
Fixpoint removals (l : list event) : list path :=
  match l with
  | [] => []
  | EvRemove p _ :: l' => p :: removals l'
  | _ :: l' => removals l'
  end.

(** The lines printed, in order. *)
Fixpoint printed (l : list event) : list message :=
  match l with
  | [] => []
  | EvPrint m :: l' => m :: printed l'
  | _ :: l' => printed l'
  end.

(* ================================================================== *)
(** ** [os] and [pandas] on this file system *)

(** [os.path.join(a, b)] for a relative [b]. *)
Definition join (a b : path) : path := a ++ b.

(** [os.path.dirname] and [os.path.basename]. *)
Definition dirname (p : path) : path :=
  match FS.unsnoc p with Some (d, _) => d | None => [] end.

Definition basename (p : path) : string :=
  match FS.unsnoc p with Some (_, b) => b | None => "" end.

Fixpoint common_prefix (a b : path) : nat :=
  match a, b with
  | x :: a', y :: b' => if String.eqb x y then S (common_prefix a' b') else 0
  | _, _ => 0
  end.

(** [os.path.relpath(p, start)]: one [".."] for each component of [start]
    past the common prefix, then the rest of [p].  The empty list is the
    path string ["."]. *)
Definition relpath (p start : path) : path :=
  let i := common_prefix start p in
  repeat ".." (List.length start - i) ++ skipn i p.

(** The batches a [pd.read_csv(..., chunksize=n)] reader yields after its
    first one: [n] rows at a time until none is left. *)
Equations? chunk_rows (n : nat) (rs : list row) : list (list row)
  by wf (List.length rs) lt :=
  chunk_rows n [] := [];
  chunk_rows n (r :: rs') :=
    (r :: firstn (n - 1) rs') :: chunk_rows n (skipn (n - 1) rs').
Proof. rewrite length_skipn. lia. Defined.

(** All the batches of the reader.  The first read always returns a frame,
    an empty one with the header when the file has no data row (pandas
    turns the end of the data into an empty frame on the first chunk, and
    into [StopIteration] on the later ones); the reader stops at the first
    later read that finds no row. *)
Definition read_chunks (n : nat) (df : frame) : list frame :=
  mk_frame (columns df) (firstn n (rows df))
  :: map (mk_frame (columns df)) (chunk_rows n (skipn n (rows df))).

Section Script.

Context `{Platform}.

(** [os.makedirs(p, exist_ok=True)].  The failure modelled is the one the
    tree can show, a component of [p] that is a regular file: [p] itself
    ([FileExistsError]), or one above it ([NotADirectoryError], on the
    component below the file).  A refusal by the operating system
    (permissions, a name it does not accept) is not part of the tree. *)
Definition ensure_dir (p : path) : M unit :=
  fun fs =>
    match FS.makedirs p fs with
    | Some fs' => (Ok tt, fs', [EvMakedirs p])
    | None =>
        match FS.lookup p fs with
        | Some _ => (Raise (FileExistsError p), fs, [])
        | None => (Raise (NotADirectoryError (FS.below_file p fs)), fs, [])
        end
    end.

(** [os.path.getsize]. *)
Definition getsize (p : path) : M N :=
  fun fs =>
    match FS.lookup p fs with
    | Some (File f) => (Ok (f_size f), fs, [])
    | Some (Dir _) => (Ok dir_size, fs, [])
    | None => (Raise (FileNotFoundError p), fs, [])
    end.

(** [os.listdir]. *)
Definition listdir (p : path) : M (list string) :=
  fun fs =>
    match FS.lookup p fs with
    | Some (Dir es) => (Ok (map fst es), fs, [])
    | Some (File _) => (Raise (NotADirectoryError p), fs, [])
    | None => (Raise (FileNotFoundError p), fs, [])
    end.

(** [os.remove]. *)
Definition os_remove (p : path) : M unit :=
  fun fs =>
    match FS.lookup p fs with
    | Some (File f) =>
        if f_protected f then (Raise (PermissionError p), fs, [EvRemove p false])
        else
          match FS.unsnoc p with
          | Some (d, name) =>
              (Ok tt, FS.alter_dir d (FS.del_entry name) fs, [EvRemove p true])
          | None => (Raise (PermissionError p), fs, [EvRemove p false])
          end
    | Some (Dir _) => (Raise (IsADirectoryError p), fs, [EvRemove p false])
    | None => (Raise (FileNotFoundError p), fs, [EvRemove p false])
    end.

(** Opening [p] for a reader of some format. *)
Definition open_file (p : path) : M content :=
  fun fs =>
    match FS.lookup p fs with
    | Some (File f) => (Ok (f_data f), fs, [])
    | Some (Dir _) => (Raise (IsADirectoryError p), fs, [])
    | None => (Raise (FileNotFoundError p), fs, [])
    end.

(** What the CSV parser makes of the content of [p]. *)
Definition parse_csv (p : path) : M frame :=
  c <- open_file p ;;
  match c with
  | Csv df =>
      match columns df with
      | [] => raise (EmptyDataError p)
      | _ => ret df
      end
  | _ => raise (ParserError p)
  end.

(** [pd.read_csv(p, low_memory=False, encoding_errors='replace')]. *)
Definition read_csv (p : path) : M frame := parse_csv p.

(** [pd.read_csv(p, chunksize=n, ...)], as the list of the frames the
    reader yields.  The chunk size is validated before the file is
    opened. *)
Definition read_csv_chunked (p : path) (n : N) : M (list frame) :=
  if (n =? 0)%N then raise (ValueError "'chunksize' must be an integer >=1")
  else
    df <- parse_csv p ;;
    ret (read_chunks (N.to_nat n) df).

(** [pd.read_excel(p, sheet_name=0, engine='openpyxl')]. *)
Definition read_excel (p : path) : M frame :=
  c <- open_file p ;;
  match c with
  | Workbook (sh :: _) => ret sh
  | _ => raise (ParserError p)
  end.

(** [pd.read_stata(p)]. *)
Definition read_stata (p : path) : M frame :=
  c <- open_file p ;;
  match c with
  | Stata df => ret df
  | _ => raise (ParserError p)
  end.

(** [df.to_parquet(out_path, engine="pyarrow", index=False)].  pandas
    first builds the Arrow table of the frame, which pyarrow refuses for
    some frames; it then checks that the parent of [out_path] is a
    directory, and raises a plain [OSError] naming the parent when it is
    not; only then is the file opened and written. *)
Definition write_df_to_parquet (df : frame) (out_path : path) : M unit :=
  fun fs =>
    if negb (arrow_ok df) then (Raise (ArrowError (arrow_message df)), fs, [])
    else
      match FS.unsnoc out_path with
      | None => (Raise (IsADirectoryError out_path), fs, [])
      | Some (d, name) =>
          let written :=
            (Ok tt,
             FS.alter_dir d
               (FS.set_entry name (File (mk_file (parquet_size df) false (Parquet df))))
               fs,
             [EvWrite out_path df]) in
          match FS.lookup d fs with
          | Some (Dir es) =>
              match FS.lookup_entry name es with
              | Some (Dir _) => (Raise (IsADirectoryError out_path), fs, [])
              | Some (File f) =>
                  if f_protected f then (Raise (PermissionError out_path), fs, [])
                  else written
              | None => written
              end
          | _ => (Raise (OSError d), fs, [])
          end
      end.

(* ================================================================ *)
(** ** The script *)

Definition threshold : N := 50 * 1024 * 1024.

Definition default_chunk_size : N := 200000.

(** [f"part-{part:05d}.parquet"]. *)
Definition part_name (part : N) : string :=
  ("part-" ++ Str.pad5 part ++ ".parquet")%string.

(** The body of [for chunk in pd.read_csv(...)], over the chunks the
    reader yields, from part number [part] on. *)
Fixpoint write_parts (part_dir : path) (chunks : list frame) (part : N) : M unit :=
  match chunks with
  | [] => ret tt
  | chunk :: chunks' =>
      let out_file := join part_dir [part_name part] in
      write_df_to_parquet chunk out_file ;;
      write_parts part_dir chunks' (part + 1)
  end.

Definition process_csv (p out_dir : path) (name : string) (chunk_size : N)
  : M (list path) :=
  file_size <- getsize p ;;
  if (threshold <? file_size)%N then
    let part_dir := join out_dir [name] in
    ensure_dir part_dir ;;
    chunks <- read_csv_chunked p chunk_size ;;
    write_parts part_dir chunks 0 ;;
    names <- listdir part_dir ;;
    ret (map (fun f => join part_dir [f]) (Str.sorted names))
  else
    df <- read_csv p ;;
    let out_file := join out_dir [(name ++ ".parquet")%string] in
    write_df_to_parquet df out_file ;;
    ret [out_file].

Definition process_excel (p out_dir : path) (name : string) : M (list path) :=
  df <- read_excel p ;;
  let out_file := join out_dir [(name ++ ".parquet")%string] in
  write_df_to_parquet df out_file ;;
  ret [out_file].

Definition process_dta (p out_dir : path) (name : string) : M (list path) :=
  df <- read_stata p ;;
  let out_file := join out_dir [(name ++ ".parquet")%string] in
  write_df_to_parquet df out_file ;;
  ret [out_file].

(** [os.walk(top)], top-down: the triple of a directory, then the walks
    of its sub-directories in listing order.  Nothing for a [top] that is
    not a directory. *)
Fixpoint walk (top : path) (n : node) : list (path * list string * list string) :=
  match n with
  | File _ => []
  | Dir es =>
      let dirnames :=
        flat_map (fun e => match snd e with Dir _ => [fst e] | File _ => [] end) es in
      let filenames :=
        flat_map (fun e => match snd e with File _ => [fst e] | Dir _ => [] end) es in
      (top, dirnames, filenames)
      :: (fix subdirs (l : list (string * node)) :=
            match l with
            | [] => []
            | (d, sub) :: l' => walk (join top [d]) sub ++ subdirs l'
            end) es
  end.

(** What a walk from [root] yields: nothing when [root] does not exist. *)
Definition walked (root : path) (fs : node)
  : list (path * list string * list string) :=
  match FS.lookup root fs with
  | Some n => walk root n
  | None => []
  end.

Definition os_walk (root : path) : M (list (path * list string * list string)) :=
  fun fs => (Ok (walked root fs), fs, [EvWalk root]).

(** [os.path.splitext(f)[1].lower() in exts]. *)
Definition has_ext (exts : list string) (f : string) : bool :=
  Str.mem (str_lower (snd (Str.splitext f))) exts.

Definition find_files (root : path) (exts : list string) : M (list path) :=
  triples <- os_walk root ;;
  ret (flat_map
         (fun t =>
            match t with
            | (dirpath, _, filenames) =>
                flat_map
                  (fun f => if has_ext exts f then [join dirpath [f]] else [])
                  filenames
            end)
         triples).

(* ================================================================ *)
(** ** [main] *)

(** The parsed command line.  [None] is an option that was not given, or
    given as the empty string: [args.input or ...] treats both alike. *)
Record Args := mk_args {
  a_input : option path;
  a_output : option path;
  a_delete : bool
}.

(** What the user supplies while the script runs: the folder picked in
    the dialog ([None]: no GUI library can be imported; [Some None]: the
    dialog was cancelled), and the line typed at the prompt ([None]: end
    of input). *)
Record Env := mk_env {
  e_dialog : option (option path);
  e_stdin : option string
}.

(** A summary entry [(f, out_files, err)]. *)
Definition outcome : Type := path * list path * option string.

Definition o_input (o : outcome) : path := fst (fst o).
Definition o_outputs (o : outcome) : list path := snd (fst o).
Definition o_error (o : outcome) : option string := snd o.

Definition choose_directory_dialog (env : Env) : M (option path) :=
  match e_dialog env with
  | None => emit (EvPrint MsgNoGui) ;; sys_exit 1
  | Some folder => ret folder
  end.

(** [input(prompt)]. *)
Definition input (env : Env) : M string :=
  match e_stdin env with
  | Some line => emit EvInput ;; ret line
  | None => raise EOFError
  end.

Definition exts : list string := [".csv"; ".xlsx"; ".xls"; ".dta"].

(** The [if ext == ... elif ...] chain inside the [try]. *)
Definition dispatch (ext : string) (f target_dir : path) (name : string)
  : M (list path) :=
  if String.eqb ext ".csv" then
    process_csv f target_dir name default_chunk_size
  else if Str.mem ext [".xlsx"; ".xls"] then
    process_excel f target_dir name
  else if String.eqb ext ".dta" then
    process_dta f target_dir name
  else ret [].

(** The [try: ... except Exception as e: ...] statement of the loop body. *)
Definition attempt (f target_dir : path) (name ext : string) : M outcome :=
  try_except
    (out_files <- dispatch ext f target_dir name ;;
     print (MsgConverted f (List.length out_files)) ;;
     ret (f, out_files, None))
    (fun e =>
       print (MsgFailed f (describe e)) ;;
       ret (f, [], Some (describe e))).

(** The body of the loop over the discovered files.  The extension is
    taken from the last component of [f], which is where
    [os.path.splitext(f)] looks for it. *)
Definition convert_one (input_dir output_dir f : path) : M outcome :=
  let rel_dir := relpath (dirname f) input_dir in
  let target_dir := join output_dir rel_dir in
  ensure_dir target_dir ;;
  let name := fst (Str.splitext (basename f)) in
  let ext := str_lower (snd (Str.splitext (basename f))) in
  attempt f target_dir name ext.

(** [for f in files: ...], appending to [summary]. *)
Fixpoint convert_all (input_dir output_dir : path) (files : list path)
  (summary : list outcome) : M (list outcome) :=
  match files with
  | [] => ret summary
  | f :: files' =>
      o <- convert_one input_dir output_dir f ;;
      convert_all input_dir output_dir files' (summary ++ [o])
  end.

(** [for orig, outs, err in summary: try: os.remove(orig) except ...]. *)
Fixpoint delete_originals (summary : list outcome) : M unit :=
  match summary with
  | [] => ret tt
  | o :: summary' =>
      try_except
        (os_remove (o_input o))
        (fun e => print (MsgDeleteFailed (o_input o) (describe e))) ;;
      delete_originals summary'
  end.

Definition succeeded (o : outcome) : bool :=
  match o_error o with None => true | Some _ => false end.

Definition count_succ (summary : list outcome) : nat :=
  List.length (filter succeeded summary).

Definition count_fail (summary : list outcome) : nat :=
  List.length (filter (fun o => negb (succeeded o)) summary).

Definition print_summary (summary : list outcome) (output_dir : path) : M unit :=
  print MsgSummaryHeader ;;
  print (MsgSummary (count_succ summary) (count_fail summary) output_dir).

(** The answer that decides the deletion. *)
Definition confirmation (args : Args) (env : Env) : M string :=
  if a_delete args then ret "y"
  else
    line <- input env ;;
    ret (str_lower (str_strip line)).

(** [main] from the discovery of the files on: the output directory has
    been made. *)
Definition batch (args : Args) (env : Env) (input_dir output_dir : path) : M unit :=
  files <- find_files input_dir exts ;;
  match files with
  | [] => print MsgNoFiles ;; sys_exit 0
  | _ =>
      summary <- convert_all input_dir output_dir files [] ;;
      confirm <- confirmation args env ;;
      (if String.eqb confirm "y" then
         delete_originals summary ;;
         print MsgDeleteDone
       else print MsgKept) ;;
      print_summary summary output_dir
  end.

(** [args.output or os.path.join(input_dir, '_parquet_out')]. *)
Definition output_of (args : Args) (input_dir : path) : path :=
  match a_output args with
  | Some o => o
  | None => join input_dir ["_parquet_out"]
  end.

(** [main] from the point where the input directory is known. *)
Definition run (args : Args) (env : Env) (input_dir : path) : M unit :=
  let output_dir := output_of args input_dir in
  ensure_dir output_dir ;;
  batch args env input_dir output_dir.

Definition main (args : Args) (env : Env) : M unit :=
  input_dir <-
    match a_input args with
    | Some p => ret (Some p)
    | None => choose_directory_dialog env
    end ;;
  match input_dir with
  | None => print MsgNoInput ;; sys_exit 1
  | Some input_dir => run args env input_dir
  end.

End Script.

(* ================================================================== *)
(** * Vocabulary of the properties *)

(** ** Logs, part files, layouts *)

Definition ev_write (w : path * frame) : event := EvWrite (fst w) (snd w).

(** The destinations [write_parts] uses for [chunks], from number [part]. *)
Fixpoint numbered (part_dir : path) (chunks : list frame) (part : N)
  : list (path * frame) :=
  match chunks with
  | [] => []
  | chunk :: chunks' =>
      (join part_dir [part_name part], chunk) :: numbered part_dir chunks' (part + 1)
  end.

(** An entry name that [to_parquet] can write to: free, or taken by a file
    that may be overwritten. *)
Definition slot_free (name : string) (es : list (string * node)) : Prop :=
  match FS.lookup_entry name es with
  | Some (Dir _) => False
  | Some (File f) => f_protected f = false
  | None => True
  end.

(** The node [to_parquet] leaves for a frame. *)
Definition stored `{Platform} (df : frame) : node :=
  File (mk_file (parquet_size df) false (Parquet df)).

(** The chunked branch after its directory exists: the numbered writes of
    the reader's batches, all of them when it returns. *)
Definition chunked_tail `{Platform} (part_dir : path) (chunks : list frame) : M (list path) :=
  write_parts part_dir chunks 0 ;;
  names <- listdir part_dir ;;
  ret (map (fun f => join part_dir [f]) (Str.sorted names)).


(** The rows stored in part number [k] of a part directory. *)
Definition read_part (part_dir : path) (k : N) (fs : node) : option (list row) :=
  match FS.lookup (part_dir ++ [part_name k]) fs with
  | Some (File f) =>
      match f_data f with
      | Parquet df => Some (rows df)
      | _ => None
      end
  | _ => None
  end.

(** The rows of [n] parts read back in the order of their numbers, from
    part [k] on. *)
Fixpoint read_back (part_dir : path) (n : nat) (k : N) (fs : node)
  : option (list row) :=
  match n with
  | O => Some []
  | S n' =>
      match read_part part_dir k fs, read_back part_dir n' (k + 1) fs with
      | Some a, Some b => Some (a ++ b)
      | _, _ => None
      end
  end.

(** Part [k] of a part directory can be written: nothing is there, or a
    file that may be overwritten. *)
Definition part_writable (part_dir : path) (fs : node) (k : N) : Prop :=
  match FS.lookup (part_dir ++ [part_name k]) fs with
  | Some (Dir _) => False
  | Some (File g) => f_protected g = false
  | None => True
  end.

(** Reading a decimal numeral back: leading zeros do not count. *)
Definition parse_dec (s : string) : option N :=
  option_map N.of_uint (NilEmpty.uint_of_string s).


(** ** Kinds of computations *)

(** A computation that never exits the interpreter: whatever it raises,
    [except Exception] catches. *)
Definition no_exit {A} (m : M A) : Prop :=
  forall fs e fs' l, m fs = (Raise e, fs', l) -> is_exception e = true.

(** A computation that only reads. *)
Definition read_only {A} (m : M A) : Prop :=
  forall fs, exists r, m fs = (r, fs, []).

(** The events of a conversion: directories made, frames written, and the
    two per-file lines. *)
Definition conversion_event (e : event) : Prop :=
  match e with
  | EvMakedirs _ | EvWrite _ _ => True
  | EvPrint (MsgConverted _ _) | EvPrint (MsgFailed _ _) => True
  | _ => False
  end.

Definition emits {A} (P : event -> Prop) (m : M A) : Prop :=
  forall fs, Forall P (effects (m fs)).

(** ** The phases of [main] *)

(** The input directory [main] works on.  [None]: it exits with status 1
    before doing anything. *)
Definition chosen (args : Args) (env : Env) : option path :=
  match a_input args with
  | Some p => Some p
  | None =>
      match e_dialog env with
      | Some (Some p) => Some p
      | _ => None
      end
  end.

(** The paths whose removal failed, and the paths reported as not
    removed, in log order. *)
Fixpoint failed_removals (l : list event) : list path :=
  match l with
  | [] => []
  | EvRemove p false :: l' => p :: failed_removals l'
  | _ :: l' => failed_removals l'
  end.

Fixpoint reported_failures (l : list event) : list path :=
  match l with
  | [] => []
  | EvPrint (MsgDeleteFailed p _) :: l' => p :: reported_failures l'
  | _ :: l' => reported_failures l'
  end.

(** [main] after the conversion loop: the confirmation, the deletions, the
    summary. *)
Definition finish `{Platform} (args : Args) (env : Env) (summary : list outcome)
  (output_dir : path) : M unit :=
  confirm <- confirmation args env ;;
  (if String.eqb confirm "y" then
     delete_originals summary ;;
     print MsgDeleteDone
   else print MsgKept) ;;
  print_summary summary output_dir.

(** The two lines of the summary. *)
Definition summary_lines (summary : list outcome) (output_dir : path) : list event :=
  [EvPrint MsgSummaryHeader;
   EvPrint (MsgSummary (count_succ summary) (count_fail summary) output_dir)].

(** ** Readable files *)

(** The frame that the reader [main] picks for the extension [ext] makes
    of the file [x]: the table of a CSV that has a header, the first sheet
    of a workbook, the dataset of a Stata file. *)
Definition decoded (ext : string) (x : file) : option frame :=
  if String.eqb ext ".csv" then
    match f_data x with
    | Csv df => match columns df with [] => None | _ => Some df end
    | _ => None
    end
  else if Str.mem ext [".xlsx"; ".xls"] then
    match f_data x with
    | Workbook (sh :: _) => Some sh
    | _ => None
    end
  else if String.eqb ext ".dta" then
    match f_data x with
    | Stata df => Some df
    | _ => None
    end
  else None.

(** ** Trees, sources and invariants *)

(** A tree in which no directory lists a name twice. *)
Fixpoint wf_node (n : node) : Prop :=
  match n with
  | File _ => True
  | Dir es =>
      NoDup (map fst es)
      /\ (fix all (l : list (string * node)) : Prop :=
            match l with
            | [] => True
            | (_, s) :: l' => wf_node s /\ all l'
            end) es
  end.

(** A path that [find_files] takes for an input: its name has one of the
    four extensions. *)
Definition is_source `{Platform} (p : path) : bool := has_ext exts (basename p).

(** A computation that leaves every source file on the disk, with its
    content. *)
Definition keeps_sources `{Platform} {A} (m : M A) : Prop :=
  forall fs p x,
    FS.lookup p fs = Some (File x) -> is_source p = true ->
    FS.lookup p (final_fs (m fs)) = Some (File x).

(** An event that is not a call of [os.remove]. *)
Definition no_removal (e : event) : Prop :=
  match e with EvRemove _ _ => False | _ => True end.

(** A computation that keeps a property of the disk. *)
Definition preserves {A} (I : node -> Prop) (m : M A) : Prop :=
  forall fs, I fs -> I (final_fs (m fs)).

(** A string of ASCII white space only. *)
Fixpoint all_space (s : string) : bool :=
  match s with
  | EmptyString => true
  | String c s' => Str.is_space c && all_space s'
  end.

(** ** Sample data *)

(** A platform for the samples, whose names and answers are ASCII and
    whose frames all have an Arrow table. *)
Definition demo_platform : Platform :=
  {| parquet_size := fun df => (64 + 8 * N.of_nat (List.length (rows df)))%N;
     dir_size := 4096%N;
     arrow_ok := fun _ => true;
     arrow_message := fun _ => "";
     str_lower := Str.lower;
     str_strip := Str.strip;
     str_lower_ascii := fun _ _ => eq_refl;
     str_strip_ascii := fun _ _ => eq_refl |}.

Definition demo_frame : frame :=
  mk_frame ["id"; "name"] [["1"; "ann"]; ["2"; "bob"]; ["3"; "cy"]].

Definition empty_frame : frame := mk_frame ["id"; "name"] [].

Definition csv_file (size : N) (df : frame) : file := mk_file size false (Csv df).

Definition kib : N := 1024.

Definition mib : N := 1024 * 1024.

(** [/in/data/x.csv] is small, [/in/data/big.csv] is above the threshold;
    [/out] exists and is empty. *)
Definition demo_fs : node :=
  Dir [("in", Dir [("data", Dir [("x.csv", File (csv_file kib demo_frame));
                                 ("big.csv", File (csv_file (60 * mib) demo_frame))])]);
       ("out", Dir [])].


(** [/in] holds a good CSV, a file [bad.csv] that no reader accepts and
    that cannot be removed, and a workbook in a sub-directory. *)
Definition batch_fs : node :=
  Dir [("in", Dir [("good.csv", File (csv_file kib demo_frame));
                   ("bad.csv", File (mk_file kib true Garbage));
                   ("sub", Dir [("y.xlsx",
                                 File (mk_file kib false
                                         (Workbook [demo_frame; empty_frame])))])])].

(** [/in] holds [a.csv] and, in the directory [a.parquet], [x.csv]. *)
Definition clash_fs : node :=
  Dir [("in", Dir [("a.csv", File (csv_file kib demo_frame));
                   ("a.parquet", Dir [("x.csv", File (csv_file kib demo_frame))])])].

(** [/out/big/] is left from an earlier run over a longer [big.csv]. *)
Definition stale_fs : node :=
  Dir [("in", Dir [("big.csv", File (csv_file (60 * mib) demo_frame))]);
       ("out", Dir [("big", Dir [("part-00000.parquet",
                                  File (mk_file 96 false (Parquet demo_frame)));
                                 ("part-00007.parquet",
                                  File (mk_file 96 false (Parquet demo_frame)))])])].

(** [/in] holds a text file and a file named [.csv], which is a name
    without an extension. *)
Definition notes_fs : node :=
  Dir [("in", Dir [("readme.txt", File (mk_file kib false Garbage));
                   (".csv", File (csv_file kib demo_frame))])].

Definition demo_args : Args := mk_args (Some ["in"]) (Some ["out"]) true.

Definition demo_env : Env := mk_env None None.

(** [/in] holds a workbook of two sheets, a Stata dataset and a small
    CSV; [/out] exists and is empty. *)
Definition survey_fs : node :=
  Dir [("in", Dir [("w.xls", File (mk_file kib false
                                     (Workbook [demo_frame; empty_frame])));
                   ("s.dta", File (mk_file kib false (Stata demo_frame)));
                   ("x.csv", File (csv_file kib demo_frame))]);
       ("out", Dir [])].

(** The slot of the second part of [/out/big/] is taken by a directory. *)
Definition blocked_fs : node :=
  Dir [("in", Dir [("big.csv", File (csv_file (60 * mib) demo_frame))]);
       ("out", Dir [("big", Dir [("part-00001.parquet", Dir [])])])].

(** A table with a column that mixes numbers and text, a platform on
    which a frame holding the cell [n/a] has no Arrow table, and a disk
    with that table as a workbook and as a Stata dataset. *)
Definition mixed_frame : frame :=
  mk_frame ["id"; "amount"] [["1"; "12"]; ["2"; "n/a"]].

Definition strict_platform : Platform :=
  {| parquet_size := fun df => (64 + 8 * N.of_nat (List.length (rows df)))%N;
     dir_size := 4096%N;
     arrow_ok := fun df => negb (Str.mem "n/a" (List.concat (rows df)));
     arrow_message :=
       fun _ => "Could not convert 'n/a' with type str: tried to convert to int64";
     str_lower := Str.lower;
     str_strip := Str.strip;
     str_lower_ascii := fun _ _ => eq_refl;
     str_strip_ascii := fun _ _ => eq_refl |}.

Definition mixed_fs : node :=
  Dir [("in", Dir [("m.xlsx", File (mk_file kib false (Workbook [mixed_frame])));
                   ("m.dta", File (mk_file kib false (Stata mixed_frame)))]);
       ("out", Dir [])].

(** Without [--delete]: the deletion is decided at the prompt. *)
Definition ask_args : Args := mk_args (Some ["in"]) (Some ["out"]) false.

Definition answer (line : string) : Env := mk_env None (Some line).

(* ================================================================== *)
(** * Properties *)

(** ** The file-system tree *)

Module FSFacts.
Import FS.

Lemma lookup_entry_set_same c v es :
  lookup_entry c (set_entry c v es) = Some v.
Proof.
  induction es as [|[k w] es IH]; simpl.
  - now rewrite String.eqb_refl.
  - destruct (String.eqb c k) eqn:E; simpl; rewrite E; auto.
Qed.

Lemma lookup_entry_set_other c c' v es :
  c' <> c -> lookup_entry c' (set_entry c v es) = lookup_entry c' es.
Proof.
  intros Hne. induction es as [|[k w] es IH]; simpl.
  - destruct (String.eqb_spec c' c); congruence.
  - destruct (String.eqb_spec c k) as [->|Hck]; simpl.
    + destruct (String.eqb_spec c' k); congruence.
    + now rewrite IH.
Qed.

Lemma set_entry_twice c v w es :
  set_entry c v (set_entry c w es) = set_entry c v es.
Proof.
  induction es as [|[k u] es IH]; simpl.
  - now rewrite String.eqb_refl.
  - destruct (String.eqb c k) eqn:E; simpl; rewrite E; congruence.
Qed.

Lemma unsnoc_snoc d c : unsnoc (d ++ [c]) = Some (d, c).
Proof.
  induction d as [|a d IH]; simpl; auto. now rewrite IH.
Qed.

Lemma lookup_app p q n :
  lookup (p ++ q) n =
  match lookup p n with Some n' => lookup q n' | None => None end.
Proof.
  revert n. induction p as [|c p IH]; intros n; simpl; auto.
  destruct n as [f|es]; auto.
  destruct (lookup_entry c es); auto.
Qed.

Lemma lookup_nil_dir c q : lookup (c :: q) (Dir []) = None.
Proof. reflexivity. Qed.

(** Under an altered directory one sees the altered listing. *)
Lemma lookup_alter_dir d g n es q :
  lookup d n = Some (Dir es) ->
  lookup (d ++ q) (alter_dir d g n) = lookup q (Dir (g es)).
Proof.
  revert n. induction d as [|c d IH]; intros n Hd; simpl in *.
  - injection Hd as ->. reflexivity.
  - destruct n as [f|es0]; [discriminate|].
    destruct (lookup_entry c es0) as [n'|] eqn:E; [|discriminate].
    cbn [lookup]. rewrite lookup_entry_set_same. now apply IH.
Qed.

Lemma is_dir_prefix_makedirs p n n' :
  makedirs p n = Some n' -> forall k, is_dir (firstn k p) n' = true.
Proof.
  revert n n'. induction p as [|c p IH]; intros n n' Hm k.
  - destruct n; simpl in Hm; [discriminate|]. injection Hm as <-.
    now rewrite firstn_nil.
  - destruct n as [f|es]; simpl in Hm; [discriminate|].
    destruct (makedirs p _) as [s'|] eqn:E; [|discriminate].
    injection Hm as <-. destruct k as [|k]; [reflexivity|].
    unfold is_dir. cbn [firstn lookup]. rewrite lookup_entry_set_same.
    apply (IH _ _ E k).
Qed.

Lemma makedirs_idem p n n' :
  makedirs p n = Some n' -> makedirs p n' = Some n'.
Proof.
  revert n n'. induction p as [|c p IH]; intros n n' Hm.
  - destruct n; simpl in Hm; [discriminate|]. now injection Hm as <-.
  - destruct n as [f|es]; simpl in Hm; [discriminate|].
    destruct (makedirs p _) as [s'|] eqn:E; [|discriminate].
    injection Hm as <-. cbn [makedirs]. rewrite lookup_entry_set_same.
    rewrite (IH _ _ E). now rewrite set_entry_twice.
Qed.

(** [makedirs] leaves what is below the directory as it was. *)
Lemma lookup_below_makedirs p n n' c q :
  makedirs p n = Some n' ->
  lookup (p ++ c :: q) n' = lookup (p ++ c :: q) n.
Proof.
  revert n n'. induction p as [|a p IH]; intros n n' Hm.
  - destruct n; simpl in Hm; [discriminate|]. now injection Hm as <-.
  - destruct n as [f|es]; simpl in Hm; [discriminate|].
    destruct (makedirs p _) as [s'|] eqn:E; [|discriminate].
    injection Hm as <-. rewrite <- !app_comm_cons. cbn [lookup].
    rewrite lookup_entry_set_same, (IH _ _ E).
    destruct (lookup_entry a es); auto.
    destruct p; reflexivity.
Qed.

Lemma makedirs_dir p n n' :
  makedirs p n = Some n' -> exists es, lookup p n' = Some (Dir es).
Proof.
  intros Hm. pose proof (is_dir_prefix_makedirs _ _ _ Hm (List.length p)) as Hd.
  rewrite firstn_all in Hd. unfold is_dir in Hd.
  destruct (lookup p n') as [[f|es]|]; try discriminate. now exists es.
Qed.

End FSFacts.

(** ** Strings and part names *)

Module StrFacts.
Import Str.

Lemma length_append s t :
  String.length (s ++ t) = String.length s + String.length t.
Proof. induction s as [|c s IH]; simpl; auto. Qed.

Lemma append_inv_tail s1 s2 t : (s1 ++ t = s2 ++ t)%string -> s1 = s2.
Proof.
  revert s2. induction s1 as [|c s1 IH]; intros [|c2 s2] Heq; simpl in Heq; auto.
  - apply (f_equal String.length) in Heq. simpl in Heq.
    rewrite length_append in Heq. lia.
  - apply (f_equal String.length) in Heq. simpl in Heq.
    rewrite length_append in Heq. lia.
  - injection Heq as -> Heq. f_equal. now apply IH.
Qed.

Lemma append_assoc s1 s2 s3 : ((s1 ++ s2) ++ s3 = s1 ++ (s2 ++ s3))%string.
Proof. induction s1 as [|c s1 IH]; simpl; congruence. Qed.


Lemma parse_dec_zeros k s : parse_dec (zeros k ++ s) = parse_dec s.
Proof.
  unfold parse_dec. induction k as [|k IH]; simpl; auto.
  destruct (NilEmpty.uint_of_string (zeros k ++ s)) as [d|];
    destruct (NilEmpty.uint_of_string s) as [d'|]; simpl in *; congruence.
Qed.

Lemma parse_dec_dec n : parse_dec (dec n) = Some n.
Proof.
  unfold parse_dec, dec. rewrite NilEmpty.usu. simpl.
  now rewrite DecimalN.Unsigned.of_to.
Qed.

Lemma parse_dec_pad5 n : parse_dec (pad5 n) = Some n.
Proof. unfold pad5. now rewrite parse_dec_zeros, parse_dec_dec. Qed.

Lemma pad5_inj a b : pad5 a = pad5 b -> a = b.
Proof.
  intros Heq. apply (f_equal parse_dec) in Heq.
  rewrite !parse_dec_pad5 in Heq. congruence.
Qed.




Lemma rsplit_dot_ext c e :
  rsplit_dot e = None ->
  rsplit_dot (c ++ String "." e) = Some (c, String "." e).
Proof.
  intros He. induction c as [|a c IH]; simpl.
  - now rewrite He.
  - now rewrite IH.
Qed.

(** The name [c.e] splits into [c] and [.e] when [e] has no dot and [c]
    is not made of dots only. *)
Lemma splitext_name c e :
  all_dots c = false -> rsplit_dot e = None ->
  splitext (c ++ String "." e) = (c, String "." e).
Proof.
  intros Hc He. unfold splitext. now rewrite rsplit_dot_ext, Hc.
Qed.

End StrFacts.

Lemma part_name_inj a b : part_name a = part_name b -> a = b.
Proof.
  unfold part_name. intros Heq. simpl in Heq.
  injection Heq as Heq. apply StrFacts.append_inv_tail in Heq.
  now apply StrFacts.pad5_inj.
Qed.

(** ** The chunked reader *)

Section Chunks.

Lemma concat_chunk_rows n rs : List.concat (chunk_rows n rs) = rs.
Proof.
  funelim (chunk_rows n rs); simp chunk_rows; simpl; auto.
  rewrite H. f_equal. apply firstn_skipn.
Qed.

Lemma chunk_rows_bound n rs c :
  1 <= n -> In c (chunk_rows n rs) -> 1 <= List.length c <= n.
Proof.
  intros Hn. funelim (chunk_rows n rs); simp chunk_rows; simpl.
  - tauto.
  - intros [<-|Hin]; [|now apply H].
    simpl. rewrite length_firstn. lia.
Qed.



(** The batches of a reader put end to end are the rows of the file. *)
Lemma read_chunks_concat n df :
  List.concat (map rows (read_chunks n df)) = rows df.
Proof.
  unfold read_chunks. cbn [map List.concat rows]. rewrite map_map. cbn [rows].
  rewrite map_id, concat_chunk_rows. apply firstn_skipn.
Qed.

Lemma read_chunks_bound n df b :
  1 <= n -> In b (read_chunks n df) ->
  List.length (rows b) <= n /\ columns b = columns df.
Proof.
  intros Hn [<-|Hin].
  - cbn [rows columns]. rewrite length_firstn. split; [lia | reflexivity].
  - apply in_map_iff in Hin. destruct Hin as [c [<- Hc]]. cbn [rows columns].
    apply chunk_rows_bound in Hc; [|assumption]. split; [lia | reflexivity].
Qed.


End Chunks.

(** ** Running the primitives *)

Lemma writes_ev_write l : writes (map ev_write l) = l.
Proof. induction l as [|[p df] l IH]; simpl; congruence. Qed.

Lemma writes_app l1 l2 : writes (l1 ++ l2) = writes l1 ++ writes l2.
Proof.
  induction l1 as [|e l1 IH]; simpl; auto. destruct e; simpl; congruence.
Qed.

Lemma removals_app l1 l2 : removals (l1 ++ l2) = removals l1 ++ removals l2.
Proof.
  induction l1 as [|e l1 IH]; simpl; auto. destruct e; simpl; congruence.
Qed.

Lemma printed_app l1 l2 : printed (l1 ++ l2) = printed l1 ++ printed l2.
Proof.
  induction l1 as [|e l1 IH]; simpl; auto. destruct e; simpl; congruence.
Qed.

Section Runs.

Context `{Platform}.

Lemma bind_ok {A B} (m : M A) (k : A -> M B) fs {a fs1 l1} :
  m fs = (Ok a, fs1, l1) ->
  bind m k fs =
  (result (k a fs1), final_fs (k a fs1), l1 ++ effects (k a fs1)).
Proof.
  intros Hm. unfold bind. rewrite Hm.
  now destruct (k a fs1) as [[r fs2] l2].
Qed.

Lemma bind_raise {A B} (m : M A) (k : A -> M B) fs {e fs1 l1} :
  m fs = (Raise e, fs1, l1) -> bind m k fs = (Raise e, fs1, l1).
Proof. intros Hm. unfold bind. now rewrite Hm. Qed.

Lemma triple_eta {A} (x : res A * node * list event) :
  x = (result x, final_fs x, effects x).
Proof. now destruct x as [[r fs] l]. Qed.

(** [to_parquet] either writes the frame where it is told, or raises and
    leaves the disk as it was. *)
Lemma write_cases df p fs :
  (exists fs', write_df_to_parquet df p fs = (Ok tt, fs', [EvWrite p df]))
  \/ (exists e, write_df_to_parquet df p fs = (Raise e, fs, [])).
Proof.
  unfold write_df_to_parquet.
  destruct (arrow_ok df); cbn [negb]; [|right; eauto].
  destruct (FS.unsnoc p) as [[d name]|]; [|right; eauto].
  destruct (FS.lookup d fs) as [[f|es]|]; try (right; eauto; fail).
  destruct (FS.lookup_entry name es) as [[f|es']|]; try (right; eauto; fail).
  - destruct (f_protected f); [right|left]; eauto.
  - left; eauto.
Qed.

(** A frame without an Arrow table is not written: [to_parquet] raises
    before it looks at the path. *)
Lemma write_arrow_error df p fs :
  arrow_ok df = false ->
  write_df_to_parquet df p fs = (Raise (ArrowError (arrow_message df)), fs, []).
Proof. intros Ha. unfold write_df_to_parquet. now rewrite Ha. Qed.

Lemma write_ok df d name fs {es} :
  arrow_ok df = true ->
  FS.lookup d fs = Some (Dir es) ->
  slot_free name es ->
  write_df_to_parquet df (d ++ [name]) fs =
  (Ok tt, FS.alter_dir d (FS.set_entry name (stored df)) fs,
   [EvWrite (d ++ [name]) df]).
Proof.
  intros Ha Hd Hs. unfold write_df_to_parquet, slot_free in *.
  rewrite Ha. cbn [negb].
  rewrite FSFacts.unsnoc_snoc, Hd.
  destruct (FS.lookup_entry name es) as [[f|es']|]; auto; [|contradiction].
  now rewrite Hs.
Qed.

Lemma lookup_written d name v fs es :
  FS.lookup d fs = Some (Dir es) ->
  FS.lookup d (FS.alter_dir d (FS.set_entry name v) fs)
  = Some (Dir (FS.set_entry name v es)).
Proof.
  intros Hd. pose proof (FSFacts.lookup_alter_dir d (FS.set_entry name v) fs es [] Hd) as E.
  now rewrite app_nil_r in E.
Qed.

Lemma lookup_stored d name v fs es :
  FS.lookup d fs = Some (Dir es) ->
  FS.lookup (d ++ [name]) (FS.alter_dir d (FS.set_entry name v) fs) = Some v.
Proof.
  intros Hd. rewrite (FSFacts.lookup_alter_dir _ _ _ _ _ Hd).
  cbn [FS.lookup]. now rewrite FSFacts.lookup_entry_set_same.
Qed.

(** What [write_parts] logs: the numbered writes, up to the first that
    fails. *)
Lemma write_parts_log d chunks : forall part fs,
  exists n,
    n <= List.length chunks
    /\ effects (write_parts d chunks part fs)
       = map ev_write (firstn n (numbered d chunks part))
    /\ (result (write_parts d chunks part fs) = Ok tt -> n = List.length chunks).
Proof.
  induction chunks as [|c cs IH]; intros part fs.
  - exists 0. simpl. auto.
  - cbn [write_parts numbered].
    destruct (write_cases c (join d [part_name part]) fs) as [[fs1 Hw]|[e Hw]].
    + rewrite (bind_ok _ _ _ Hw).
      destruct (IH (part + 1)%N fs1) as [n [Hn [He Hr]]].
      exists (S n). cbn [result effects fst snd List.length firstn map].
      split; [lia|]. split.
      * now rewrite He.
      * intros Hok. f_equal. now apply Hr.
    + rewrite (bind_raise _ _ _ Hw). exists 0.
      cbn [result effects fst snd List.length firstn map].
      split; [lia|]. split; [reflexivity|discriminate].
Qed.

(** When every slot it needs can be written, [write_parts] writes all
    the chunks, each under its own number, and touches nothing else in
    the directory. *)
Lemma write_parts_ok d chunks : forall part fs es,
  (forall b, In b chunks -> arrow_ok b = true) ->
  FS.lookup d fs = Some (Dir es) ->
  (forall k, slot_free (part_name k) es) ->
  exists fs' es',
    write_parts d chunks part fs
    = (Ok tt, fs', map ev_write (numbered d chunks part))
    /\ FS.lookup d fs' = Some (Dir es')
    /\ (forall i dflt, i < List.length chunks ->
          FS.lookup_entry (part_name (part + N.of_nat i)) es'
          = Some (stored (nth i chunks dflt)))
    /\ (forall c, (forall i, i < List.length chunks ->
                     c <> part_name (part + N.of_nat i)) ->
          FS.lookup_entry c es' = FS.lookup_entry c es).
Proof.
  induction chunks as [|c cs IH]; intros part fs es Ha Hd Hfree.
  - exists fs, es. simpl. repeat split; auto. intros i dflt Hi. lia.
  - cbn [write_parts numbered]. unfold join at 1.
    pose proof (write_ok c d (part_name part) fs (Ha c (or_introl eq_refl))
                  Hd (Hfree part)) as Hw.
    rewrite (bind_ok _ _ _ Hw).
    set (fs1 := FS.alter_dir d (FS.set_entry (part_name part) (stored c)) fs).
    assert (Hd1 : FS.lookup d fs1
                  = Some (Dir (FS.set_entry (part_name part) (stored c) es)))
      by now apply lookup_written.
    assert (Hfree1 : forall k,
               slot_free (part_name k)
                 (FS.set_entry (part_name part) (stored c) es)).
    { intros k. unfold slot_free.
      destruct (N.eq_dec k part) as [->|Hne].
      - now rewrite FSFacts.lookup_entry_set_same.
      - rewrite FSFacts.lookup_entry_set_other; [apply Hfree|].
        intros E. now apply part_name_inj in E. }
    destruct (IH (part + 1)%N fs1 _ (fun b Hb => Ha b (or_intror Hb)) Hd1 Hfree1)
      as [fs' [es' [Hr [Hd' [Hparts Hother]]]]].
    exists fs', es'. rewrite Hr. cbn [result final_fs effects fst snd map].
    split; [reflexivity|]. split; [assumption|]. split.
    + intros [|i] dflt Hi; cbn [nth].
      * rewrite N.add_0_r. rewrite Hother.
        -- apply FSFacts.lookup_entry_set_same.
        -- intros i _ E. apply part_name_inj in E. lia.
      * replace (part + N.of_nat (S i))%N with (part + 1 + N.of_nat i)%N by lia.
        apply Hparts. simpl in Hi. lia.
    + intros c0 Hc0. rewrite Hother.
      * apply FSFacts.lookup_entry_set_other.
        specialize (Hc0 0 ltac:(simpl; lia)). now rewrite N.add_0_r in Hc0.
      * intros i Hi. specialize (Hc0 (S i) ltac:(simpl; lia)).
        now replace (part + N.of_nat (S i))%N with (part + 1 + N.of_nat i)%N
          in Hc0 by lia.
Qed.

End Runs.

(** ** [process_csv] *)

Lemma makedirs_keeps_file {q} : forall {p n n' f},
  FS.makedirs q n = Some n' ->
  FS.lookup p n = Some (File f) -> FS.lookup p n' = Some (File f).
Proof.
  induction q as [|c q IH]; intros p n n' f Hm Hp.
  - destruct n; simpl in Hm; [discriminate|]. now injection Hm as <-.
  - destruct n as [g|es]; simpl in Hm; [discriminate|].
    destruct (FS.makedirs q _) as [s'|] eqn:E; [|discriminate].
    injection Hm as <-. destruct p as [|a p]; [discriminate|].
    cbn [FS.lookup] in *.
    destruct (String.eqb_spec a c) as [->|Hne].
    + rewrite FSFacts.lookup_entry_set_same.
      destruct (FS.lookup_entry c es) as [na|]; [|discriminate].
      now apply (IH _ _ _ _ E).
    + now rewrite FSFacts.lookup_entry_set_other.
Qed.

Lemma In_firstn {A} (x : A) n : forall l, In x (firstn n l) -> In x l.
Proof.
  induction n as [|n IH]; intros [|a l]; simpl; try tauto.
  intros [->|Hin]; auto.
Qed.

Lemma numbered_snd d chunks : forall part,
  map snd (numbered d chunks part) = chunks.
Proof. induction chunks as [|c cs IH]; intros part; simpl; congruence. Qed.

Lemma numbered_fst d chunks : forall part,
  map fst (numbered d chunks part)
  = map (fun i => d ++ [part_name (part + N.of_nat i)]) (seq 0 (List.length chunks)).
Proof.
  induction chunks as [|c cs IH]; intros part; auto.
  cbn [numbered map fst List.length seq]. rewrite IH, <- seq_shift, map_map.
  unfold join. rewrite N.add_0_r. f_equal. apply map_ext. intros i.
  do 3 f_equal. lia.
Qed.

Lemma numbered_length d chunks : forall part,
  List.length (numbered d chunks part) = List.length chunks.
Proof. induction chunks as [|c cs IH]; intros part; simpl; congruence. Qed.

Section ProcessCsv.

Context `{Platform}.

Lemma getsize_file p fs {f} :
  FS.lookup p fs = Some (File f) -> getsize p fs = (Ok (f_size f), fs, []).
Proof. intros Hp. unfold getsize. now rewrite Hp. Qed.

Lemma parse_csv_ok {p fs f df} :
  FS.lookup p fs = Some (File f) -> f_data f = Csv df -> columns df <> [] ->
  parse_csv p fs = (Ok df, fs, []).
Proof.
  intros Hp Hd Hc. unfold parse_csv, bind, open_file. rewrite Hp, Hd.
  destruct (columns df); [contradiction|reflexivity].
Qed.

Lemma ensure_dir_cases p fs :
  (exists fs', FS.makedirs p fs = Some fs'
               /\ ensure_dir p fs = (Ok tt, fs', [EvMakedirs p]))
  \/ (exists e, FS.makedirs p fs = None /\ ensure_dir p fs = (Raise e, fs, [])).
Proof.
  unfold ensure_dir. destruct (FS.makedirs p fs) as [fs'|]; [left; eauto|].
  right. destruct (FS.lookup p fs); eauto.
Qed.

Lemma listdir_pure {A} p fs (k : list string -> A) :
  effects (bind (listdir p) (fun names => ret (k names)) fs) = [].
Proof.
  unfold bind, listdir. destruct (FS.lookup p fs) as [[f|es]|]; reflexivity.
Qed.

Lemma chunked_tail_log part_dir chunks fs :
  exists n,
    n <= List.length chunks
    /\ effects (chunked_tail part_dir chunks fs)
       = map ev_write (firstn n (numbered part_dir chunks 0))
    /\ (forall outs, result (chunked_tail part_dir chunks fs) = Ok outs ->
        n = List.length chunks).
Proof.
  unfold chunked_tail.
  destruct (write_parts_log part_dir chunks 0 fs) as [n [Hn [He Hr]]].
  exists n. split; [assumption|].
  destruct (write_parts part_dir chunks 0 fs) as [[[[]|e] fs2] l] eqn:E.
  - rewrite (bind_ok _ _ _ E). cbn [result effects fst snd] in *.
    rewrite listdir_pure, app_nil_r. auto.
  - rewrite (bind_raise _ _ _ E). cbn [result effects fst snd] in *.
    split; [assumption|]. discriminate.
Qed.

(** A parsable CSV above the threshold: either the part directory cannot
    be made and nothing happens, or the run is the making of the directory
    followed by the numbered writes. *)
Lemma process_csv_big p out_dir name cs fs f df :
  FS.lookup p fs = Some (File f) -> f_data f = Csv df -> columns df <> [] ->
  (threshold < f_size f)%N -> cs <> 0%N ->
  let part_dir := out_dir ++ [name] in
  let chunks := read_chunks (N.to_nat cs) df in
  (exists e, FS.makedirs part_dir fs = None
             /\ process_csv p out_dir name cs fs = (Raise e, fs, []))
  \/ (exists fs1, FS.makedirs part_dir fs = Some fs1
        /\ process_csv p out_dir name cs fs
           = (result (chunked_tail part_dir chunks fs1),
              final_fs (chunked_tail part_dir chunks fs1),
              EvMakedirs part_dir :: effects (chunked_tail part_dir chunks fs1))).
Proof.
  intros Hp Hd Hc Hsz Hcs part_dir chunks.
  apply N.ltb_lt in Hsz.
  unfold process_csv, bind, join. rewrite (getsize_file p fs Hp), Hsz.
  destruct (ensure_dir_cases part_dir fs) as [[fs1 [Hm He]]|[e [Hm He]]].
  - right. exists fs1. split; [assumption|].
    assert (Hr : read_csv_chunked p cs fs1 = (Ok chunks, fs1, [])).
    { unfold read_csv_chunked. apply N.eqb_neq in Hcs. rewrite Hcs.
      rewrite (bind_ok _ _ _ (parse_csv_ok (makedirs_keeps_file Hm Hp) Hd Hc)).
      reflexivity. }
    fold part_dir. rewrite He, Hr. unfold chunked_tail, bind, join.
    destruct (write_parts part_dir chunks 0 fs1) as [[[[]|e] fs2] l]; [|reflexivity].
    destruct (listdir part_dir fs2) as [[[names|e] fs3] l3]; reflexivity.
  - left. exists e. split; [assumption|].
    fold part_dir. now rewrite He.
Qed.

(** What the chunked branch writes, with the default chunk size. *)
Lemma process_csv_big_log p out_dir name fs f df :
  FS.lookup p fs = Some (File f) -> f_data f = Csv df -> columns df <> [] ->
  (threshold < f_size f)%N ->
  let run := process_csv p out_dir name default_chunk_size fs in
  let batches := read_chunks (N.to_nat 200000) df in
  exists n,
    writes (effects run) = firstn n (numbered (out_dir ++ [name]) batches 0)
    /\ (forall outs, result run = Ok outs -> n = List.length batches).
Proof.
  intros Hp Hd Hc Hsz run batches.
  destruct (process_csv_big p out_dir name default_chunk_size fs f df
              Hp Hd Hc Hsz ltac:(discriminate))
    as [[e [_ Hr]]|[fs1 [_ Hr]]]; subst run; rewrite Hr.
  - exists 0. split; [reflexivity|discriminate].
  - destruct (chunked_tail_log (out_dir ++ [name]) batches fs1) as [n [_ [He Hok]]].
    exists n. cbn [result effects fst snd writes].
    change default_chunk_size with 200000%N. fold batches.
    rewrite He, writes_ev_write. auto.
Qed.

(** A parsable CSV at or below the threshold, with a writable target: one
    read of the whole file, one write. *)
Lemma process_csv_small p out_dir name cs fs f df es :
  FS.lookup p fs = Some (File f) -> f_data f = Csv df -> columns df <> [] ->
  (f_size f <= threshold)%N ->
  arrow_ok df = true ->
  FS.lookup out_dir fs = Some (Dir es) ->
  slot_free (name ++ ".parquet") es ->
  let out_file := out_dir ++ [(name ++ ".parquet")%string] in
  process_csv p out_dir name cs fs
  = (Ok [out_file],
     FS.alter_dir out_dir (FS.set_entry (name ++ ".parquet") (stored df)) fs,
     [EvWrite out_file df]).
Proof.
  intros Hp Hd Hc Hsz Ha Ho Hfree out_file. unfold process_csv.
  rewrite (bind_ok _ _ _ (getsize_file _ _ Hp)). cbn [app].
  apply N.ltb_ge in Hsz. rewrite Hsz. unfold read_csv.
  rewrite (bind_ok _ _ _ (parse_csv_ok Hp Hd Hc)). cbn [app].
  unfold join. rewrite (bind_ok _ _ _ (write_ok df _ _ _ Ha Ho Hfree)).
  reflexivity.
Qed.

End ProcessCsv.

(** ** Part files *)

Lemma nth_error_firstn_some {A} (l : list A) n : forall k x,
  nth_error (firstn n l) k = Some x -> nth_error l k = Some x.
Proof.
  revert l. induction n as [|n IH]; intros [|a l] [|k] x; simpl; try discriminate; auto.
Qed.

Lemma nth_error_numbered d chunks : forall part k q b,
  nth_error (numbered d chunks part) k = Some (q, b) ->
  q = d ++ [part_name (part + N.of_nat k)] /\ nth_error chunks k = Some b.
Proof.
  induction chunks as [|c cs IH]; intros part [|k] q b; simpl; try discriminate.
  - intros [= <- <-]. now rewrite N.add_0_r.
  - intros Hk. apply IH in Hk.
    now replace (part + 1 + N.of_nat k)%N with (part + N.pos (Pos.of_succ_nat k))%N
      in Hk by lia.
Qed.

Section Claims_parts.

Context `{Platform}.

Lemma lookup_child d c fs es :
  FS.lookup d fs = Some (Dir es) ->
  FS.lookup (d ++ [c]) fs = FS.lookup_entry c es.
Proof.
  intros Hd. rewrite FSFacts.lookup_app, Hd. cbn [FS.lookup].
  now destruct (FS.lookup_entry c es).
Qed.

Lemma read_back_numbered d chunks : forall part fs es,
  FS.lookup d fs = Some (Dir es) ->
  (forall i dflt, i < List.length chunks ->
     FS.lookup_entry (part_name (part + N.of_nat i)) es
     = Some (stored (nth i chunks dflt))) ->
  read_back d (List.length chunks) part fs = Some (List.concat (map rows chunks)).
Proof.
  induction chunks as [|c cs IH]; intros part fs es Hd Hparts; auto.
  cbn [List.length read_back map List.concat].
  unfold read_part. rewrite (lookup_child _ _ _ _ Hd).
  pose proof (Hparts 0 c ltac:(simpl; lia)) as H0.
  rewrite N.add_0_r in H0. rewrite H0. cbn [stored f_data nth].
  rewrite (IH (part + 1)%N fs es Hd); [reflexivity|].
  intros i dflt Hi. specialize (Hparts (S i) dflt ltac:(simpl; lia)).
  now replace (part + N.of_nat (S i))%N with (part + 1 + N.of_nat i)%N in Hparts by lia.
Qed.

(** With a part directory that can be made and parts that can be written,
    the chunked branch succeeds, and the parts on disk are the batches. *)
Lemma chunked_tail_ok part_dir chunks fs fs1 :
  FS.makedirs part_dir fs = Some fs1 ->
  (forall k, part_writable part_dir fs k) ->
  (forall b, In b chunks -> arrow_ok b = true) ->
  exists outs fs',
    chunked_tail part_dir chunks fs1
    = (Ok outs, fs', map ev_write (numbered part_dir chunks 0))
    /\ read_back part_dir (List.length chunks) 0 fs'
       = Some (List.concat (map rows chunks)).
Proof.
  intros Hm Hfree Ha.
  destruct (FSFacts.makedirs_dir _ _ _ Hm) as [es1 Hd1].
  assert (Hslots : forall k, slot_free (part_name k) es1).
  { intros k. specialize (Hfree k). unfold part_writable, slot_free in *.
    rewrite <- (FSFacts.lookup_below_makedirs _ _ _ (part_name k) [] Hm) in Hfree.
    now rewrite (lookup_child _ _ _ _ Hd1) in Hfree. }
  destruct (write_parts_ok part_dir chunks 0 fs1 es1 Ha Hd1 Hslots)
    as [fs' [es' [Hw [Hd' [Hparts _]]]]].
  unfold chunked_tail. rewrite (bind_ok _ _ _ Hw).
  unfold bind, listdir, ret. rewrite Hd'.
  cbn [result final_fs effects fst snd]. rewrite !app_nil_r.
  eexists. exists fs'. split; [reflexivity|].
  now apply (read_back_numbered part_dir chunks 0 fs' es').
Qed.

End Claims_parts.

Section Claims_chunked.

Context `{Platform}.



End Claims_chunked.


(** ** The outputs a chunked conversion returns *)

Lemma insert_sorted_perm x l : Permutation (Str.insert_sorted x l) (x :: l).
Proof.
  induction l as [|y l IH]; simpl; auto.
  destruct (String.leb x y); auto.
  rewrite IH. apply perm_swap.
Qed.

Lemma sorted_perm l : Permutation (Str.sorted l) l.
Proof.
  induction l as [|x l IH]; simpl; auto.
  rewrite insert_sorted_perm. now constructor.
Qed.

Lemma map_fst_set_entry_absent c v es :
  FS.lookup_entry c es = None ->
  map fst (FS.set_entry c v es) = map fst es ++ [c].
Proof.
  induction es as [|[k w] es IH]; simpl; auto.
  destruct (String.eqb c k); [discriminate|]. intros Hn. simpl. now rewrite IH.
Qed.

Lemma no_entry_nil es : (forall c, FS.lookup_entry c es = None) -> es = [].
Proof.
  destruct es as [|[k w] es]; auto. intros Hn. specialize (Hn k).
  simpl in Hn. now rewrite String.eqb_refl in Hn.
Qed.

Section FreshParts.

Context `{Platform}.

(** In a directory without part files, [write_parts] adds the parts to the
    listing, in order. *)
Lemma write_parts_fresh d chunks : forall part fs es,
  (forall b, In b chunks -> arrow_ok b = true) ->
  FS.lookup d fs = Some (Dir es) ->
  (forall k, (part <= k)%N -> FS.lookup_entry (part_name k) es = None) ->
  exists fs' es',
    write_parts d chunks part fs
    = (Ok tt, fs', map ev_write (numbered d chunks part))
    /\ FS.lookup d fs' = Some (Dir es')
    /\ map fst es'
       = map fst es
         ++ map (fun i => part_name (part + N.of_nat i)) (seq 0 (List.length chunks)).
Proof.
  induction chunks as [|c cs IH]; intros part fs es Ha Hd Hnone.
  - exists fs, es. simpl. rewrite app_nil_r. auto.
  - cbn [write_parts numbered]. unfold join at 1.
    assert (Hfree : slot_free (part_name part) es)
      by (unfold slot_free; now rewrite (Hnone part (N.le_refl _))).
    rewrite (bind_ok _ _ _ (write_ok c d (part_name part) fs
                              (Ha c (or_introl eq_refl)) Hd Hfree)).
    set (fs1 := FS.alter_dir d (FS.set_entry (part_name part) (stored c)) fs).
    assert (Hd1 : FS.lookup d fs1
                  = Some (Dir (FS.set_entry (part_name part) (stored c) es)))
      by now apply lookup_written.
    destruct (IH (part + 1)%N fs1 _ (fun b Hb => Ha b (or_intror Hb)) Hd1)
      as [fs' [es' [Hr [Hd' Hl]]]].
    { intros k Hk. rewrite FSFacts.lookup_entry_set_other.
      - apply Hnone. lia.
      - intros E. apply part_name_inj in E. lia. }
    exists fs', es'. rewrite Hr. cbn [result final_fs effects fst snd map].
    split; [reflexivity|]. split; [assumption|].
    rewrite Hl, map_fst_set_entry_absent by (apply Hnone; lia).
    rewrite <- app_assoc. f_equal. cbn [List.length seq map].
    rewrite <- seq_shift, map_map, N.add_0_r. simpl. f_equal.
    apply map_ext. intros i. f_equal. lia.
Qed.

(** A chunked conversion into a part directory that held nothing, with
    batches that all have an Arrow table: the run, the listing of the
    directory after it, and the rows read back. *)
Lemma process_csv_fresh p out_dir name cs fs f df :
  FS.lookup p fs = Some (File f) -> f_data f = Csv df -> columns df <> [] ->
  (threshold < f_size f)%N -> cs <> 0%N ->
  let part_dir := out_dir ++ [name] in
  let chunks := read_chunks (N.to_nat cs) df in
  FS.makedirs part_dir fs <> None ->
  (forall c, FS.lookup (part_dir ++ [c]) fs = None) ->
  (forall b, In b chunks -> arrow_ok b = true) ->
  exists fs' es',
    process_csv p out_dir name cs fs
    = (Ok (map (fun g => part_dir ++ [g]) (Str.sorted (map fst es'))), fs',
       EvMakedirs part_dir :: map ev_write (numbered part_dir chunks 0))
    /\ FS.lookup part_dir fs' = Some (Dir es')
    /\ map fst es'
       = map (fun i => part_name (N.of_nat i)) (seq 0 (List.length chunks))
    /\ read_back part_dir (List.length chunks) 0 fs'
       = Some (List.concat (map rows chunks)).
Proof.
  intros Hp Hd Hc Hsz Hcs part_dir chunks Hmk Hempty Ha.
  destruct (process_csv_big p out_dir name cs fs f df Hp Hd Hc Hsz Hcs)
    as [[e [Hm _]]|[fs1 [Hm Hr]]]; [contradiction|].
  fold part_dir chunks in Hm, Hr.
  destruct (FSFacts.makedirs_dir _ _ _ Hm) as [es1 Hd1].
  assert (Hes1 : es1 = []).
  { apply no_entry_nil. intros c.
    rewrite <- (lookup_child _ _ _ _ Hd1).
    rewrite (FSFacts.lookup_below_makedirs _ _ _ c [] Hm).
    apply Hempty. }
  subst es1.
  destruct (write_parts_fresh part_dir chunks 0 fs1 [] Ha Hd1 (fun _ _ => eq_refl))
    as [fs' [es' [Hw [Hd' Hl]]]].
  destruct (write_parts_ok part_dir chunks 0 fs1 [] Ha Hd1 (fun _ => I))
    as [fs'' [es'' [Hw' [Hd'' [Hparts _]]]]].
  rewrite Hw in Hw'. injection Hw' as <-. rewrite Hd' in Hd''. injection Hd'' as <-.
  assert (Ht : chunked_tail part_dir chunks fs1
               = (Ok (map (fun g => join part_dir [g]) (Str.sorted (map fst es'))),
                  fs', map ev_write (numbered part_dir chunks 0))).
  { unfold chunked_tail. rewrite (bind_ok _ _ _ Hw).
    unfold bind, listdir, ret. rewrite Hd'.
    cbn [result final_fs effects fst snd]. now rewrite !app_nil_r. }
  rewrite Ht in Hr. cbn [result final_fs effects fst snd] in Hr.
  exists fs', es'. split; [exact Hr|]. split; [exact Hd'|]. split.
  - rewrite Hl. cbn [map app]. apply map_ext. intros i. f_equal.
  - now apply (read_back_numbered part_dir chunks 0 fs' es').
Qed.

(** Into a part directory that held nothing, a chunked conversion returns
    the files it wrote, and only then is the list it returns sure to be
    those: it is the listing of the directory. *)
Lemma process_csv_outputs_fresh p out_dir name fs f df :
  FS.lookup p fs = Some (File f) -> f_data f = Csv df -> columns df <> [] ->
  (threshold < f_size f)%N ->
  FS.makedirs (out_dir ++ [name]) fs <> None ->
  (forall c, FS.lookup (out_dir ++ [name] ++ [c]) fs = None) ->
  (forall b, In b (read_chunks (N.to_nat default_chunk_size) df) ->
             arrow_ok b = true) ->
  let run := process_csv p out_dir name default_chunk_size fs in
  exists outs,
    result run = Ok outs
    /\ Permutation outs (map fst (writes (effects run))).
Proof.
  intros Hp Hd Hc Hsz Hmk Hempty Ha run.
  destruct (process_csv_fresh p out_dir name default_chunk_size fs f df
              Hp Hd Hc Hsz ltac:(discriminate) Hmk)
    as [fs' [es' [Hr [_ [Hl _]]]]]; [|exact Ha|].
  { intros c. rewrite <- app_assoc. apply Hempty. }
  unfold run. rewrite Hr. cbn [result effects fst snd writes].
  eexists. split; [reflexivity|].
  rewrite writes_ev_write, numbered_fst, Hl.
  rewrite <- (map_map (fun i => part_name (N.of_nat i))
                      (fun g => (out_dir ++ [name]) ++ [g])).
  apply Permutation_map. apply sorted_perm.
Qed.

End FreshParts.

(** ** The chunking policy *)

Section Claims_policy.

Context `{Platform}.

(** C1.  A parsable CSV file above 50 * 1024 * 1024 bytes is read in
    batches: the reader yields at least one batch, the batches have the
    header of the file and at most 200000 rows each, and put together they
    are the rows of the file; what [process_csv] writes is the numbered
    sequence of these batches, all of them when it returns, and it returns
    with all of them written whenever the part directory can be made, the
    parts can be written and every batch has an Arrow table.  A file of at
    most that size is read whole as one batch: the run either writes that
    one frame to the one output file and returns it, or raises without
    writing, and it writes whenever the frame has an Arrow table and the
    target can be written. *)
Theorem process_csv_chunking_policy
  (p out_dir : path) (name : string) (fs : node) (f : file) (df : frame) :
  FS.lookup p fs = Some (File f) -> f_data f = Csv df -> columns df <> [] ->
  let run := process_csv p out_dir name default_chunk_size fs in
  let out_file := out_dir ++ [(name ++ ".parquet")%string] in
  let part_dir := out_dir ++ [name] in
  let batches := read_chunks (N.to_nat 200000) df in
  ((50 * 1024 * 1024 < f_size f)%N ->
     batches <> []
     /\ List.concat (map rows batches) = rows df
     /\ (forall b, In b batches ->
           columns b = columns df
           /\ (N.of_nat (List.length (rows b)) <= 200000)%N)
     /\ (exists n, writes (effects run) = firstn n (numbered part_dir batches 0)
                /\ (forall outs, result run = Ok outs -> n = List.length batches))
     /\ (forall q b, In (q, b) (writes (effects run)) ->
           (N.of_nat (List.length (rows b)) <= 200000)%N)
     /\ (FS.makedirs part_dir fs <> None ->
         (forall k, part_writable part_dir fs k) ->
         (forall b, In b batches -> arrow_ok b = true) ->
         (exists outs, result run = Ok outs)
         /\ writes (effects run) = numbered part_dir batches 0))
  /\ ((f_size f <= 50 * 1024 * 1024)%N ->
     ((result run = Ok [out_file] /\ effects run = [EvWrite out_file df])
      \/ (exists e, result run = Raise e /\ effects run = []))
     /\ (forall es, FS.lookup out_dir fs = Some (Dir es) ->
           slot_free (name ++ ".parquet") es ->
           arrow_ok df = true ->
           result run = Ok [out_file] /\ effects run = [EvWrite out_file df]
           /\ FS.lookup out_file (final_fs run) = Some (stored df))).
Proof.
  intros Hp Hd Hc run out_file part_dir batches. split.
  - intros Hsz.
    assert (Hbound : forall b, In b batches ->
              columns b = columns df
              /\ (N.of_nat (List.length (rows b)) <= 200000)%N).
    { intros b Hb. apply read_chunks_bound in Hb; [|lia]. split; [tauto|lia]. }
    pose proof (process_csv_big_log p out_dir name fs f df Hp Hd Hc Hsz) as Hw.
    fold run batches part_dir in Hw.
    split; [discriminate|]. split; [apply read_chunks_concat|].
    split; [exact Hbound|]. split; [exact Hw|]. split.
    + destruct Hw as [n [Hw _]]. intros q b Hin. rewrite Hw in Hin.
      apply In_firstn in Hin. apply (in_map snd) in Hin.
      rewrite numbered_snd in Hin. cbn [snd] in Hin.
      now apply Hbound.
    + intros Hmk Hfree Ha.
      destruct (process_csv_big p out_dir name default_chunk_size fs f df
                  Hp Hd Hc Hsz ltac:(discriminate))
        as [[e [Hm _]]|[fs1 [Hm Hr]]]; [contradiction|].
      fold run part_dir in Hm, Hr.
      change (read_chunks (N.to_nat default_chunk_size) df) with batches in Hr.
      destruct (chunked_tail_ok part_dir batches fs fs1 Hm Hfree Ha)
        as [outs [fs' [Ht _]]].
      rewrite Ht in Hr. rewrite Hr. cbn [result effects fst snd writes].
      split; [now exists outs|apply writes_ev_write].
  - intros Hsz. unfold run, process_csv.
    rewrite (bind_ok _ _ _ (getsize_file _ _ Hp)).
    apply N.ltb_ge in Hsz. change (50 * 1024 * 1024)%N with threshold in Hsz.
    rewrite Hsz. unfold read_csv.
    rewrite (bind_ok _ _ _ (parse_csv_ok Hp Hd Hc)). unfold join. fold out_file.
    split.
    + destruct (write_cases df out_file fs) as [[fs' Hw]|[e Hw]].
      * left. rewrite (bind_ok _ _ _ Hw). split; reflexivity.
      * right. exists e. rewrite (bind_raise _ _ _ Hw). split; reflexivity.
    + intros es Ho Hfree Ha.
      rewrite (bind_ok _ _ _ (write_ok df _ _ _ Ha Ho Hfree)).
      cbn [result effects final_fs fst snd app ret].
      repeat split.
      unfold out_file. rewrite (FSFacts.lookup_alter_dir _ _ _ _ _ Ho).
      cbn [FS.lookup]. now rewrite FSFacts.lookup_entry_set_same.
Qed.


End Claims_policy.

Lemma process_csv_chunking_policy_witness :
  FS.lookup ["in"; "data"; "x.csv"] demo_fs = Some (File (csv_file kib demo_frame))
  /\ result (@process_csv demo_platform ["in"; "data"; "x.csv"] ["out"] "x"
               default_chunk_size demo_fs)
     = Ok [["out"; "x.parquet"]]
  /\ FS.lookup ["in"; "data"; "big.csv"] demo_fs
     = Some (File (csv_file (60 * mib) demo_frame))
  /\ writes (effects (@process_csv demo_platform ["in"; "data"; "big.csv"] ["out"]
                        "big" default_chunk_size demo_fs))
     = [(["out"; "big"; "part-00000.parquet"], demo_frame)].
Proof.
  split; [reflexivity|]. split; [|split; [reflexivity|]].
  - destruct (@process_csv_chunking_policy demo_platform
                ["in"; "data"; "x.csv"] ["out"] "x" demo_fs
                (csv_file kib demo_frame) demo_frame
                eq_refl eq_refl ltac:(discriminate)) as [_ Hsmall].
    destruct (Hsmall ltac:(vm_compute; discriminate)) as [_ Hw].
    exact (proj1 (Hw [] eq_refl I eq_refl)).
  - destruct (@process_csv_chunking_policy demo_platform
                ["in"; "data"; "big.csv"] ["out"] "big" demo_fs
                (csv_file (60 * mib) demo_frame) demo_frame
                eq_refl eq_refl ltac:(discriminate)) as [Hbig _].
    destruct (Hbig eq_refl) as [_ [_ [_ [_ [_ Hall]]]]].
    exact (proj2 (Hall ltac:(discriminate) (fun k => I) (fun b _ => eq_refl))).
Defined.




(** ** Paths *)

Lemma dirname_snoc d x : dirname (d ++ [x]) = d.
Proof. unfold dirname. now rewrite FSFacts.unsnoc_snoc. Qed.

Lemma basename_snoc d x : basename (d ++ [x]) = x.
Proof. unfold basename. now rewrite FSFacts.unsnoc_snoc. Qed.

Lemma common_prefix_app a b : common_prefix a (a ++ b) = List.length a.
Proof.
  induction a as [|x a IH]; simpl.
  - now destruct b.
  - now rewrite String.eqb_refl, IH.
Qed.

(** Relative to the root, a path under the root is what follows the root. *)
Lemma relpath_under root rel : relpath (root ++ rel) root = rel.
Proof.
  unfold relpath. rewrite common_prefix_app, Nat.sub_diag. simpl.
  rewrite skipn_app, Nat.sub_diag, skipn_all. reflexivity.
Qed.

(** ** Which exceptions the conversions raise, and where they write *)

Lemma no_exit_ret {A} (a : A) : no_exit (ret a).
Proof. intros fs e fs' l. unfold ret. discriminate. Qed.

Lemma no_exit_raise {A} e : is_exception e = true -> no_exit (@raise A e).
Proof. intros He fs e' fs' l. unfold raise. now intros [= <- _ _]. Qed.

Lemma no_exit_bind {A B} (m : M A) (k : A -> M B) :
  no_exit m -> (forall a, no_exit (k a)) -> no_exit (bind m k).
Proof.
  intros Hm Hk fs e fs' l. unfold bind.
  destruct (m fs) as [[[a|e1] fs1] l1] eqn:Em.
  - destruct (k a fs1) as [[r2 fs2] l2] eqn:Ek. intros [= -> _ _].
    exact (Hk a _ _ _ _ Ek).
  - intros [= <- _ _]. exact (Hm _ _ _ _ Em).
Qed.

Lemma no_exit_emit ev : no_exit (emit ev).
Proof. intros fs e fs' l. unfold emit. discriminate. Qed.

Lemma read_only_ret {A} (a : A) : read_only (ret a).
Proof. intros fs. now exists (Ok a). Qed.

Lemma read_only_raise {A} e : read_only (@raise A e).
Proof. intros fs. now exists (Raise e). Qed.

Lemma read_only_bind {A B} (m : M A) (k : A -> M B) :
  read_only m -> (forall a, read_only (k a)) -> read_only (bind m k).
Proof.
  intros Hm Hk fs. unfold bind. destruct (Hm fs) as [[a|e] ->].
  - destruct (Hk a fs) as [r ->]. now exists r.
  - now exists (Raise e).
Qed.

Create HintDb effects_db.

#[export] Hint Resolve no_exit_ret no_exit_bind no_exit_emit : effects_db.
#[export] Hint Resolve read_only_ret read_only_raise read_only_bind : effects_db.
#[export] Hint Extern 1 (no_exit (raise _)) =>
  apply no_exit_raise; reflexivity : effects_db.

Section Effects.

Context `{Platform}.

Lemma no_exit_ensure_dir p : no_exit (ensure_dir p).
Proof.
  intros fs e fs' l. unfold ensure_dir.
  destruct (FS.makedirs p fs); [discriminate|].
  destruct (FS.lookup p fs); now intros [= <- _ _].
Qed.

Lemma no_exit_getsize p : no_exit (getsize p).
Proof.
  intros fs e fs' l. unfold getsize.
  destruct (FS.lookup p fs) as [[f|es]|]; try discriminate. now intros [= <- _ _].
Qed.

Lemma no_exit_listdir p : no_exit (listdir p).
Proof.
  intros fs e fs' l. unfold listdir.
  destruct (FS.lookup p fs) as [[f|es]|]; try discriminate; now intros [= <- _ _].
Qed.

Lemma no_exit_open_file p : no_exit (open_file p).
Proof.
  intros fs e fs' l. unfold open_file.
  destruct (FS.lookup p fs) as [[f|es]|]; try discriminate; now intros [= <- _ _].
Qed.

Lemma read_only_open_file p : read_only (open_file p).
Proof.
  intros fs. unfold open_file.
  destruct (FS.lookup p fs) as [[f|es]|]; eauto.
Qed.

Lemma read_only_getsize p : read_only (getsize p).
Proof.
  intros fs. unfold getsize.
  destruct (FS.lookup p fs) as [[f|es]|]; eauto.
Qed.

Lemma read_only_listdir p : read_only (listdir p).
Proof.
  intros fs. unfold listdir.
  destruct (FS.lookup p fs) as [[f|es]|]; eauto.
Qed.

Lemma no_exit_write df p : no_exit (write_df_to_parquet df p).
Proof.
  intros fs e fs' l Hr.
  destruct (write_cases df p fs) as [[fs1 Hw]|[e1 Hw]]; rewrite Hw in Hr;
    [discriminate|].
  injection Hr as <- _ _. revert Hw. unfold write_df_to_parquet. cbv zeta.
  destruct (arrow_ok df); cbn [negb]; [|now intros [= <-]].
  destruct (FS.unsnoc p) as [[d name]|]; [|now intros [= <-]].
  destruct (FS.lookup d fs) as [[f|es]|]; try (now intros [= <-]).
  destruct (FS.lookup_entry name es) as [[f|es']|]; try (now intros [= <-]);
    try discriminate.
  destruct (f_protected f); [now intros [= <-]|discriminate].
Qed.

#[local] Hint Resolve no_exit_ensure_dir no_exit_getsize no_exit_listdir
  no_exit_open_file no_exit_write read_only_open_file read_only_getsize
  read_only_listdir : effects_db.

Lemma no_exit_parse_csv p : no_exit (parse_csv p).
Proof.
  unfold parse_csv. apply no_exit_bind; auto with effects_db.
  intros [df| | | |]; auto with effects_db.
  destruct (columns df); auto with effects_db.
Qed.

Lemma read_only_parse_csv p : read_only (parse_csv p).
Proof.
  unfold parse_csv. apply read_only_bind; auto with effects_db.
  intros [df| | | |]; auto with effects_db.
  destruct (columns df); auto with effects_db.
Qed.

Lemma no_exit_read_csv_chunked p n : no_exit (read_csv_chunked p n).
Proof.
  unfold read_csv_chunked. destruct (n =? 0)%N; auto with effects_db.
  apply no_exit_bind; auto using no_exit_parse_csv with effects_db.
Qed.

Lemma read_only_read_csv_chunked p n : read_only (read_csv_chunked p n).
Proof.
  unfold read_csv_chunked. destruct (n =? 0)%N; auto with effects_db.
  apply read_only_bind; auto using read_only_parse_csv with effects_db.
Qed.

Lemma no_exit_read_excel p : no_exit (read_excel p).
Proof.
  unfold read_excel. apply no_exit_bind; auto with effects_db.
  intros [df|[|sh sheets]| | |]; auto with effects_db.
Qed.

Lemma read_only_read_excel p : read_only (read_excel p).
Proof.
  unfold read_excel. apply read_only_bind; auto with effects_db.
  intros [df|[|sh sheets]| | |]; auto with effects_db.
Qed.

Lemma no_exit_read_stata p : no_exit (read_stata p).
Proof.
  unfold read_stata. apply no_exit_bind; auto with effects_db.
  intros [df| | | |]; auto with effects_db.
Qed.

Lemma read_only_read_stata p : read_only (read_stata p).
Proof.
  unfold read_stata. apply read_only_bind; auto with effects_db.
  intros [df| | | |]; auto with effects_db.
Qed.

Lemma no_exit_write_parts d chunks : forall part, no_exit (write_parts d chunks part).
Proof.
  induction chunks as [|c cs IH]; intros part; cbn [write_parts];
    auto with effects_db.
Qed.

#[local] Hint Resolve no_exit_parse_csv read_only_parse_csv
  no_exit_read_csv_chunked read_only_read_csv_chunked
  no_exit_read_excel read_only_read_excel no_exit_read_stata
  read_only_read_stata no_exit_write_parts : effects_db.

Lemma no_exit_process_csv p out_dir name cs : no_exit (process_csv p out_dir name cs).
Proof.
  unfold process_csv, read_csv. apply no_exit_bind; auto with effects_db.
  intros sz. destruct (threshold <? sz)%N; auto 10 with effects_db.
Qed.

Lemma no_exit_process_excel p out_dir name : no_exit (process_excel p out_dir name).
Proof. unfold process_excel. auto 10 with effects_db. Qed.

Lemma no_exit_process_dta p out_dir name : no_exit (process_dta p out_dir name).
Proof. unfold process_dta. auto 10 with effects_db. Qed.

(** Nothing the conversion of one file raises escapes [except Exception]. *)
Lemma no_exit_dispatch ext f target_dir name : no_exit (dispatch ext f target_dir name).
Proof.
  unfold dispatch.
  destruct (String.eqb ext ".csv"); [apply no_exit_process_csv|].
  destruct (Str.mem ext _); [apply no_exit_process_excel|].
  destruct (String.eqb ext ".dta"); [apply no_exit_process_dta|].
  apply no_exit_ret.
Qed.

(** A reader followed by one write: the only place written is the target. *)
Lemma single_write_log (rd : M frame) out_file fs :
  read_only rd ->
  forall q b,
    In (q, b) (writes (effects
      ((df <- rd ;; write_df_to_parquet df out_file ;; ret [out_file]) fs))) ->
    q = out_file.
Proof.
  intros Hrd q b. unfold bind. destruct (Hrd fs) as [[df|e] ->]; [|simpl; tauto].
  destruct (write_cases df out_file fs) as [[fs' ->]|[e ->]]; simpl; [|tauto].
  intros [[= <- _]|[]]. reflexivity.
Qed.

Lemma In_numbered d chunks : forall part q b,
  In (q, b) (numbered d chunks part) -> exists k, q = d ++ [part_name k].
Proof.
  induction chunks as [|c cs IH]; intros part q b; simpl; [tauto|].
  intros [[= <- _]|Hin]; [now exists part|]. exact (IH _ _ _ Hin).
Qed.

Lemma run_nil_app {A} (x : res A * node * list event) :
  match x with (r, fs2, l2) => (r, fs2, [] ++ l2) end = x.
Proof. now destruct x as [[r fs2] l2]. Qed.

Lemma process_csv_above p out_dir name cs fs sz :
  getsize p fs = (Ok sz, fs, []) -> (threshold <? sz)%N = true ->
  process_csv p out_dir name cs fs
  = (ensure_dir (out_dir ++ [name]) ;;
     chunks <- read_csv_chunked p cs ;;
     chunked_tail (out_dir ++ [name]) chunks) fs.
Proof.
  intros Hg Hsz. unfold process_csv. unfold bind at 1. rewrite Hg, Hsz.
  etransitivity; [apply run_nil_app|reflexivity].
Qed.

Lemma process_csv_below p out_dir name cs fs sz :
  getsize p fs = (Ok sz, fs, []) -> (threshold <? sz)%N = false ->
  process_csv p out_dir name cs fs
  = (df <- read_csv p ;;
     write_df_to_parquet df (out_dir ++ [(name ++ ".parquet")%string]) ;;
     ret [out_dir ++ [(name ++ ".parquet")%string]]) fs.
Proof.
  intros Hg Hsz. unfold process_csv. unfold bind at 1. rewrite Hg, Hsz.
  etransitivity; [apply run_nil_app|reflexivity].
Qed.

(** Where [process_csv] writes: the part files of the part directory above
    the threshold, the one output file otherwise. *)
Lemma process_csv_writes p out_dir name cs fs x :
  FS.lookup p fs = Some (File x) ->
  forall q b, In (q, b) (writes (effects (process_csv p out_dir name cs fs))) ->
    if (threshold <? f_size x)%N
    then exists k, q = out_dir ++ [name] ++ [part_name k]
    else q = out_dir ++ [(name ++ ".parquet")%string].
Proof.
  intros Hp q b. destruct (threshold <? f_size x)%N eqn:Hsz.
  - rewrite (process_csv_above p out_dir name cs fs _ (getsize_file _ _ Hp) Hsz).
    unfold bind.
    destruct (ensure_dir_cases (out_dir ++ [name]) fs) as [[fs1 [_ ->]]|[e [_ ->]]];
      [|simpl; tauto].
    destruct (read_only_read_csv_chunked p cs fs1) as [[chunks|e] ->];
      [|simpl; tauto].
    destruct (chunked_tail_log (out_dir ++ [name]) chunks fs1) as [n [_ [He _]]].
    destruct (chunked_tail (out_dir ++ [name]) chunks fs1) as [[r2 fs2] l2].
    cbn [effects snd] in *. subst l2. rewrite !writes_app. cbn [app writes].
    rewrite writes_ev_write. intros Hin. apply In_firstn, In_numbered in Hin.
    destruct Hin as [k ->]. exists k. now rewrite <- app_assoc.
  - rewrite (process_csv_below p out_dir name cs fs _ (getsize_file _ _ Hp) Hsz).
    apply single_write_log. unfold read_csv. auto with effects_db.
Qed.

Lemma process_excel_writes p out_dir name fs :
  forall q b, In (q, b) (writes (effects (process_excel p out_dir name fs))) ->
    q = out_dir ++ [(name ++ ".parquet")%string].
Proof. apply single_write_log. auto with effects_db. Qed.

Lemma process_dta_writes p out_dir name fs :
  forall q b, In (q, b) (writes (effects (process_dta p out_dir name fs))) ->
    q = out_dir ++ [(name ++ ".parquet")%string].
Proof. apply single_write_log. auto with effects_db. Qed.

End Effects.

(** ** One file of the batch *)

Section ConvertOne.

Context `{Platform}.

(** A conversion that returns is recorded as a success, with its outputs. *)
Lemma attempt_ok f target_dir name ext fs outs fs' l :
  dispatch ext f target_dir name fs = (Ok outs, fs', l) ->
  attempt f target_dir name ext fs
  = (Ok (f, outs, None), fs', l ++ [EvPrint (MsgConverted f (List.length outs))]).
Proof.
  intros Hd. unfold attempt, try_except, bind. now rewrite Hd.
Qed.

(** A conversion that raises is recorded as a failure, with the message of
    the exception and no output, and the loop body returns normally. *)
Lemma attempt_failed f target_dir name ext fs e fs' l :
  dispatch ext f target_dir name fs = (Raise e, fs', l) ->
  attempt f target_dir name ext fs
  = (Ok (f, [], Some (describe e)), fs', l ++ [EvPrint (MsgFailed f (describe e))]).
Proof.
  intros Hd. unfold attempt, try_except, bind. rewrite Hd.
  now rewrite (no_exit_dispatch _ _ _ _ _ _ _ _ Hd).
Qed.

Lemma attempt_cases f target_dir name ext fs :
  exists o fs' l,
    attempt f target_dir name ext fs = (Ok o, fs', l)
    /\ o_input o = f
    /\ writes l = writes (effects (dispatch ext f target_dir name fs))
    /\ ((exists outs, result (dispatch ext f target_dir name fs) = Ok outs
                      /\ o = (f, outs, None))
        \/ (exists e, result (dispatch ext f target_dir name fs) = Raise e
                      /\ o = (f, [], Some (describe e)))).
Proof.
  destruct (dispatch ext f target_dir name fs) as [[[outs|e] fs'] l] eqn:Hd.
  - rewrite (attempt_ok _ _ _ _ _ _ _ _ Hd). do 3 eexists.
    split; [reflexivity|]. split; [reflexivity|]. split.
    + rewrite writes_app. simpl. now rewrite app_nil_r.
    + left. exists outs. split; reflexivity.
  - rewrite (attempt_failed _ _ _ _ _ _ _ _ Hd). do 3 eexists.
    split; [reflexivity|]. split; [reflexivity|]. split.
    + rewrite writes_app. simpl. now rewrite app_nil_r.
    + right. exists e. split; reflexivity.
Qed.

(** The loop body on a file under the input root. *)
Lemma convert_one_under input_dir output_dir rel fname :
  convert_one input_dir output_dir (input_dir ++ rel ++ [fname])
  = (ensure_dir (output_dir ++ rel) ;;
     attempt (input_dir ++ rel ++ [fname]) (output_dir ++ rel)
       (fst (Str.splitext fname)) (str_lower (snd (Str.splitext fname)))).
Proof.
  unfold convert_one. rewrite (app_assoc input_dir rel [fname]).
  now rewrite dirname_snoc, basename_snoc, relpath_under.
Qed.

(** The loop body either stops at the making of the target directory,
    with an exception nothing catches, or returns an outcome for its
    file. *)
Lemma convert_one_cases input_dir output_dir f fs :
  let target_dir := join output_dir (relpath (dirname f) input_dir) in
  (exists e, FS.makedirs target_dir fs = None
             /\ convert_one input_dir output_dir f fs = (Raise e, fs, []))
  \/ (exists fs1 o fs' l,
        FS.makedirs target_dir fs = Some fs1
        /\ convert_one input_dir output_dir f fs
           = (Ok o, fs', EvMakedirs target_dir :: l)
        /\ o_input o = f
        /\ (o_error o = None \/ o_outputs o = [])).
Proof.
  intros target_dir. unfold convert_one. fold target_dir.
  destruct (ensure_dir_cases target_dir fs) as [[fs1 [Hm He]]|[e [Hm He]]].
  - right. rewrite (bind_ok _ _ _ He).
    destruct (attempt_cases f target_dir (fst (Str.splitext (basename f)))
                (str_lower (snd (Str.splitext (basename f)))) fs1)
      as [o [fs' [l [Ha [Hin [_ Hcase]]]]]].
    rewrite Ha. exists fs1, o, fs', l. repeat split; auto.
    destruct Hcase as [[outs [_ ->]]|[e [_ ->]]]; auto.
  - left. exists e. split; [assumption|]. now rewrite (bind_raise _ _ _ He).
Qed.

End ConvertOne.

Section Claims_layout.

Context `{Platform}.

(** A workbook with a first sheet that has an Arrow table, and a writable
    target: one read, one write. *)
Lemma process_excel_ok p out_dir name fs f sh others es :
  FS.lookup p fs = Some (File f) -> f_data f = Workbook (sh :: others) ->
  arrow_ok sh = true ->
  FS.lookup out_dir fs = Some (Dir es) ->
  slot_free (name ++ ".parquet") es ->
  let out_file := out_dir ++ [(name ++ ".parquet")%string] in
  process_excel p out_dir name fs
  = (Ok [out_file],
     FS.alter_dir out_dir (FS.set_entry (name ++ ".parquet") (stored sh)) fs,
     [EvWrite out_file sh]).
Proof.
  intros Hp Hd Ha Ho Hfree out_file. unfold process_excel, join.
  assert (Hr : read_excel p fs = (Ok sh, fs, []))
    by (unfold read_excel, bind, open_file; now rewrite Hp, Hd).
  rewrite (bind_ok _ _ _ Hr), (bind_ok _ _ _ (write_ok sh _ _ _ Ha Ho Hfree)).
  reflexivity.
Qed.

Lemma process_dta_ok p out_dir name fs f df es :
  FS.lookup p fs = Some (File f) -> f_data f = Stata df ->
  arrow_ok df = true ->
  FS.lookup out_dir fs = Some (Dir es) ->
  slot_free (name ++ ".parquet") es ->
  let out_file := out_dir ++ [(name ++ ".parquet")%string] in
  process_dta p out_dir name fs
  = (Ok [out_file],
     FS.alter_dir out_dir (FS.set_entry (name ++ ".parquet") (stored df)) fs,
     [EvWrite out_file df]).
Proof.
  intros Hp Hd Ha Ho Hfree out_file. unfold process_dta, join.
  assert (Hr : read_stata p fs = (Ok df, fs, []))
    by (unfold read_stata, bind, open_file; now rewrite Hp, Hd).
  rewrite (bind_ok _ _ _ Hr), (bind_ok _ _ _ (write_ok df _ _ _ Ha Ho Hfree)).
  reflexivity.
Qed.

(** A readable file that is not a CSV above the threshold, with a frame
    that has an Arrow table and a writable target: the dispatch reads it
    and writes it to the one output file. *)
Lemma dispatch_single ext p out_dir name fs x df es :
  FS.lookup p fs = Some (File x) ->
  String.eqb ext ".csv" && (threshold <? f_size x)%N = false ->
  decoded ext x = Some df -> arrow_ok df = true ->
  FS.lookup out_dir fs = Some (Dir es) ->
  slot_free (name ++ ".parquet") es ->
  let out_file := out_dir ++ [(name ++ ".parquet")%string] in
  dispatch ext p out_dir name fs
  = (Ok [out_file],
     FS.alter_dir out_dir (FS.set_entry (name ++ ".parquet") (stored df)) fs,
     [EvWrite out_file df]).
Proof.
  intros Hp Hch Hdec Ha Ho Hfree out_file. unfold dispatch, decoded in *.
  destruct (String.eqb ext ".csv").
  - cbn [andb] in Hch. apply N.ltb_ge in Hch.
    destruct (f_data x) as [d| | | |] eqn:Hd; try discriminate.
    destruct (columns d) as [|c0 cs0] eqn:Hc; [discriminate|].
    injection Hdec as ->.
    apply (process_csv_small p out_dir name default_chunk_size fs x df es Hp Hd);
      auto. now rewrite Hc.
  - destruct (Str.mem ext [".xlsx"; ".xls"]).
    + destruct (f_data x) as [|[|sh others]| | |] eqn:Hd; try discriminate.
      injection Hdec as ->.
      exact (process_excel_ok p out_dir name fs x df others es Hp Hd Ha Ho Hfree).
    + destruct (String.eqb ext ".dta"); [|discriminate].
      destruct (f_data x) as [| |d| |] eqn:Hd; try discriminate.
      injection Hdec as ->.
      exact (process_dta_ok p out_dir name fs x df es Hp Hd Ha Ho Hfree).
Qed.

(** C3.  For an input file [c.e] at [rel] under the input root, the loop
    body first makes [output_dir/rel] with its missing ancestors (making it
    again changes nothing and raises nothing); if that directory cannot be
    made nothing is written at all.  Once it is made, a file that its
    reader accepts, whose frame has an Arrow table and whose target can be
    written, is written to [output_dir/rel/c.parquet], which is then on
    disk with the frame and is the one output of the outcome; a CSV above
    the threshold is written instead as the numbered parts of
    [output_dir/rel/c/], which read back give its rows.  And whatever
    happens, every write of the body goes to [output_dir/rel/c.parquet],
    or, for a CSV above the threshold, to a part file inside
    [output_dir/rel/c/]. *)
Theorem mirrored_layout
  (input_dir output_dir rel : path) (c e : string) (fs : node) (x : file) :
  Str.all_dots c = false -> Str.rsplit_dot e = None ->
  let f := input_dir ++ rel ++ [(c ++ "." ++ e)%string] in
  FS.lookup f fs = Some (File x) ->
  let target_dir := output_dir ++ rel in
  let out_file := target_dir ++ [(c ++ ".parquet")%string] in
  let part_dir := target_dir ++ [c] in
  let run := convert_one input_dir output_dir f fs in
  let ext := str_lower ("." ++ e) in
  let chunked :=
    String.eqb ext ".csv" && (50 * 1024 * 1024 <? f_size x)%N in
  (FS.makedirs target_dir fs = None -> exists e', run = (Raise e', fs, []))
  /\ (forall fs1, FS.makedirs target_dir fs = Some fs1 ->
        (exists rest, effects run = EvMakedirs target_dir :: rest)
        /\ (forall k, FS.is_dir (firstn k target_dir) fs1 = true)
        /\ ensure_dir target_dir fs1 = (Ok tt, fs1, [EvMakedirs target_dir])
        /\ (forall df es,
              chunked = false -> decoded ext x = Some df -> arrow_ok df = true ->
              FS.lookup target_dir fs1 = Some (Dir es) ->
              slot_free (c ++ ".parquet") es ->
              result run = Ok (f, [out_file], None)
              /\ writes (effects run) = [(out_file, df)]
              /\ FS.lookup out_file (final_fs run) = Some (stored df))
        /\ (forall df,
              chunked = true -> decoded ext x = Some df ->
              let batches := read_chunks (N.to_nat 200000) df in
              FS.makedirs part_dir fs1 <> None ->
              (forall k, part_writable part_dir fs1 k) ->
              (forall b, In b batches -> arrow_ok b = true) ->
              (exists outs, result run = Ok (f, outs, None))
              /\ writes (effects run) = numbered part_dir batches 0
              /\ read_back part_dir (List.length batches) 0 (final_fs run)
                 = Some (rows df)))
  /\ (forall q b, In (q, b) (writes (effects run)) ->
        if chunked
        then exists k, q = part_dir ++ [part_name k]
        else q = out_file).
Proof.
  intros Hc He f Hf target_dir out_file part_dir run ext chunked.
  assert (Hrun : run = (ensure_dir target_dir ;; attempt f target_dir c ext) fs).
  { unfold run, f. rewrite convert_one_under.
    change (c ++ "." ++ e)%string with (c ++ String "." e)%string.
    now rewrite (StrFacts.splitext_name c e Hc He). }
  rewrite Hrun. clear Hrun. split; [|split].
  - intros Hm. destruct (ensure_dir_cases target_dir fs) as [[fs1 [Hm' _]]|[e' [_ He']]].
    + congruence.
    + exists e'. now rewrite (bind_raise _ _ _ He').
  - intros fs1 Hm.
    assert (He1 : ensure_dir target_dir fs = (Ok tt, fs1, [EvMakedirs target_dir]))
      by (unfold ensure_dir; now rewrite Hm).
    pose proof (makedirs_keeps_file Hm Hf) as Hf1.
    split; [|split; [|split; [|split]]].
    + rewrite (bind_ok _ _ _ He1). cbn [effects snd]. eexists. reflexivity.
    + now apply (FSFacts.is_dir_prefix_makedirs _ _ _ Hm).
    + unfold ensure_dir. now rewrite (FSFacts.makedirs_idem _ _ _ Hm).
    + intros df es Hch Hdec Ha Ho Hfree.
      rewrite (bind_ok _ _ _ He1).
      rewrite (attempt_ok _ _ _ _ _ _ _ _
                 (dispatch_single ext f target_dir c fs1 x df es
                    Hf1 Hch Hdec Ha Ho Hfree)).
      cbn [result final_fs effects fst snd app writes]. repeat split.
      exact (lookup_stored target_dir _ _ fs1 es Ho).
    + intros df Hch Hdec batches Hmk Hfree Ha.
      unfold chunked in Hch. apply andb_true_iff in Hch. destruct Hch as [Hext Hsz].
      apply N.ltb_lt in Hsz.
      unfold decoded in Hdec. rewrite Hext in Hdec.
      destruct (f_data x) as [d| | | |] eqn:Hd; try discriminate.
      destruct (columns d) as [|c0 cs0] eqn:Hcol; [discriminate|].
      injection Hdec as ->.
      assert (Hcols : columns df <> []) by now rewrite Hcol.
      destruct (process_csv_big f target_dir c default_chunk_size fs1 x df
                  Hf1 Hd Hcols Hsz ltac:(discriminate))
        as [[e' [Hm' _]]|[fs2 [Hm2 Hr]]]; [contradiction|].
      fold part_dir in Hm2, Hr.
      change (read_chunks (N.to_nat default_chunk_size) df) with batches in Hr.
      destruct (chunked_tail_ok part_dir batches fs1 fs2 Hm2 Hfree Ha)
        as [outs [fs' [Ht Hback]]].
      rewrite Ht in Hr. cbn [result final_fs effects fst snd] in Hr.
      assert (Hdisp : dispatch ext f target_dir c fs1
                      = (Ok outs, fs',
                         EvMakedirs part_dir :: map ev_write (numbered part_dir batches 0))).
      { unfold dispatch. now rewrite Hext. }
      rewrite (bind_ok _ _ _ He1), (attempt_ok _ _ _ _ _ _ _ _ Hdisp).
      cbn [result final_fs effects fst snd]. split; [now exists outs|]. split.
      * change (writes (map ev_write (numbered part_dir batches 0)
                        ++ [EvPrint (MsgConverted f (List.length outs))])
                = numbered part_dir batches 0).
        rewrite writes_app, writes_ev_write. apply app_nil_r.
      * rewrite Hback. f_equal. apply read_chunks_concat.
  - intros q b.
    destruct (ensure_dir_cases target_dir fs) as [[fs1 [Hm He1]]|[e' [_ He']]].
    + rewrite (bind_ok _ _ _ He1). cbn [effects snd]. rewrite writes_app.
      destruct (attempt_cases f target_dir c ext fs1) as [o [fs' [l [Ha [_ [Hw _]]]]]].
      rewrite Ha. cbn [effects snd writes app]. rewrite Hw. clear Ha Hw.
      pose proof (makedirs_keeps_file Hm Hf) as Hf1.
      unfold chunked, dispatch, out_file, part_dir.
      destruct (String.eqb ext ".csv").
      * intros Hin. apply (process_csv_writes _ _ _ _ _ _ Hf1) in Hin.
        cbn [andb]. change (50 * 1024 * 1024)%N with threshold.
        destruct (threshold <? f_size x)%N; [|exact Hin].
        destruct Hin as [k ->]. exists k. now rewrite <- app_assoc.
      * cbn [andb]. destruct (Str.mem ext _); [apply process_excel_writes|].
        destruct (String.eqb ext ".dta"); [apply process_dta_writes|].
        simpl. tauto.
    + rewrite (bind_raise _ _ _ He'). simpl. tauto.
Qed.

End Claims_layout.

Lemma mirrored_layout_witness :
  Str.all_dots "x" = false /\ Str.rsplit_dot "csv" = None
  /\ FS.lookup (["in"] ++ ["data"] ++ ["x.csv"]) demo_fs
     = Some (File (csv_file kib demo_frame))
  /\ writes (effects (@convert_one demo_platform ["in"] ["out"]
                        ["in"; "data"; "x.csv"] demo_fs))
     = [(["out"; "data"; "x.parquet"], demo_frame)]
  /\ writes (effects (@convert_one demo_platform ["in"] ["out"]
                        ["in"; "data"; "big.csv"] demo_fs))
     = [(["out"; "data"; "big"; "part-00000.parquet"], demo_frame)].
Proof.
  split; [reflexivity|]. split; [reflexivity|]. split; [reflexivity|].
  split.
  - destruct (@mirrored_layout demo_platform ["in"] ["out"] ["data"] "x" "csv"
                demo_fs (csv_file kib demo_frame) eq_refl eq_refl eq_refl)
      as [_ [Hmade _]].
    edestruct Hmade as [_ [_ [_ [Hsmall _]]]]; [reflexivity|].
    edestruct (Hsmall demo_frame) as [_ [Hw _]];
      [reflexivity|reflexivity|reflexivity|reflexivity|exact I|].
    exact Hw.
  - destruct (@mirrored_layout demo_platform ["in"] ["out"] ["data"] "big" "csv"
                demo_fs (csv_file (60 * mib) demo_frame) eq_refl eq_refl eq_refl)
      as [_ [Hmade _]].
    edestruct Hmade as [_ [_ [_ [_ Hbig]]]]; [reflexivity|].
    edestruct (Hbig demo_frame) as [_ [Hw _]];
      [reflexivity|reflexivity|discriminate|exact (fun k => I)
      |exact (fun b _ => eq_refl)|].
    exact Hw.
Defined.

(** ** The batch *)

Lemma failed_removals_app l1 l2 :
  failed_removals (l1 ++ l2) = failed_removals l1 ++ failed_removals l2.
Proof.
  induction l1 as [|e l1 IH]; simpl; auto.
  destruct e as [| | |p [|]| |]; simpl; congruence.
Qed.

Lemma reported_failures_app l1 l2 :
  reported_failures (l1 ++ l2) = reported_failures l1 ++ reported_failures l2.
Proof.
  induction l1 as [|e l1 IH]; simpl; auto.
  destruct e as [| | | | |m]; simpl; try congruence.
  destruct m; simpl; congruence.
Qed.

Lemma bind_inv_ok {A B} (m : M A) (k : A -> M B) fs b fs' l :
  bind m k fs = (Ok b, fs', l) ->
  exists a fs1 l1 l2,
    m fs = (Ok a, fs1, l1) /\ k a fs1 = (Ok b, fs', l2) /\ l = l1 ++ l2.
Proof.
  unfold bind. destruct (m fs) as [[[a|e] fs1] l1]; [|discriminate].
  destruct (k a fs1) as [[r fs2] l2] eqn:Ek. intros [= -> -> <-].
  exists a, fs1, l1, l2. repeat split. exact Ek.
Qed.

Section Batch.

Context `{Platform}.

Lemma main_chosen args env input_dir fs :
  chosen args env = Some input_dir ->
  main args env fs = run args env input_dir fs.
Proof.
  unfold chosen, main, choose_directory_dialog.
  destruct (a_input args) as [p|].
  - intros [= ->]. unfold bind, ret.
    destruct (run args env input_dir fs) as [[r fs'] l]. reflexivity.
  - destruct (e_dialog env) as [[p|]|]; try discriminate. intros [= ->].
    unfold bind, ret.
    destruct (run args env input_dir fs) as [[r fs'] l]. reflexivity.
Qed.

Lemma find_files_run root es fs :
  exists files, find_files root es fs = (Ok files, fs, [EvWalk root]).
Proof. unfold find_files, bind, os_walk, ret. eexists. reflexivity. Qed.

(** No file name in the walk has one of the extensions: nothing is found. *)
Lemma find_files_none root es fs :
  (forall dirpath dirnames filenames f,
     In (dirpath, dirnames, filenames) (walked root fs) ->
     In f filenames -> has_ext es f = false) ->
  find_files root es fs = (Ok [], fs, [EvWalk root]).
Proof.
  intros Hnone. unfold find_files, bind, os_walk, ret. cbn [app].
  do 2 f_equal. f_equal.
  induction (walked root fs) as [|[[dirpath dirnames] filenames] ts IH]; auto.
  cbn [flat_map]. rewrite IH.
  - rewrite app_nil_r.
    assert (Hf : forall f, In f filenames -> has_ext es f = false)
      by (intros f Hf; apply (Hnone dirpath dirnames filenames); simpl; auto).
    clear - Hf. induction filenames as [|f fl IHf]; auto.
    cbn [flat_map]. rewrite (Hf f) by (simpl; auto).
    apply IHf. intros g Hg. apply Hf. simpl; auto.
  - intros d dn fl f Hin. apply (Hnone d dn fl f). simpl; auto.
Qed.

(** A loop that returns has appended one outcome for each file, in order. *)
Lemma convert_all_ok input_dir output_dir files : forall acc fs summary fs' l,
  convert_all input_dir output_dir files acc fs = (Ok summary, fs', l) ->
  map o_input summary = map o_input acc ++ files.
Proof.
  induction files as [|f files IH]; intros acc fs summary fs' l Hr.
  - cbn [convert_all] in Hr. unfold ret in Hr. injection Hr as <- _ _.
    now rewrite app_nil_r.
  - cbn [convert_all] in Hr. apply bind_inv_ok in Hr.
    destruct Hr as [o [fs1 [l1 [l2 [Ho [Hrest _]]]]]].
    apply IH in Hrest. rewrite Hrest, map_app, <- app_assoc. cbn [map app].
    destruct (convert_one_cases input_dir output_dir f fs)
      as [[e [_ He]]|[fs0 [o' [fs'' [l' [_ [Ho' [Hin _]]]]]]]]; [congruence|].
    rewrite Ho in Ho'. injection Ho' as -> _ _. now rewrite Hin.
Qed.

Lemma no_exit_os_remove p : no_exit (os_remove p).
Proof.
  intros fs e fs' l. unfold os_remove.
  destruct (FS.lookup p fs) as [[f|es]|]; try (now intros [= <- _ _]).
  destruct (f_protected f); [now intros [= <- _ _]|].
  destruct (FS.unsnoc p) as [[d name]|]; [discriminate|now intros [= <- _ _]].
Qed.

(** One pass of the deletion loop: the removal is tried; a failure is
    caught and reported, and the pass returns. *)
Lemma delete_step p fs :
  exists fs' l,
    try_except (os_remove p)
      (fun e => print (MsgDeleteFailed p (describe e))) fs = (Ok tt, fs', l)
    /\ removals l = [p]
    /\ failed_removals l = reported_failures l.
Proof.
  unfold try_except.
  destruct (os_remove p fs) as [[[[]|e] fs1] l1] eqn:Er.
  - exists fs1, l1. split; [reflexivity|].
    revert Er. unfold os_remove.
    destruct (FS.lookup p fs) as [[f|es]|]; try discriminate.
    destruct (f_protected f); [discriminate|].
    destruct (FS.unsnoc p) as [[d name]|]; [|discriminate].
    intros [= _ <-]. split; reflexivity.
  - rewrite (no_exit_os_remove _ _ _ _ _ Er). unfold print, emit.
    exists fs1, (l1 ++ [EvPrint (MsgDeleteFailed p (describe e))]).
    split; [reflexivity|].
    assert (Hl : l1 = [EvRemove p false]).
    { revert Er. unfold os_remove.
      destruct (FS.lookup p fs) as [[f|es]|]; try (now intros [= _ _ <-]).
      destruct (f_protected f); [now intros [= _ _ <-]|].
      destruct (FS.unsnoc p) as [[d name]|]; [discriminate|now intros [= _ _ <-]]. }
    subst l1. split; reflexivity.
Qed.

(** The deletion loop calls [os.remove] on the input of every outcome, in
    order, reports every failure, and returns. *)
Lemma delete_originals_run summary : forall fs,
  exists fs' l,
    delete_originals summary fs = (Ok tt, fs', l)
    /\ removals l = map o_input summary
    /\ failed_removals l = reported_failures l
    /\ writes l = [].
Proof.
  induction summary as [|o summary IH]; intros fs.
  - exists fs, []. repeat split.
  - cbn [delete_originals].
    destruct (delete_step (o_input o) fs) as [fs1 [l1 [Hs [Hr Hf]]]].
    rewrite (bind_ok _ _ _ Hs).
    destruct (IH fs1) as [fs' [l [Hd [Hr' [Hf' Hw']]]]]. rewrite Hd.
    cbn [result final_fs effects fst snd]. exists fs', (l1 ++ l).
    split; [reflexivity|]. split; [|split].
    + rewrite removals_app, Hr, Hr'. reflexivity.
    + rewrite failed_removals_app, reported_failures_app, Hf, Hf'. reflexivity.
    + rewrite writes_app, Hw', app_nil_r.
      clear - Hs. unfold try_except in Hs.
      destruct (os_remove (o_input o) fs) as [[[[]|e] fs2] l2] eqn:Er.
      * injection Hs as _ <-. revert Er. unfold os_remove.
        destruct (FS.lookup _ fs) as [[f|es]|]; try discriminate.
        destruct (f_protected f); [discriminate|].
        destruct (FS.unsnoc _) as [[d name]|]; [|discriminate].
        now intros [= _ <-].
      * destruct (is_exception e); [|discriminate].
        unfold print, emit in Hs. injection Hs as _ <-.
        rewrite writes_app. simpl. rewrite app_nil_r. revert Er. unfold os_remove.
        destruct (FS.lookup _ fs) as [[f|es]|]; try (now intros [= _ _ <-]).
        destruct (f_protected f); [now intros [= _ _ <-]|].
        destruct (FS.unsnoc _) as [[d name]|]; [discriminate|now intros [= _ _ <-]].
Qed.

Lemma confirmation_run args env fs :
  exists r l, confirmation args env fs = (r, fs, l) /\ writes l = []
              /\ removals l = [] /\ printed l = [].
Proof.
  unfold confirmation, input. destruct (a_delete args).
  - exists (Ok "y"), []. repeat split.
  - destruct (e_stdin env) as [line|].
    + eexists. exists [EvInput]. repeat split.
    + exists (Raise EOFError), []. repeat split.
Qed.

Lemma count_split (summary : list outcome) :
  count_succ summary + count_fail summary = List.length summary.
Proof.
  unfold count_succ, count_fail.
  induction summary as [|o summary IH]; simpl; auto.
  destruct (succeeded o); simpl; lia.
Qed.

End Batch.

(** ** Where the loop can stop *)

Lemma bind_inv_raise {A B} (m : M A) (k : A -> M B) fs e fs' l :
  bind m k fs = (Raise e, fs', l) ->
  m fs = (Raise e, fs', l)
  \/ exists a fs1 l1 l2,
       m fs = (Ok a, fs1, l1) /\ k a fs1 = (Raise e, fs', l2) /\ l = l1 ++ l2.
Proof.
  unfold bind. destruct (m fs) as [[[a|e1] fs1] l1]; [|intros [= -> -> ->]; now left].
  destruct (k a fs1) as [[r fs2] l2] eqn:Ek. intros [= -> -> <-].
  right. exists a, fs1, l1, l2. repeat split. exact Ek.
Qed.

Section LoopStops.

Context `{Platform}.

Lemma ensure_dir_raises p fs e fs' l :
  ensure_dir p fs = (Raise e, fs', l) ->
  FS.makedirs p fs = None /\ fs' = fs /\ l = []
  /\ (e = FileExistsError p \/ e = NotADirectoryError (FS.below_file p fs)).
Proof.
  unfold ensure_dir. destruct (FS.makedirs p fs); [discriminate|].
  destruct (FS.lookup p fs); intros [= <- <- <-]; auto.
Qed.

(** The loop body raises only when the target directory of its file cannot
    be made. *)
Lemma convert_one_raises input_dir output_dir f fs e fs' l :
  convert_one input_dir output_dir f fs = (Raise e, fs', l) ->
  let target_dir := join output_dir (relpath (dirname f) input_dir) in
  FS.makedirs target_dir fs = None /\ fs' = fs /\ l = []
  /\ (e = FileExistsError target_dir
      \/ e = NotADirectoryError (FS.below_file target_dir fs)).
Proof.
  intros Hr target_dir. unfold convert_one in Hr. fold target_dir in Hr.
  apply bind_inv_raise in Hr. destruct Hr as [Hr|[[] [fs1 [l1 [l2 [_ [Ha _]]]]]]].
  - now apply ensure_dir_raises.
  - destruct (attempt_cases f target_dir (fst (Str.splitext (basename f)))
                (str_lower (snd (Str.splitext (basename f)))) fs1)
      as [o [fs2 [l3 [Ha' _]]]].
    congruence.
Qed.

(** The loop stops before the end of the list only at a file whose target
    directory cannot be made, with the exception of [os.makedirs]; every
    error raised inside the [try] is turned into an outcome. *)
Lemma convert_all_raises input_dir output_dir files : forall acc fs e fs' l,
  convert_all input_dir output_dir files acc fs = (Raise e, fs', l) ->
  exists f,
    In f files
    /\ let target_dir := join output_dir (relpath (dirname f) input_dir) in
       FS.makedirs target_dir fs' = None
       /\ (e = FileExistsError target_dir
           \/ e = NotADirectoryError (FS.below_file target_dir fs')).
Proof.
  induction files as [|f files IH]; intros acc fs e fs' l Hr.
  - discriminate.
  - cbn [convert_all] in Hr. apply bind_inv_raise in Hr.
    destruct Hr as [Hr|[o [fs1 [l1 [l2 [_ [Hrest _]]]]]]].
    + apply convert_one_raises in Hr. destruct Hr as [Hm [-> [_ He]]].
      exists f. split; [now left|]. split; assumption.
    + destruct (IH _ _ _ _ _ Hrest) as [g [Hg Hprops]].
      exists g. split; [now right|exact Hprops].
Qed.

End LoopStops.

(** ** What the conversion loop logs *)

Lemma emits_read_only {A} P (m : M A) : read_only m -> emits P m.
Proof. intros Hm fs. destruct (Hm fs) as [r ->]. constructor. Qed.

Lemma emits_ret {A} P (a : A) : emits P (ret a).
Proof. intros fs. constructor. Qed.

Lemma emits_raise {A} P e : emits P (@raise A e).
Proof. intros fs. constructor. Qed.

Lemma emits_emit (P : event -> Prop) ev : P ev -> emits P (emit ev).
Proof. intros Hev fs. repeat constructor. exact Hev. Qed.

Lemma emits_bind {A B} P (m : M A) (k : A -> M B) :
  emits P m -> (forall a, emits P (k a)) -> emits P (bind m k).
Proof.
  intros Hm Hk fs. specialize (Hm fs). unfold bind.
  destruct (m fs) as [[[a|e] fs1] l1]; cbn [effects snd] in *; auto.
  specialize (Hk a fs1). destruct (k a fs1) as [[r fs2] l2].
  cbn [effects snd] in *. apply Forall_app. auto.
Qed.

Lemma emits_try_except {A} P (m : M A) (h : exn -> M A) :
  emits P m -> (forall e, emits P (h e)) -> emits P (try_except m h).
Proof.
  intros Hm Hh fs. specialize (Hm fs). unfold try_except.
  destruct (m fs) as [[[a|e] fs1] l1]; cbn [effects snd] in *; auto.
  destruct (is_exception e); cbn [effects snd]; auto.
  specialize (Hh e fs1). destruct (h e fs1) as [[r fs2] l2].
  cbn [effects snd] in *. apply Forall_app. auto.
Qed.

#[export] Hint Resolve emits_ret emits_raise emits_bind emits_try_except
  : effects_db.

Lemma removals_conversion l : Forall conversion_event l -> removals l = [].
Proof.
  induction 1 as [|e l He _ IH]; auto.
  destruct e; simpl in *; auto; contradiction.
Qed.

Lemma failed_removals_conversion l :
  Forall conversion_event l -> failed_removals l = [].
Proof.
  induction 1 as [|e l He _ IH]; auto.
  destruct e; simpl in *; auto; contradiction.
Qed.

Lemma reported_failures_conversion l :
  Forall conversion_event l -> reported_failures l = [].
Proof.
  induction 1 as [|e l He _ IH]; auto.
  destruct e as [| | | | |m]; simpl in *; auto.
  destruct m; simpl in *; auto; contradiction.
Qed.

Section ConversionLog.

Context `{Platform}.

Lemma emits_ensure_dir p : emits conversion_event (ensure_dir p).
Proof.
  intros fs.
  destruct (ensure_dir_cases p fs) as [[fs1 [_ ->]]|[e [_ ->]]];
    repeat constructor.
Qed.

Lemma emits_write df p : emits conversion_event (write_df_to_parquet df p).
Proof.
  intros fs.
  destruct (write_cases df p fs) as [[fs1 ->]|[e ->]]; repeat constructor.
Qed.

#[local] Hint Resolve emits_ensure_dir emits_write : effects_db.
#[local] Hint Extern 2 (emits _ _) =>
  apply emits_read_only; auto with effects_db : effects_db.

Lemma emits_write_parts d chunks : forall part,
  emits conversion_event (write_parts d chunks part).
Proof.
  induction chunks as [|c cs IH]; intros part; cbn [write_parts];
    auto with effects_db.
Qed.

Lemma emits_process_csv p out_dir name cs :
  emits conversion_event (process_csv p out_dir name cs).
Proof.
  unfold process_csv, read_csv.
  apply emits_bind; [apply emits_read_only, read_only_getsize|].
  intros sz. destruct (threshold <? sz)%N.
  - apply emits_bind; [apply emits_ensure_dir|]. intros _.
    apply emits_bind; [apply emits_read_only, read_only_read_csv_chunked|].
    intros chunks. apply emits_bind; [apply emits_write_parts|]. intros _.
    apply emits_read_only. apply read_only_bind; auto with effects_db.
    apply read_only_listdir.
  - apply emits_bind; [apply emits_read_only, read_only_parse_csv|].
    intros df. apply emits_bind; [apply emits_write|]. intros _.
    apply emits_ret.
Qed.

Lemma emits_process_excel p out_dir name :
  emits conversion_event (process_excel p out_dir name).
Proof.
  unfold process_excel.
  apply emits_bind; [apply emits_read_only, read_only_read_excel|].
  intros df. apply emits_bind; [apply emits_write|]. intros _. apply emits_ret.
Qed.

Lemma emits_process_dta p out_dir name :
  emits conversion_event (process_dta p out_dir name).
Proof.
  unfold process_dta.
  apply emits_bind; [apply emits_read_only, read_only_read_stata|].
  intros df. apply emits_bind; [apply emits_write|]. intros _. apply emits_ret.
Qed.

Lemma emits_dispatch ext f target_dir name :
  emits conversion_event (dispatch ext f target_dir name).
Proof.
  unfold dispatch.
  destruct (String.eqb ext ".csv"); [apply emits_process_csv|].
  destruct (Str.mem ext _); [apply emits_process_excel|].
  destruct (String.eqb ext ".dta"); [apply emits_process_dta|].
  apply emits_ret.
Qed.

Lemma emits_convert_one input_dir output_dir f :
  emits conversion_event (convert_one input_dir output_dir f).
Proof.
  unfold convert_one, attempt, print.
  apply emits_bind; [apply emits_ensure_dir|]. intros _.
  apply emits_try_except.
  - apply emits_bind; [apply emits_dispatch|]. intros outs.
    apply emits_bind; [apply emits_emit; exact I|]. intros _. apply emits_ret.
  - intros e. apply emits_bind; [apply emits_emit; exact I|]. intros _.
    apply emits_ret.
Qed.

(** The conversion loop removes nothing and prints only its two per-file
    lines. *)
Lemma emits_convert_all input_dir output_dir files : forall acc,
  emits conversion_event (convert_all input_dir output_dir files acc).
Proof.
  induction files as [|f files IH]; intros acc; cbn [convert_all].
  - apply emits_ret.
  - apply emits_bind; [apply emits_convert_one|]. intros o. apply IH.
Qed.

End ConversionLog.

(** ** After the conversions *)

Section Finish.

Context `{Platform}.

Lemma finish_run args env summary output_dir fs2 c :
  result (confirmation args env fs2) = Ok c ->
  exists fs3 l,
    finish args env summary output_dir fs2
    = (Ok tt, fs3, l ++ summary_lines summary output_dir)
    /\ writes l = []
    /\ (c = "y" ->
        removals l = map o_input summary
        /\ failed_removals l = reported_failures l
        /\ exists l', l = l' ++ [EvPrint MsgDeleteDone])
    /\ (c <> "y" -> removals l = [] /\ fs3 = fs2).
Proof.
  intros Hc. unfold finish.
  destruct (confirmation_run args env fs2) as [r [l4 [Hconf [Hw4 [Hr4 Hp4]]]]].
  rewrite Hconf in Hc. cbn [result fst] in Hc. subst r.
  unfold bind. rewrite Hconf.
  destruct (String.eqb_spec c "y") as [->|Hne].
  - destruct (delete_originals_run summary fs2) as [fs3 [l5 [Hdel [Hr5 [Hf5 Hw5]]]]].
    rewrite Hdel. unfold print_summary, print, emit, bind. cbv beta iota.
    exists fs3, (l4 ++ l5 ++ [EvPrint MsgDeleteDone]).
    split; [|split; [|split]].
    + unfold summary_lines. now rewrite <- !app_assoc.
    + rewrite !writes_app, Hw4, Hw5. reflexivity.
    + intros _. split; [|split].
      * rewrite !removals_app, Hr4, Hr5. simpl. now rewrite app_nil_r.
      * rewrite !failed_removals_app, !reported_failures_app, Hf5.
        f_equal.
        clear - Hr4 Hp4. induction l4 as [|e l4 IH]; auto.
        destruct e as [| | |p ok| |m]; simpl in *; try discriminate; auto.
      * exists (l4 ++ l5). now rewrite app_assoc.
    + intros Hne. contradiction.
  - unfold print_summary, print, emit, bind. cbv beta iota.
    exists fs2, (l4 ++ [EvPrint MsgKept]).
    split; [|split; [|split]].
    + unfold summary_lines. now rewrite <- !app_assoc.
    + rewrite writes_app, Hw4. reflexivity.
    + intros Hy. contradiction.
    + intros _. split; [|reflexivity]. rewrite removals_app, Hr4. reflexivity.
Qed.

Lemma batch_converted args env input_dir output_dir fs files summary fs2 l3 :
  result (find_files input_dir exts fs) = Ok files -> files <> [] ->
  convert_all input_dir output_dir files [] fs = (Ok summary, fs2, l3) ->
  batch args env input_dir output_dir fs
  = (result (finish args env summary output_dir fs2),
     final_fs (finish args env summary output_dir fs2),
     EvWalk input_dir :: l3 ++ effects (finish args env summary output_dir fs2)).
Proof.
  intros Hfiles Hne Hconv. unfold batch.
  destruct (find_files_run input_dir exts fs) as [files' Hff].
  rewrite Hff in Hfiles. cbn [result fst] in Hfiles. injection Hfiles as ->.
  rewrite (bind_ok _ _ _ Hff).
  destruct files as [|f files]; [contradiction|].
  rewrite (bind_ok _ _ _ Hconv). cbn [result final_fs effects fst snd app].
  reflexivity.
Qed.

(** A run whose conversion loop returns and whose confirmation is read
    goes on to the end. *)
Lemma run_completed args env input_dir fs fs1 files summary fs2 l3 c :
  let output_dir := output_of args input_dir in
  FS.makedirs output_dir fs = Some fs1 ->
  result (find_files input_dir exts fs1) = Ok files -> files <> [] ->
  convert_all input_dir output_dir files [] fs1 = (Ok summary, fs2, l3) ->
  result (confirmation args env fs2) = Ok c ->
  exists fs3 l,
    run args env input_dir fs
    = (Ok tt, fs3,
       EvMakedirs output_dir :: EvWalk input_dir
       :: l3 ++ l ++ summary_lines summary output_dir)
    /\ writes l = []
    /\ (c = "y" ->
        removals l = map o_input summary
        /\ failed_removals l = reported_failures l
        /\ exists l', l = l' ++ [EvPrint MsgDeleteDone])
    /\ (c <> "y" -> removals l = [] /\ fs3 = fs2).
Proof.
  intros output_dir Hm Hfiles Hne Hconv Hc. unfold run. fold output_dir.
  assert (He : ensure_dir output_dir fs = (Ok tt, fs1, [EvMakedirs output_dir]))
    by (unfold ensure_dir; now rewrite Hm).
  rewrite (bind_ok _ _ _ He).
  rewrite (batch_converted args env input_dir output_dir fs1 files summary fs2 l3
             Hfiles Hne Hconv).
  destruct (finish_run args env summary output_dir fs2 c Hc)
    as [fs3 [l [Hfin Hprops]]].
  rewrite Hfin. cbn [result final_fs effects fst snd app].
  exists fs3, l. split; [reflexivity|exact Hprops].
Qed.

End Finish.

(** ** Deletion, summary, start-up *)

Section Claims_batch.

Context `{Platform}.

(** C6.  In a run that reaches the confirmation and is answered [y],
    [os.remove] is called on every discovered file, in discovery order and
    on nothing else, whatever the outcome recorded for the file; every
    call that fails is reported on its own line, and the run goes on to
    the end and prints the summary. *)
Theorem deletion_attempts_every_file
  (args : Args) (env : Env) (input_dir : path) (fs fs1 : node)
  (files : list path) (summary : list outcome) (fs2 : node) (l3 : list event) :
  chosen args env = Some input_dir ->
  let output_dir := output_of args input_dir in
  FS.makedirs output_dir fs = Some fs1 ->
  result (find_files input_dir exts fs1) = Ok files -> files <> [] ->
  convert_all input_dir output_dir files [] fs1 = (Ok summary, fs2, l3) ->
  result (confirmation args env fs2) = Ok "y" ->
  let r := main args env fs in
  result r = Ok tt
  /\ map o_input summary = files
  /\ removals (effects r) = files
  /\ failed_removals (effects r) = reported_failures (effects r)
  /\ exists l, effects r = l ++ EvPrint MsgDeleteDone :: summary_lines summary output_dir.
Proof.
  intros Hch output_dir Hm Hfiles Hne Hconv Hc r. unfold r.
  rewrite (main_chosen args env input_dir fs Hch).
  destruct (run_completed args env input_dir fs fs1 files summary fs2 l3 "y"
              Hm Hfiles Hne Hconv Hc) as [fs3 [l [Hrun [_ [Hy _]]]]].
  fold output_dir in Hrun. rewrite Hrun. cbn [result effects fst snd].
  destruct (Hy eq_refl) as [Hr [Hf [l' Hl']]].
  pose proof (convert_all_ok _ _ _ _ _ _ _ _ Hconv) as Hsum. cbn [map app] in Hsum.
  pose proof (emits_convert_all input_dir output_dir files [] fs1) as Hev.
  rewrite Hconv in Hev. cbn [effects snd] in Hev.
  split; [reflexivity|]. split; [exact Hsum|]. split; [|split].
  - cbn [removals]. rewrite !removals_app, (removals_conversion _ Hev), Hr, Hsum.
    cbn [app summary_lines removals]. now rewrite app_nil_r.
  - cbn [failed_removals reported_failures].
    rewrite !failed_removals_app, !reported_failures_app.
    rewrite (failed_removals_conversion _ Hev), (reported_failures_conversion _ Hev), Hf.
    reflexivity.
  - exists (EvMakedirs output_dir :: EvWalk input_dir :: l3 ++ l').
    rewrite Hl'. simpl. rewrite <- !app_assoc. reflexivity.
Qed.

(** C8.  In a run that reaches the summary, the last two lines printed are
    the header and the line with the number of outcomes without an error,
    the number of outcomes with one, and the output directory; the two
    numbers add up to the number of discovered files. *)
Theorem summary_counts
  (args : Args) (env : Env) (input_dir : path) (fs fs1 : node)
  (files : list path) (summary : list outcome) (fs2 : node) (l3 : list event)
  (c : string) :
  chosen args env = Some input_dir ->
  let output_dir := output_of args input_dir in
  FS.makedirs output_dir fs = Some fs1 ->
  result (find_files input_dir exts fs1) = Ok files -> files <> [] ->
  convert_all input_dir output_dir files [] fs1 = (Ok summary, fs2, l3) ->
  result (confirmation args env fs2) = Ok c ->
  let r := main args env fs in
  let succ :=
    List.length (filter (fun o => match o_error o with None => true | Some _ => false end)
                   summary) in
  let fail :=
    List.length (filter (fun o => match o_error o with None => false | Some _ => true end)
                   summary) in
  result r = Ok tt
  /\ (exists l, effects r
                = l ++ [EvPrint MsgSummaryHeader;
                        EvPrint (MsgSummary succ fail output_dir)])
  /\ succ + fail = List.length files.
Proof.
  intros Hch output_dir Hm Hfiles Hne Hconv Hc r succ fail. unfold r.
  rewrite (main_chosen args env input_dir fs Hch).
  destruct (run_completed args env input_dir fs fs1 files summary fs2 l3 c
              Hm Hfiles Hne Hconv Hc) as [fs3 [l [Hrun _]]].
  fold output_dir in Hrun. rewrite Hrun. cbn [result effects fst snd].
  assert (Hs : succ = count_succ summary) by reflexivity.
  assert (Hf : fail = count_fail summary).
  { unfold fail, count_fail. f_equal. apply filter_ext. intros o.
    unfold succeeded. now destruct (o_error o). }
  split; [reflexivity|]. split.
  - exists (EvMakedirs output_dir :: EvWalk input_dir :: l3 ++ l).
    rewrite Hs, Hf. simpl. now rewrite <- !app_assoc.
  - rewrite Hs, Hf, count_split.
    pose proof (convert_all_ok _ _ _ _ _ _ _ _ Hconv) as Hsum.
    apply (f_equal (@List.length path)) in Hsum.
    now rewrite length_map in Hsum.
Qed.

(** C9.  When the output directory can be made and the walk of the input
    directory meets no file name whose lower-cased extension is one of
    [.csv], [.xlsx], [.xls], [.dta], [main] prints the no-files line and
    exits with status 0: nothing is written, removed or summarised, and
    the disk is as the making of the output directory left it. *)
Theorem no_files_clean_exit
  (args : Args) (env : Env) (input_dir : path) (fs fs1 : node) :
  chosen args env = Some input_dir ->
  let output_dir := output_of args input_dir in
  FS.makedirs output_dir fs = Some fs1 ->
  (forall dirpath dirnames filenames f,
     In (dirpath, dirnames, filenames) (walked input_dir fs1) ->
     In f filenames ->
     has_ext [".csv"; ".xlsx"; ".xls"; ".dta"] f = false) ->
  main args env fs
  = (Raise (SystemExit 0), fs1,
     [EvMakedirs output_dir; EvWalk input_dir; EvPrint MsgNoFiles]).
Proof.
  intros Hch output_dir Hm Hnone.
  rewrite (main_chosen args env input_dir fs Hch). unfold run. fold output_dir.
  assert (He : ensure_dir output_dir fs = (Ok tt, fs1, [EvMakedirs output_dir]))
    by (unfold ensure_dir; now rewrite Hm).
  rewrite (bind_ok _ _ _ He). unfold batch.
  rewrite (bind_ok _ _ _ (find_files_none input_dir exts fs1 Hnone)).
  reflexivity.
Qed.

(** C10.  In every run of [main] the making of the output directory, with
    its missing ancestors, comes before anything else that touches the
    disk.  A run without an input directory exits with status 1 and walks
    nothing.  Otherwise, if the output directory cannot be made the run
    stops there, with no walk; if it can, the rest of the run, which
    starts with the walk, runs on a disk where the output directory
    exists, and a run that finds no file exits with the directory in
    place. *)
Theorem output_root_created_first (args : Args) (env : Env) (fs : node) :
  let r := main args env fs in
  match chosen args env with
  | None =>
      result r = Raise (SystemExit 1) /\ final_fs r = fs
      /\ forall root, ~ In (EvWalk root) (effects r)
  | Some input_dir =>
      let output_dir := output_of args input_dir in
      (FS.makedirs output_dir fs = None -> exists e, r = (Raise e, fs, []))
      /\ (forall fs1, FS.makedirs output_dir fs = Some fs1 ->
            let rest := batch args env input_dir output_dir fs1 in
            (forall k, FS.is_dir (firstn k output_dir) fs1 = true)
            /\ r = (result rest, final_fs rest, EvMakedirs output_dir :: effects rest)
            /\ (exists l, effects rest = EvWalk input_dir :: l)
            /\ (result (find_files input_dir exts fs1) = Ok [] ->
                result r = Raise (SystemExit 0)
                /\ FS.is_dir output_dir (final_fs r) = true))
  end.
Proof.
  intros r. destruct (chosen args env) as [input_dir|] eqn:Hch.
  - intros output_dir. unfold r.
    rewrite (main_chosen args env input_dir fs Hch). unfold run. fold output_dir.
    split.
    + intros Hm.
      destruct (ensure_dir_cases output_dir fs) as [[fs1 [Hm' _]]|[e [_ He]]].
      * congruence.
      * exists e. now rewrite (bind_raise _ _ _ He).
    + intros fs1 Hm. cbv zeta.
      set (rest := batch args env input_dir output_dir fs1).
      assert (He : ensure_dir output_dir fs = (Ok tt, fs1, [EvMakedirs output_dir]))
        by (unfold ensure_dir; now rewrite Hm).
      rewrite (bind_ok _ _ _ He). fold rest.
      pose proof (FSFacts.is_dir_prefix_makedirs _ _ _ Hm) as Hdirs.
      split; [exact Hdirs|]. split; [reflexivity|].
      destruct (find_files_run input_dir exts fs1) as [files Hff].
      split.
      * unfold rest, batch. rewrite (bind_ok _ _ _ Hff). cbn [effects snd].
        eexists. reflexivity.
      * rewrite Hff. cbn [result fst]. intros [= ->].
        unfold rest, batch. rewrite (bind_ok _ _ _ Hff).
        cbn [result final_fs effects fst snd]. split; [reflexivity|].
        specialize (Hdirs (List.length output_dir)).
        now rewrite firstn_all in Hdirs.
  - unfold r, main, choose_directory_dialog. unfold chosen in Hch.
    destruct (a_input args) as [p|]; [discriminate|].
    destruct (e_dialog env) as [[p|]|]; [discriminate| |];
      (split; [reflexivity|]; split; [reflexivity|]);
      intros root; simpl; intros [Hin|[]]; discriminate.
Qed.

End Claims_batch.

Lemma deletion_attempts_every_file_witness :
  chosen demo_args demo_env = Some ["in"]
  /\ removals (effects (@main demo_platform demo_args demo_env batch_fs))
     = [["in"; "good.csv"]; ["in"; "bad.csv"]; ["in"; "sub"; "y.xlsx"]]
  /\ reported_failures (effects (@main demo_platform demo_args demo_env batch_fs))
     = [["in"; "bad.csv"]].
Proof.
  split; [reflexivity|].
  edestruct (@deletion_attempts_every_file demo_platform demo_args demo_env
               ["in"] batch_fs) as [_ [_ [Hrem [Hfail _]]]].
  - reflexivity.
  - reflexivity.
  - reflexivity.
  - discriminate.
  - reflexivity.
  - reflexivity.
  - split; [exact Hrem|]. rewrite <- Hfail. reflexivity.
Defined.

Lemma summary_counts_witness :
  chosen demo_args demo_env = Some ["in"]
  /\ exists l,
       effects (@main demo_platform demo_args demo_env batch_fs)
       = l ++ [EvPrint MsgSummaryHeader; EvPrint (MsgSummary 2 1 ["out"])].
Proof.
  split; [reflexivity|].
  edestruct (@summary_counts demo_platform demo_args demo_env
               ["in"] batch_fs) as [_ [Hsum _]].
  - reflexivity.
  - reflexivity.
  - reflexivity.
  - discriminate.
  - reflexivity.
  - reflexivity.
  - exact Hsum.
Defined.

Lemma no_files_clean_exit_witness :
  chosen demo_args demo_env = Some ["in"]
  /\ @main demo_platform demo_args demo_env notes_fs
     = (Raise (SystemExit 0),
        Dir [("in", Dir [("readme.txt", File (mk_file kib false Garbage));
                         (".csv", File (csv_file kib demo_frame))]);
             ("out", Dir [])],
        [EvMakedirs ["out"]; EvWalk ["in"]; EvPrint MsgNoFiles]).
Proof.
  split; [reflexivity|].
  apply (@no_files_clean_exit demo_platform demo_args demo_env ["in"] notes_fs).
  - reflexivity.
  - reflexivity.
  - intros dirpath dirnames filenames f [[= _ _ <-]|[]] [<-|[<-|[]]]; reflexivity.
Defined.

Lemma output_root_created_first_witness :
  chosen demo_args demo_env = Some ["in"]
  /\ FS.is_dir ["out"] (final_fs (@main demo_platform demo_args demo_env notes_fs))
     = true.
Proof.
  split; [reflexivity|].
  destruct (@output_root_created_first demo_platform demo_args demo_env notes_fs)
    as [_ Hmade].
  destruct (Hmade _ eq_refl) as [_ [_ [_ Hnone]]].
  exact (proj2 (Hnone eq_refl)).
Defined.

(** C5 fails on the code.  [/in/a.csv] is converted to the file
    [/out/a.parquet]; the target directory of [/in/a.parquet/x.csv] is
    [/out/a.parquet], and making it raises outside the [try]: the run
    stops with a [FileExistsError], no outcome is recorded for [x.csv],
    and neither the deletions nor the summary happen. *)
Theorem mkdir_failure_aborts_batch :
  let r := @main demo_platform demo_args demo_env clash_fs in
  result (@find_files demo_platform ["in"] exts clash_fs)
  = Ok [["in"; "a.csv"]; ["in"; "a.parquet"; "x.csv"]]
  /\ FS.lookup ["in"; "a.parquet"; "x.csv"] clash_fs
     = Some (File (csv_file kib demo_frame))
  /\ result r = Raise (FileExistsError ["out"; "a.parquet"])
  /\ printed (effects r) = [MsgConverted ["in"; "a.csv"] 1]
  /\ map fst (writes (effects r)) = [["out"; "a.parquet"]]
  /\ removals (effects r) = [].
Proof. vm_compute. repeat split. Qed.

(** C7 fails on the code.  With part files left in [/out/big/] by an
    earlier run, the conversion of [/in/big.csv] writes one part, and the
    outcome lists that part and the stale one. *)
Theorem stale_parts_are_listed :
  let r := @convert_one demo_platform ["in"] ["out"] ["in"; "big.csv"] stale_fs in
  result r
  = Ok (["in"; "big.csv"],
        [["out"; "big"; "part-00000.parquet"];
         ["out"; "big"; "part-00007.parquet"]],
        None)
  /\ map fst (writes (effects r)) = [["out"; "big"; "part-00000.parquet"]]
  /\ printed (effects r) = [MsgConverted ["in"; "big.csv"] 2].
Proof. vm_compute. repeat split. Qed.

(** A batch with one unreadable file among three: the two others succeed,
    the unreadable one is recorded with its error, and the files after it
    are still converted. *)
Example one_corrupt_file_among_three :
  printed (effects (@main demo_platform demo_args demo_env batch_fs))
  = [MsgConverted ["in"; "good.csv"] 1;
     MsgFailed ["in"; "bad.csv"] "Error reading /in/bad.csv";
     MsgConverted ["in"; "sub"; "y.xlsx"] 1;
     MsgDeleteFailed ["in"; "bad.csv"] "Permission denied: /in/bad.csv";
     MsgDeleteDone;
     MsgSummaryHeader;
     MsgSummary 2 1 ["out"]].
Proof. vm_compute. reflexivity. Qed.

(* ================================================================== *)
(** * Further properties *)

(** ** Extensions *)

Lemma is_dot_lower_char c : Str.is_dot (Str.lower_char c) = Str.is_dot c.
Proof. destruct c as [[] [] [] [] [] [] [] []]; reflexivity. Qed.

Lemma all_dots_lower s : Str.all_dots (Str.lower s) = Str.all_dots s.
Proof. induction s as [|c s IH]; simpl; [|rewrite is_dot_lower_char, IH]; reflexivity. Qed.

Lemma rsplit_dot_lower s :
  Str.rsplit_dot (Str.lower s)
  = match Str.rsplit_dot s with
    | Some (h, e) => Some (Str.lower h, Str.lower e)
    | None => None
    end.
Proof.
  induction s as [|c s IH]; simpl; auto.
  rewrite IH. destruct (Str.rsplit_dot s) as [[h e]|]; auto.
  rewrite is_dot_lower_char. destruct (Str.is_dot c); auto.
Qed.

Lemma splitext_lower s :
  Str.splitext (Str.lower s)
  = (Str.lower (fst (Str.splitext s)), Str.lower (snd (Str.splitext s))).
Proof.
  unfold Str.splitext. rewrite rsplit_dot_lower.
  destruct (Str.rsplit_dot s) as [[h e]|]; auto.
  rewrite all_dots_lower. destruct (Str.all_dots h); auto.
Qed.

Lemma is_ascii_rsplit_dot s : forall h e,
  Str.is_ascii s = true -> Str.rsplit_dot s = Some (h, e) ->
  Str.is_ascii h = true /\ Str.is_ascii e = true.
Proof.
  induction s as [|c s IH]; intros h e; simpl; [discriminate|].
  intros Hs. apply andb_true_iff in Hs. destruct Hs as [Hc Hs].
  destruct (Str.rsplit_dot s) as [[h' e']|] eqn:E.
  - intros [= <- <-]. destruct (IH h' e' Hs eq_refl) as [Hh He].
    simpl. now rewrite Hc, Hh.
  - destruct (Str.is_dot c); [|discriminate].
    intros [= <- <-]. simpl. now rewrite Hc, Hs.
Qed.

Lemma is_ascii_ext s :
  Str.is_ascii s = true -> Str.is_ascii (snd (Str.splitext s)) = true.
Proof.
  intros Hs. unfold Str.splitext.
  destruct (Str.rsplit_dot s) as [[h e]|] eqn:E; [|reflexivity].
  destruct (is_ascii_rsplit_dot s h e Hs E) as [_ He].
  now destruct (Str.all_dots h).
Qed.

Section Extensions.

Context `{Platform}.

(** On an ASCII name the extension is lower-cased letter by letter. *)
Lemma lower_ext_ascii f :
  Str.is_ascii f = true ->
  str_lower (snd (Str.splitext f)) = snd (Str.splitext (Str.lower f)).
Proof.
  intros Hf. rewrite (str_lower_ascii _ (is_ascii_ext f Hf)).
  now rewrite splitext_lower.
Qed.

(** X1.  On ASCII file names, matching an extension ignores the case of
    the letters: two ASCII names that are equal once their letters [A-Z]
    are lower-cased are both found by [find_files] or both skipped, for
    any list of extensions. *)
Theorem has_ext_ignores_case (es : list string) (f g : string) :
  Str.is_ascii f = true -> Str.is_ascii g = true ->
  Str.lower f = Str.lower g -> has_ext es f = has_ext es g.
Proof.
  intros Hf Hg Hfg. unfold has_ext.
  now rewrite (lower_ext_ascii f Hf), (lower_ext_ascii g Hg), Hfg.
Qed.

Lemma rsplit_dot_some s : forall h e,
  Str.rsplit_dot s = Some (h, e) ->
  (h ++ e)%string = s /\ exists e', e = String "." e' /\ Str.rsplit_dot e' = None.
Proof.
  induction s as [|c s IH]; intros h e; simpl; [discriminate|].
  destruct (Str.rsplit_dot s) as [[h' e0]|] eqn:E.
  - intros [= <- <-]. destruct (IH h' e0 eq_refl) as [Happ Hex].
    split; [simpl; now rewrite Happ|exact Hex].
  - unfold Str.is_dot. destruct (Ascii.eqb_spec c "."); [|discriminate].
    intros [= <- <-]. subst c. split; [reflexivity|]. now exists s.
Qed.

(** X2.  [os.path.splitext] cuts a name in two parts that put together
    give the name back; the extension is empty, or it is a dot followed by
    characters without a dot, and then the part before it is not made of
    dots only. *)
Theorem splitext_parts (p : string) :
  (fst (Str.splitext p) ++ snd (Str.splitext p))%string = p
  /\ (snd (Str.splitext p) = ""
      \/ (exists e', snd (Str.splitext p) = String "." e'
                     /\ Str.rsplit_dot e' = None)
         /\ Str.all_dots (fst (Str.splitext p)) = false).
Proof.
  unfold Str.splitext. destruct (Str.rsplit_dot p) as [[h e]|] eqn:E.
  - destruct (Str.all_dots h) eqn:Hd; cbn [fst snd].
    + split; [|now left]. clear. induction p; simpl; congruence.
    + destruct (rsplit_dot_some p h e E) as [Happ Hex]. auto.
  - cbn [fst snd]. split; [|now left]. clear. induction p; simpl; congruence.
Qed.

(** X3.  A name that is a run of dots followed by characters without a
    dot, such as [.csv] or [..dta], has no extension: [find_files] never
    picks such a file, whatever the extensions asked for (the empty
    extension apart). *)
Theorem dot_names_have_no_extension (es : list string) (d e : string) :
  Str.all_dots d = true -> Str.rsplit_dot e = None ->
  Str.mem "" es = false ->
  Str.splitext (d ++ e) = ((d ++ e)%string, "")
  /\ has_ext es (d ++ e) = false.
Proof.
  intros Hd He Hes.
  assert (Hs : Str.splitext (d ++ e) = ((d ++ e)%string, "")).
  { unfold Str.splitext.
    destruct (Str.rsplit_dot (d ++ e)) as [[h x]|] eqn:E; auto.
    assert (Hh : Str.all_dots h = true).
    { revert h x E. induction d as [|c d IH]; intros h x; simpl.
      - rewrite He. discriminate.
      - simpl in Hd. apply andb_true_iff in Hd. destruct Hd as [Hc Hd].
        destruct (Str.rsplit_dot (d ++ e)) as [[h' x']|] eqn:E'.
        + intros [= <- <-]. simpl. rewrite Hc. now apply (IH Hd h' x').
        + rewrite Hc. now intros [= <- <-]. }
    now rewrite Hh. }
  split; [exact Hs|]. unfold has_ext. rewrite Hs. cbn [snd].
  now rewrite (str_lower_ascii "" eq_refl).
Qed.

Lemma not_source_parquet c : has_ext exts (c ++ ".parquet") = false.
Proof.
  unfold has_ext, Str.splitext.
  change (c ++ ".parquet")%string with (c ++ String "." "parquet")%string.
  rewrite (StrFacts.rsplit_dot_ext c "parquet" eq_refl).
  destruct (Str.all_dots c); cbn [snd];
    rewrite str_lower_ascii by reflexivity; reflexivity.
Qed.

Lemma not_source_part k : has_ext exts (part_name k) = false.
Proof.
  unfold part_name. rewrite <- StrFacts.append_assoc. apply not_source_parquet.
Qed.

(** X4.  No file the conversions write is ever taken for an input: a name
    ending in [.parquet], and so the name of every output file and of
    every part file, has none of the four extensions. *)
Theorem outputs_are_not_inputs (c : string) (k : N) :
  has_ext exts (c ++ ".parquet") = false
  /\ has_ext exts (part_name k) = false.
Proof. split; [apply not_source_parquet|apply not_source_part]. Qed.

End Extensions.

Lemma has_ext_ignores_case_witness :
  Str.is_ascii "Report.CSV" = true /\ Str.is_ascii "report.csv" = true
  /\ Str.lower "Report.CSV" = Str.lower "report.csv"
  /\ @has_ext demo_platform exts "Report.CSV" = true
  /\ @has_ext demo_platform exts "report.csv" = true.
Proof.
  split; [reflexivity|]. split; [reflexivity|]. split; [reflexivity|].
  rewrite (@has_ext_ignores_case demo_platform exts "Report.CSV" "report.csv"
             eq_refl eq_refl eq_refl).
  split; reflexivity.
Defined.

Lemma dot_names_have_no_extension_witness :
  Str.all_dots "." = true /\ Str.rsplit_dot "csv" = None
  /\ @has_ext demo_platform exts ".csv" = false.
Proof.
  split; [reflexivity|]. split; [reflexivity|].
  exact (proj2 (@dot_names_have_no_extension demo_platform exts "." "csv"
                  eq_refl eq_refl eq_refl)).
Defined.

(** ** The walk *)

Lemma node_induction (P : node -> Prop) :
  (forall f, P (File f)) ->
  (forall es, Forall (fun e => P (snd e)) es -> P (Dir es)) ->
  forall n, P n.
Proof.
  intros HF HD. fix IH 1. intros [f|es]; [apply HF|]. apply HD.
  induction es as [|[k s] es IHes]; constructor; [apply IH|apply IHes].
Qed.

Lemma wf_dir es :
  wf_node (Dir es) <-> NoDup (map fst es) /\ Forall (fun e => wf_node (snd e)) es.
Proof.
  cbn [wf_node]. split; intros [Hn Ha]; (split; [exact Hn|]); clear Hn.
  - induction es as [|[k s] es IH]; constructor; [apply Ha|apply IH, Ha].
  - induction es as [|[k s] es IH]; [exact I|].
    inversion Ha; subst. split; [assumption|now apply IH].
Qed.

Lemma lookup_entry_In c es v : FS.lookup_entry c es = Some v -> In (c, v) es.
Proof.
  induction es as [|[k w] es IH]; simpl; [discriminate|].
  destruct (String.eqb_spec c k) as [->|Hne].
  - intros [= ->]. now left.
  - intros Hl. right. now apply IH.
Qed.

Lemma In_lookup_entry c es v :
  NoDup (map fst es) -> In (c, v) es -> FS.lookup_entry c es = Some v.
Proof.
  induction es as [|[k w] es IH]; simpl; [tauto|].
  intros Hnd [[= -> ->]|Hin].
  - now rewrite String.eqb_refl.
  - inversion Hnd as [|? ? Hk Hnd']; subst.
    destruct (String.eqb_spec c k) as [->|Hne]; [|now apply IH].
    exfalso. apply Hk. now apply (in_map fst) in Hin.
Qed.

Lemma walk_dir top es :
  walk top (Dir es)
  = (top,
     flat_map (fun e => match snd e with Dir _ => [fst e] | File _ => [] end) es,
     flat_map (fun e => match snd e with File _ => [fst e] | Dir _ => [] end) es)
    :: flat_map (fun e => walk (top ++ [fst e]) (snd e)) es.
Proof.
  cbn [walk]. f_equal. induction es as [|[d sub] es IH]; auto.
  cbn [flat_map fst snd]. now rewrite IH.
Qed.

(** Every triple of a walk is a directory of the tree with its files. *)
Lemma walk_sound n : forall top dirpath dirnames filenames,
  wf_node n ->
  In (dirpath, dirnames, filenames) (walk top n) ->
  exists rel es,
    dirpath = top ++ rel /\ FS.lookup rel n = Some (Dir es)
    /\ forall f, In f filenames -> exists x, FS.lookup_entry f es = Some (File x).
Proof.
  induction n as [f|es IH] using node_induction;
    intros top dirpath dirnames filenames Hwf Hin; [contradiction|].
  rewrite walk_dir in Hin. apply wf_dir in Hwf. destruct Hwf as [Hnd Hsub].
  destruct Hin as [[= <- <- <-]|Hin].
  - exists [], es. rewrite app_nil_r. split; [reflexivity|]. split; [reflexivity|].
    intros f Hf. apply in_flat_map in Hf. destruct Hf as [[k s] [Hks Hf]].
    destruct s as [x|es']; cbn [fst snd] in Hf; [|contradiction].
    destruct Hf as [<-|[]]. exists x. now apply In_lookup_entry.
  - apply in_flat_map in Hin. destruct Hin as [[k s] [Hks Hin]].
    rewrite Forall_forall in IH, Hsub.
    destruct (IH _ Hks _ _ _ _ (Hsub _ Hks) Hin) as [rel [es' [-> [Hl Hf]]]].
    cbn [fst snd] in *. exists (k :: rel), es'.
    split; [now rewrite <- app_assoc|]. split; [|exact Hf].
    cbn [FS.lookup]. now rewrite (In_lookup_entry _ _ _ Hnd Hks).
Qed.

(** Every directory of the tree under the top has its triple in the walk. *)
Lemma walk_complete rel : forall n top es,
  FS.lookup rel n = Some (Dir es) ->
  In (top ++ rel,
      flat_map (fun e => match snd e with Dir _ => [fst e] | File _ => [] end) es,
      flat_map (fun e => match snd e with File _ => [fst e] | Dir _ => [] end) es)
     (walk top n).
Proof.
  induction rel as [|c rel IH]; intros n top es Hl.
  - cbn [FS.lookup] in Hl. injection Hl as ->. rewrite walk_dir, app_nil_r.
    now left.
  - cbn [FS.lookup] in Hl. destruct n as [f|es0]; [discriminate|].
    destruct (FS.lookup_entry c es0) as [n1|] eqn:E; [|discriminate].
    rewrite walk_dir. right. apply in_flat_map. exists (c, n1).
    split; [now apply lookup_entry_In|]. cbn [fst snd].
    replace (top ++ c :: rel) with ((top ++ [c]) ++ rel)
      by now rewrite <- app_assoc.
    now apply IH.
Qed.

Lemma wf_lookup p : forall n n',
  wf_node n -> FS.lookup p n = Some n' -> wf_node n'.
Proof.
  induction p as [|c p IH]; intros n n' Hwf Hl.
  - cbn [FS.lookup] in Hl. now injection Hl as <-.
  - cbn [FS.lookup] in Hl. destruct n as [f|es]; [discriminate|].
    destruct (FS.lookup_entry c es) as [n1|] eqn:E; [|discriminate].
    apply wf_dir in Hwf. destruct Hwf as [_ Hsub]. rewrite Forall_forall in Hsub.
    apply (IH n1 n' (Hsub _ (lookup_entry_In _ _ _ E)) Hl).
Qed.

Section Walk.

Context `{Platform}.

Lemma In_find_files root es fs p :
  (exists files, result (find_files root es fs) = Ok files /\ In p files)
  <-> exists dirpath dirnames filenames f,
        In (dirpath, dirnames, filenames) (walked root fs)
        /\ In f filenames /\ has_ext es f = true /\ p = dirpath ++ [f].
Proof.
  unfold find_files, bind, os_walk, ret, result. cbn [fst].
  split.
  - intros [files [[= <-] Hin]]. apply in_flat_map in Hin.
    destruct Hin as [[[dirpath dirnames] filenames] [Ht Hin]].
    apply in_flat_map in Hin. destruct Hin as [f [Hf Hin]].
    destruct (has_ext es f) eqn:He; [|contradiction].
    destruct Hin as [<-|[]]. now exists dirpath, dirnames, filenames, f.
  - intros [dirpath [dirnames [filenames [f [Ht [Hf [He ->]]]]]]].
    eexists. split; [reflexivity|]. apply in_flat_map.
    exists (dirpath, dirnames, filenames). split; [exact Ht|].
    apply in_flat_map. exists f. split; [exact Hf|]. rewrite He. now left.
Qed.

(** X5.  On a tree where no directory lists a name twice, every path
    [find_files] returns is a regular file of the tree, at or below the
    root, whose name has one of the extensions: no directory and no other
    file is ever returned. *)
Theorem find_files_sound (root : path) (es : list string) (fs : node)
  (files : list path) (p : path) :
  wf_node fs ->
  result (find_files root es fs) = Ok files -> In p files ->
  exists rel f x,
    p = root ++ rel ++ [f] /\ has_ext es f = true
    /\ FS.lookup p fs = Some (File x).
Proof.
  intros Hwf Hr Hp.
  destruct (proj1 (In_find_files root es fs p) (ex_intro _ files (conj Hr Hp)))
    as [dirpath [dirnames [filenames [f [Ht [Hf [He ->]]]]]]].
  unfold walked in Ht. destruct (FS.lookup root fs) as [n|] eqn:Hroot; [|contradiction].
  destruct (walk_sound n root dirpath dirnames filenames
              (wf_lookup root fs n Hwf Hroot) Ht) as [rel [es' [-> [Hl Hfiles]]]].
  destruct (Hfiles f Hf) as [x Hx].
  exists rel, f, x. split; [now rewrite <- app_assoc|]. split; [exact He|].
  rewrite <- app_assoc, FSFacts.lookup_app, Hroot, FSFacts.lookup_app, Hl.
  cbn [FS.lookup]. now rewrite Hx.
Qed.

(** X6.  [find_files] misses nothing: every regular file of the tree at or
    below the root whose name has one of the extensions is returned, at
    any depth. *)
Theorem find_files_complete (root rel : path) (f : string) (es : list string)
  (fs : node) (x : file) :
  FS.lookup (root ++ rel ++ [f]) fs = Some (File x) ->
  has_ext es f = true ->
  exists files,
    result (find_files root es fs) = Ok files /\ In (root ++ rel ++ [f]) files.
Proof.
  intros Hl He. apply In_find_files.
  rewrite FSFacts.lookup_app in Hl.
  destruct (FS.lookup root fs) as [n|] eqn:Hroot; [|discriminate].
  rewrite FSFacts.lookup_app in Hl.
  destruct (FS.lookup rel n) as [[y|es']|] eqn:Hrel; try discriminate.
  cbn [FS.lookup] in Hl.
  destruct (FS.lookup_entry f es') as [[x'|es'']|] eqn:Hf; try discriminate.
  eexists (root ++ rel), _, _, f. split.
  - unfold walked. rewrite Hroot. apply (walk_complete rel n root es' Hrel).
  - split; [|split; [exact He|now rewrite <- app_assoc]].
    apply in_flat_map. exists (f, File x'). split; [now apply lookup_entry_In|].
    now left.
Qed.

End Walk.

Lemma wf_batch_fs : wf_node batch_fs.
Proof.
  simpl. repeat split; repeat constructor; simpl; intuition discriminate.
Qed.

Lemma find_files_sound_witness :
  wf_node batch_fs
  /\ exists rel f x,
       ["in"; "sub"; "y.xlsx"] = ["in"] ++ rel ++ [f]
       /\ @has_ext demo_platform exts f = true
       /\ FS.lookup ["in"; "sub"; "y.xlsx"] batch_fs = Some (File x).
Proof.
  split; [exact wf_batch_fs|].
  apply (@find_files_sound demo_platform ["in"] exts batch_fs
           [["in"; "good.csv"]; ["in"; "bad.csv"]; ["in"; "sub"; "y.xlsx"]]
           ["in"; "sub"; "y.xlsx"] wf_batch_fs eq_refl).
  simpl. auto.
Defined.

Lemma find_files_complete_witness :
  FS.lookup (["in"] ++ ["sub"] ++ ["y.xlsx"]) batch_fs
  = Some (File (mk_file kib false (Workbook [demo_frame; empty_frame])))
  /\ exists files,
       result (@find_files demo_platform ["in"] exts batch_fs) = Ok files
       /\ In (["in"] ++ ["sub"] ++ ["y.xlsx"]) files.
Proof.
  split; [reflexivity|].
  exact (@find_files_complete demo_platform ["in"] ["sub"] "y.xlsx" exts batch_fs _
           eq_refl eq_refl).
Defined.

(** ** Full parts *)

Lemma chunk_rows_full n rs : forall i d,
  1 <= n -> S i < List.length (chunk_rows n rs) ->
  List.length (nth i (chunk_rows n rs) d) = n.
Proof.
  funelim (chunk_rows n rs); simp chunk_rows; intros i d Hn Hi.
  - simpl in Hi. lia.
  - cbn [List.length] in Hi. destruct i as [|i]; cbn [nth].
    + assert (Hne : skipn (n - 1) rs' <> []).
      { intros E. rewrite E in Hi. simp chunk_rows in Hi. simpl in Hi. lia. }
      assert (n - 1 < List.length rs').
      { destruct (Nat.le_gt_cases (List.length rs') (n - 1)) as [Hle|]; [|assumption].
        exfalso. apply Hne. now apply skipn_all2. }
      cbn [List.length]. rewrite length_firstn. lia.
    + apply H; [assumption|lia].
Qed.

(** Every batch of a chunked read carries the header of the file, and
    every batch but the last has exactly the chunk size in rows. *)
Lemma read_chunks_full (n : nat) (df : frame) (i : nat) (d : frame) :
  1 <= n -> S i < List.length (read_chunks n df) ->
  List.length (rows (nth i (read_chunks n df) d)) = n.
Proof.
  intros Hn Hi. unfold read_chunks in *. cbn [List.length] in Hi.
  rewrite length_map in Hi. destruct i as [|i]; cbn [nth].
  - cbn [rows].
    assert (Hne : skipn n (rows df) <> []).
    { intros E. rewrite E in Hi. simp chunk_rows in Hi. simpl in Hi. lia. }
    assert (n < List.length (rows df)).
    { destruct (Nat.le_gt_cases (List.length (rows df)) n) as [Hle|]; [|assumption].
      exfalso. apply Hne. now apply skipn_all2. }
    rewrite length_firstn. lia.
  - assert (Hi' : i < List.length (chunk_rows n (skipn n (rows df)))) by lia.
    rewrite (nth_indep _ d (mk_frame (columns df) []))
      by (rewrite length_map; exact Hi').
    rewrite (map_nth (mk_frame (columns df))). cbn [rows].
    apply chunk_rows_full; [assumption|lia].
Qed.

Section More_process.

Context `{Platform}.

(** X7.  In a chunked conversion, with any chunk size of at least 1, every
    part written carries the header of the file, and every part but the
    last one written has exactly the chunk size in rows: only the last
    part can be short. *)
Theorem parts_before_the_last_are_full
  (p out_dir : path) (name : string) (cs : N) (fs : node) (f : file) (df : frame) :
  FS.lookup p fs = Some (File f) -> f_data f = Csv df -> columns df <> [] ->
  (threshold < f_size f)%N -> cs <> 0%N ->
  let ws := writes (effects (process_csv p out_dir name cs fs)) in
  forall i q b, nth_error ws i = Some (q, b) ->
    columns b = columns df
    /\ (S i < List.length ws -> N.of_nat (List.length (rows b)) = cs).
Proof.
  intros Hp Hd Hc Hsz Hcs ws i q b Hi.
  assert (Hw : exists n, ws = firstn n (numbered (out_dir ++ [name])
                                          (read_chunks (N.to_nat cs) df) 0)).
  { unfold ws.
    destruct (process_csv_big p out_dir name cs fs f df Hp Hd Hc Hsz Hcs)
      as [[e [_ Hr]]|[fs1 [_ Hr]]]; rewrite Hr.
    - now exists 0.
    - destruct (chunked_tail_log (out_dir ++ [name])
                  (read_chunks (N.to_nat cs) df) fs1) as [n [_ [He _]]].
      exists n. cbn [effects snd writes]. rewrite He. apply writes_ev_write. }
  destruct Hw as [n Hw].
  assert (Hn : 1 <= N.to_nat cs) by lia.
  set (chunks := read_chunks (N.to_nat cs) df) in *.
  assert (Hb : nth_error chunks i = Some b).
  { rewrite Hw in Hi. apply nth_error_firstn_some in Hi.
    now apply nth_error_numbered in Hi. }
  split.
  - apply nth_error_In in Hb. now apply (read_chunks_bound _ _ _ Hn Hb).
  - intros Hlast.
    assert (Hlen : S i < List.length chunks).
    { rewrite Hw, length_firstn, numbered_length in Hlast. lia. }
    pose proof (read_chunks_full (N.to_nat cs) df i b Hn Hlen) as Hfull.
    fold chunks in Hfull. rewrite (nth_error_nth _ _ _ Hb) in Hfull. lia.
Qed.

(** X8.  [process_excel] converts the first sheet of a workbook, whatever
    the size of the file and whatever the other sheets hold: when that
    sheet has an Arrow table and the target can be written, it writes the
    sheet to [out_dir/name.parquet], once, and returns that one path; when
    the sheet has no Arrow table it raises before anything is written. *)
Theorem process_excel_first_sheet
  (p out_dir : path) (name : string) (fs : node) (f : file)
  (sh : frame) (others : list frame) :
  FS.lookup p fs = Some (File f) -> f_data f = Workbook (sh :: others) ->
  let out_file := out_dir ++ [(name ++ ".parquet")%string] in
  let run := process_excel p out_dir name fs in
  (arrow_ok sh = true ->
   forall es, FS.lookup out_dir fs = Some (Dir es) ->
     slot_free (name ++ ".parquet") es ->
     result run = Ok [out_file]
     /\ effects run = [EvWrite out_file sh]
     /\ FS.lookup out_file (final_fs run) = Some (stored sh))
  /\ (arrow_ok sh = false ->
      exists e, run = (Raise e, fs, []) /\ is_exception e = true).
Proof.
  intros Hp Hd out_file run. split.
  - intros Ha es Ho Hfree. unfold run.
    rewrite (process_excel_ok p out_dir name fs f sh others es Hp Hd Ha Ho Hfree).
    cbn [result effects final_fs fst snd]. repeat split.
    exact (lookup_stored out_dir _ _ fs es Ho).
  - intros Ha. unfold run, process_excel, join.
    assert (Hr : read_excel p fs = (Ok sh, fs, []))
      by (unfold read_excel, bind, open_file; now rewrite Hp, Hd).
    rewrite (bind_ok _ _ _ Hr).
    rewrite (bind_raise _ _ _ (write_arrow_error sh _ fs Ha)).
    eexists. split; reflexivity.
Qed.

(** X9.  [process_dta] converts a Stata dataset whole, whatever its size:
    when the dataset has an Arrow table and the target can be written, it
    writes the dataset to [out_dir/name.parquet], once, and returns that
    one path; when the dataset has no Arrow table it raises before
    anything is written. *)
Theorem process_dta_whole
  (p out_dir : path) (name : string) (fs : node) (f : file) (df : frame) :
  FS.lookup p fs = Some (File f) -> f_data f = Stata df ->
  let out_file := out_dir ++ [(name ++ ".parquet")%string] in
  let run := process_dta p out_dir name fs in
  (arrow_ok df = true ->
   forall es, FS.lookup out_dir fs = Some (Dir es) ->
     slot_free (name ++ ".parquet") es ->
     result run = Ok [out_file]
     /\ effects run = [EvWrite out_file df]
     /\ FS.lookup out_file (final_fs run) = Some (stored df))
  /\ (arrow_ok df = false ->
      exists e, run = (Raise e, fs, []) /\ is_exception e = true).
Proof.
  intros Hp Hd out_file run. split.
  - intros Ha es Ho Hfree. unfold run.
    rewrite (process_dta_ok p out_dir name fs f df es Hp Hd Ha Ho Hfree).
    cbn [result effects final_fs fst snd]. repeat split.
    exact (lookup_stored out_dir _ _ fs es Ho).
  - intros Ha. unfold run, process_dta, join.
    assert (Hr : read_stata p fs = (Ok df, fs, []))
      by (unfold read_stata, bind, open_file; now rewrite Hp, Hd).
    rewrite (bind_ok _ _ _ Hr).
    rewrite (bind_raise _ _ _ (write_arrow_error df _ fs Ha)).
    eexists. split; reflexivity.
Qed.

Lemma read_then_write_atomic (rd : M frame) out_file fs :
  read_only rd -> no_exit rd ->
  let run := (df <- rd ;; write_df_to_parquet df out_file ;; ret [out_file]) fs in
  (exists df fs', rd fs = (Ok df, fs, [])
                  /\ run = (Ok [out_file], fs', [EvWrite out_file df]))
  \/ (exists e, run = (Raise e, fs, []) /\ is_exception e = true).
Proof.
  intros Hro Hne run. unfold run, bind.
  destruct (Hro fs) as [[df|e] Hr]; rewrite Hr.
  - destruct (write_cases df out_file fs) as [[fs' Hw]|[e Hw]]; rewrite Hw.
    + left. now exists df, fs'.
    + right. exists e. split; [reflexivity|].
      exact (no_exit_write _ _ _ _ _ _ Hw).
  - right. exists e. split; [reflexivity|]. exact (Hne _ _ _ _ Hr).
Qed.

(** X10.  [process_excel] and [process_dta] are all or nothing on any
    disk: either the frame read from the file is written to
    [out_dir/name.parquet] and that one path is returned, or an exception
    that [except Exception] catches is raised and the disk is as it was,
    with nothing written. *)
Theorem single_file_conversions_all_or_nothing
  (p out_dir : path) (name : string) (fs : node) :
  let out_file := out_dir ++ [(name ++ ".parquet")%string] in
  ((exists df fs', read_excel p fs = (Ok df, fs, [])
      /\ process_excel p out_dir name fs
         = (Ok [out_file], fs', [EvWrite out_file df]))
   \/ (exists e, process_excel p out_dir name fs = (Raise e, fs, [])
                 /\ is_exception e = true))
  /\ ((exists df fs', read_stata p fs = (Ok df, fs, [])
         /\ process_dta p out_dir name fs
            = (Ok [out_file], fs', [EvWrite out_file df]))
      \/ (exists e, process_dta p out_dir name fs = (Raise e, fs, [])
                    /\ is_exception e = true)).
Proof.
  intros out_file. split.
  - apply (read_then_write_atomic (read_excel p) out_file fs).
    + apply read_only_read_excel.
    + apply no_exit_read_excel.
  - apply (read_then_write_atomic (read_stata p) out_file fs).
    + apply read_only_read_stata.
    + apply no_exit_read_stata.
Qed.

(** X11.  None of the single-file conversions makes its output directory:
    when [out_dir] is not a directory (it does not exist, or it is a
    file), a readable workbook, Stata dataset or CSV of at most 50 MiB
    whose frame has an Arrow table is read, and then the write raises the
    [OSError] of pandas that names [out_dir]; nothing is created. *)
Theorem missing_out_dir_is_an_error
  (p out_dir : path) (name : string) (cs : N) (fs : node) (f : file) (df : frame)
  (others : list frame) :
  FS.lookup p fs = Some (File f) ->
  FS.is_dir out_dir fs = false ->
  arrow_ok df = true ->
  (f_data f = Workbook (df :: others) ->
   process_excel p out_dir name fs = (Raise (OSError out_dir), fs, []))
  /\ (f_data f = Stata df ->
      process_dta p out_dir name fs = (Raise (OSError out_dir), fs, []))
  /\ (f_data f = Csv df -> columns df <> [] -> (f_size f <= threshold)%N ->
      process_csv p out_dir name cs fs = (Raise (OSError out_dir), fs, [])).
Proof.
  intros Hp Ho Ha.
  set (out_file := out_dir ++ [(name ++ ".parquet")%string]).
  assert (Hw : write_df_to_parquet df out_file fs = (Raise (OSError out_dir), fs, [])).
  { unfold write_df_to_parquet, out_file. rewrite Ha. cbn [negb].
    rewrite FSFacts.unsnoc_snoc. unfold FS.is_dir in Ho.
    destruct (FS.lookup out_dir fs) as [[g|es]|]; [reflexivity|discriminate|reflexivity]. }
  split; [|split].
  - intros Hd. unfold process_excel, join.
    assert (Hr : read_excel p fs = (Ok df, fs, []))
      by (unfold read_excel, bind, open_file; now rewrite Hp, Hd).
    rewrite (bind_ok _ _ _ Hr). fold out_file.
    now rewrite (bind_raise _ _ _ Hw).
  - intros Hd. unfold process_dta, join.
    assert (Hr : read_stata p fs = (Ok df, fs, []))
      by (unfold read_stata, bind, open_file; now rewrite Hp, Hd).
    rewrite (bind_ok _ _ _ Hr). fold out_file.
    now rewrite (bind_raise _ _ _ Hw).
  - intros Hd Hc Hsz. apply N.ltb_ge in Hsz.
    rewrite (process_csv_below p out_dir name cs fs _ (getsize_file _ _ Hp) Hsz).
    unfold read_csv. rewrite (bind_ok _ _ _ (parse_csv_ok Hp Hd Hc)).
    fold out_file. now rewrite (bind_raise _ _ _ Hw).
Qed.

End More_process.

Lemma parts_before_the_last_are_full_witness :
  let ws := writes (effects (@process_csv demo_platform ["in"; "data"; "big.csv"]
                               ["out"] "big" 2 demo_fs)) in
  nth_error ws 0
  = Some (["out"; "big"; "part-00000.parquet"],
          mk_frame ["id"; "name"] [["1"; "ann"]; ["2"; "bob"]])
  /\ S 0 < List.length ws
  /\ N.of_nat (List.length [["1"; "ann"]; ["2"; "bob"]]) = 2%N.
Proof.
  intros ws.
  assert (H0 : nth_error ws 0
               = Some (["out"; "big"; "part-00000.parquet"],
                       mk_frame ["id"; "name"] [["1"; "ann"]; ["2"; "bob"]]))
    by (vm_compute; reflexivity).
  assert (H1 : S 0 < List.length ws) by (vm_compute; lia).
  split; [exact H0|]. split; [exact H1|].
  exact (proj2 (@parts_before_the_last_are_full demo_platform
                  ["in"; "data"; "big.csv"] ["out"] "big" 2 demo_fs
                  (csv_file (60 * mib) demo_frame) demo_frame
                  eq_refl eq_refl ltac:(discriminate) eq_refl ltac:(discriminate)
                  0 _ _ H0) H1).
Defined.

Lemma process_excel_first_sheet_witness :
  FS.lookup ["in"; "w.xls"] survey_fs
  = Some (File (mk_file kib false (Workbook [demo_frame; empty_frame])))
  /\ effects (@process_excel demo_platform ["in"; "w.xls"] ["out"] "w" survey_fs)
     = [EvWrite ["out"; "w.parquet"] demo_frame]
  /\ @arrow_ok strict_platform mixed_frame = false
  /\ exists e,
       @process_excel strict_platform ["in"; "m.xlsx"] ["out"] "m" mixed_fs
       = (Raise e, mixed_fs, [])
       /\ is_exception e = true.
Proof.
  split; [reflexivity|]. split; [|split; [reflexivity|]].
  - exact (proj1 (proj2 (proj1 (@process_excel_first_sheet demo_platform
                                  ["in"; "w.xls"] ["out"] "w" survey_fs _ demo_frame
                                  [empty_frame] eq_refl eq_refl)
                           eq_refl [] eq_refl I))).
  - exact (proj2 (@process_excel_first_sheet strict_platform
                    ["in"; "m.xlsx"] ["out"] "m" mixed_fs _ mixed_frame
                    [] eq_refl eq_refl) eq_refl).
Defined.

Lemma process_dta_whole_witness :
  FS.lookup ["in"; "s.dta"] survey_fs
  = Some (File (mk_file kib false (Stata demo_frame)))
  /\ result (@process_dta demo_platform ["in"; "s.dta"] ["out"] "s" survey_fs)
     = Ok [["out"; "s.parquet"]]
  /\ @arrow_ok strict_platform mixed_frame = false
  /\ exists e,
       @process_dta strict_platform ["in"; "m.dta"] ["out"] "m" mixed_fs
       = (Raise e, mixed_fs, [])
       /\ is_exception e = true.
Proof.
  split; [reflexivity|]. split; [|split; [reflexivity|]].
  - exact (proj1 (proj1 (@process_dta_whole demo_platform
                           ["in"; "s.dta"] ["out"] "s" survey_fs _ demo_frame
                           eq_refl eq_refl)
                    eq_refl [] eq_refl I)).
  - exact (proj2 (@process_dta_whole strict_platform
                    ["in"; "m.dta"] ["out"] "m" mixed_fs _ mixed_frame
                    eq_refl eq_refl) eq_refl).
Defined.

Lemma missing_out_dir_is_an_error_witness :
  FS.is_dir ["gone"] survey_fs = false
  /\ @process_excel demo_platform ["in"; "w.xls"] ["gone"] "w" survey_fs
     = (Raise (OSError ["gone"]), survey_fs, [])
  /\ @process_dta demo_platform ["in"; "s.dta"] ["gone"] "s" survey_fs
     = (Raise (OSError ["gone"]), survey_fs, [])
  /\ @process_csv demo_platform ["in"; "x.csv"] ["gone"] "x" default_chunk_size
       survey_fs
     = (Raise (OSError ["gone"]), survey_fs, []).
Proof.
  split; [reflexivity|]. split; [|split].
  - exact (proj1 (@missing_out_dir_is_an_error demo_platform
                    ["in"; "w.xls"] ["gone"] "w" default_chunk_size survey_fs _
                    demo_frame [empty_frame] eq_refl eq_refl eq_refl) eq_refl).
  - exact (proj1 (proj2 (@missing_out_dir_is_an_error demo_platform
                    ["in"; "s.dta"] ["gone"] "s" default_chunk_size survey_fs _
                    demo_frame [] eq_refl eq_refl eq_refl)) eq_refl).
  - exact (proj2 (proj2 (@missing_out_dir_is_an_error demo_platform
                    ["in"; "x.csv"] ["gone"] "x" default_chunk_size survey_fs _
                    demo_frame [] eq_refl eq_refl eq_refl))
             eq_refl ltac:(discriminate) ltac:(vm_compute; discriminate)).
Defined.

(** ** [ensure_dir] and [write_df_to_parquet] on the tree *)


Lemma makedirs_keeps_dir q : forall p n n',
  FS.makedirs q n = Some n' -> FS.is_dir p n = true -> FS.is_dir p n' = true.
Proof.
  induction q as [|c q IH]; intros p n n' Hm Hp.
  - destruct n; simpl in Hm; [discriminate|]. now injection Hm as <-.
  - destruct n as [g|es]; simpl in Hm; [discriminate|].
    destruct (FS.makedirs q _) as [s'|] eqn:E; [|discriminate].
    injection Hm as <-. destruct p as [|a p]; [reflexivity|].
    unfold FS.is_dir in *. cbn [FS.lookup] in *.
    destruct (String.eqb_spec a c) as [->|Hne].
    + rewrite FSFacts.lookup_entry_set_same.
      destruct (FS.lookup_entry c es) as [na|]; [|discriminate].
      now apply (IH _ _ _ E).
    + now rewrite FSFacts.lookup_entry_set_other.
Qed.

Lemma makedirs_no_new_file q : forall p n n' x,
  FS.makedirs q n = Some n' ->
  FS.lookup p n' = Some (File x) -> FS.lookup p n = Some (File x).
Proof.
  induction q as [|c q IH]; intros p n n' x Hm Hp.
  - destruct n; simpl in Hm; [discriminate|]. now injection Hm as <-.
  - destruct n as [g|es]; simpl in Hm; [discriminate|].
    destruct (FS.makedirs q _) as [s'|] eqn:E; [|discriminate].
    injection Hm as <-. destruct p as [|a p]; [discriminate|].
    cbn [FS.lookup] in *.
    destruct (String.eqb_spec a c) as [->|Hne].
    + rewrite FSFacts.lookup_entry_set_same in Hp.
      pose proof (IH _ _ _ _ E Hp) as Hsub.
      destruct (FS.lookup_entry c es) as [na|]; [exact Hsub|].
      destruct p; discriminate.
    + now rewrite FSFacts.lookup_entry_set_other in Hp.
Qed.

(** A write keeps every file other than its target. *)
Lemma lookup_alter_set_other d name v : forall p fs es x,
  FS.lookup d fs = Some (Dir es) ->
  match FS.lookup_entry name es with Some (Dir _) => False | _ => True end ->
  FS.lookup p fs = Some (File x) -> p <> d ++ [name] ->
  FS.lookup p (FS.alter_dir d (FS.set_entry name v) fs) = Some (File x).
Proof.
  induction d as [|c d IH]; intros p fs es x Hd Hslot Hp Hne.
  - cbn [FS.lookup] in Hd. injection Hd as ->. cbn [FS.alter_dir].
    destruct p as [|a p]; [discriminate|]. cbn [FS.lookup] in *.
    destruct (String.eqb_spec a name) as [->|Han].
    + exfalso. destruct (FS.lookup_entry name es) as [[y|es']|]; try discriminate.
      * destruct p; [now apply Hne|discriminate].
      * exact Hslot.
    + now rewrite FSFacts.lookup_entry_set_other.
  - cbn [FS.lookup] in Hd. destruct fs as [g|es0]; [discriminate|].
    destruct (FS.lookup_entry c es0) as [n0|] eqn:E; [|discriminate].
    cbn [FS.alter_dir]. rewrite E.
    destruct p as [|a p]; [discriminate|]. cbn [FS.lookup] in *.
    destruct (String.eqb_spec a c) as [->|Hac].
    + rewrite FSFacts.lookup_entry_set_same. rewrite E in Hp.
      apply (IH p n0 es x Hd Hslot Hp). intros ->. now apply Hne.
    + now rewrite FSFacts.lookup_entry_set_other.
Qed.

Lemma unsnoc_some p d name : FS.unsnoc p = Some (d, name) -> p = d ++ [name].
Proof.
  revert d name. induction p as [|c p IH]; intros d name; simpl; [discriminate|].
  destruct (FS.unsnoc p) as [[d' l']|] eqn:E.
  - intros [= <- <-]. simpl. f_equal. now apply IH.
  - intros [= <- <-]. destruct p as [|a p]; [reflexivity|].
    simpl in E. destruct (FS.unsnoc p) as [[? ?]|]; discriminate.
Qed.


Section More_primitives.

Context `{Platform}.


(** X13.  [ensure_dir] only adds directories: after it returns, the
    regular files of the disk are those there were before, with their
    contents, and every directory there was is still a directory. *)
Theorem ensure_dir_only_adds_directories (p : path) (fs fs' : node) (l : list event) :
  ensure_dir p fs = (Ok tt, fs', l) ->
  (forall q x, FS.lookup q fs' = Some (File x) <-> FS.lookup q fs = Some (File x))
  /\ (forall q, FS.is_dir q fs = true -> FS.is_dir q fs' = true).
Proof.
  intros He. unfold ensure_dir in He.
  destruct (FS.makedirs p fs) as [fs1|] eqn:Hm.
  - injection He as <- _. split.
    + intros q x. split.
      * exact (makedirs_no_new_file p q fs fs1 x Hm).
      * exact (makedirs_keeps_file Hm).
    + intros q. exact (makedirs_keeps_dir p q fs fs1 Hm).
  - destruct (FS.lookup p fs); discriminate.
Qed.

(** What a write that returns has done. *)
Lemma write_returns df out_path fs fs' l :
  write_df_to_parquet df out_path fs = (Ok tt, fs', l) ->
  l = [EvWrite out_path df]
  /\ FS.lookup out_path fs' = Some (stored df)
  /\ forall q x, q <> out_path -> FS.lookup q fs = Some (File x) ->
       FS.lookup q fs' = Some (File x).
Proof.
  unfold write_df_to_parquet. cbv zeta.
  destruct (arrow_ok df); cbn [negb]; [|discriminate].
  destruct (FS.unsnoc out_path) as [[d name]|] eqn:Eu; [|discriminate].
  apply unsnoc_some in Eu. subst out_path.
  destruct (FS.lookup d fs) as [[g|es]|] eqn:Ed; try discriminate.
  assert (Hgood :
    match FS.lookup_entry name es with Some (Dir _) => False | _ => True end ->
    FS.lookup (d ++ [name])
      (FS.alter_dir d (FS.set_entry name (stored df)) fs) = Some (stored df)
    /\ forall q x, q <> d ++ [name] -> FS.lookup q fs = Some (File x) ->
         FS.lookup q (FS.alter_dir d (FS.set_entry name (stored df)) fs)
         = Some (File x)).
  { intros Hslot. split.
    - rewrite (FSFacts.lookup_alter_dir _ _ _ _ _ Ed). cbn [FS.lookup].
      now rewrite FSFacts.lookup_entry_set_same.
    - intros q x Hq Hl.
      exact (lookup_alter_set_other d name _ q fs es x Ed Hslot Hl Hq). }
  destruct (FS.lookup_entry name es) as [[g|es']|] eqn:Ee; try discriminate.
  - destruct (f_protected g); [discriminate|].
    intros [= <- <-]. split; [reflexivity|]. now apply Hgood.
  - intros [= <- <-]. split; [reflexivity|]. now apply Hgood.
Qed.

(** X14.  A [write_df_to_parquet] that returns has put the frame at the
    path, replacing whatever file was there, and has left every other file
    as it was; one that raises has changed nothing. *)
Theorem write_replaces_target_only
  (df : frame) (out_path : path) (fs : node) :
  let run := write_df_to_parquet df out_path fs in
  (result run = Ok tt ->
     FS.lookup out_path (final_fs run) = Some (stored df)
     /\ forall q x, q <> out_path -> FS.lookup q fs = Some (File x) ->
          FS.lookup q (final_fs run) = Some (File x))
  /\ (forall e, result run = Raise e -> final_fs run = fs /\ effects run = []).
Proof.
  intros run. unfold run.
  destruct (write_cases df out_path fs) as [[fs' Hw]|[e Hw]]; rewrite Hw.
  - split; [|discriminate]. intros _. cbn [final_fs fst snd].
    now destruct (write_returns _ _ _ _ _ Hw) as [_ Hr].
  - split; [discriminate|]. intros e' _. split; reflexivity.
Qed.

End More_primitives.


Lemma ensure_dir_only_adds_directories_witness :
  result (ensure_dir ["out"; "a"; "b"] demo_fs) = Ok tt
  /\ FS.lookup ["in"; "data"; "x.csv"] (final_fs (ensure_dir ["out"; "a"; "b"] demo_fs))
     = Some (File (csv_file kib demo_frame))
  /\ FS.is_dir ["in"; "data"] (final_fs (ensure_dir ["out"; "a"; "b"] demo_fs)) = true.
Proof.
  split; [reflexivity|].
  destruct (ensure_dir_only_adds_directories ["out"; "a"; "b"] demo_fs
              (final_fs (ensure_dir ["out"; "a"; "b"] demo_fs))
              (effects (ensure_dir ["out"; "a"; "b"] demo_fs)) eq_refl)
    as [Hfiles Hdirs].
  split.
  - apply (proj2 (Hfiles ["in"; "data"; "x.csv"] (csv_file kib demo_frame))).
    reflexivity.
  - apply Hdirs. reflexivity.
Defined.

Lemma write_replaces_target_only_witness :
  let run := @write_df_to_parquet demo_platform demo_frame ["out"; "x.parquet"]
               demo_fs in
  result run = Ok tt
  /\ FS.lookup ["out"; "x.parquet"] (final_fs run) = Some (@stored demo_platform demo_frame)
  /\ FS.lookup ["in"; "data"; "x.csv"] (final_fs run)
     = Some (File (csv_file kib demo_frame)).
Proof.
  intros run. split; [reflexivity|].
  destruct (proj1 (@write_replaces_target_only demo_platform demo_frame
                     ["out"; "x.parquet"] demo_fs) eq_refl) as [Hput Hkeep].
  split; [exact Hput|].
  apply Hkeep; [discriminate|reflexivity].
Defined.

(** ** What happens to the source files *)

Section Sources.

Context `{Platform}.

Lemma keeps_same_fs {A} (m : M A) :
  (forall fs, final_fs (m fs) = fs) -> keeps_sources m.
Proof. intros Hm fs p x Hp _. now rewrite Hm. Qed.

Lemma keeps_read_only {A} (m : M A) : read_only m -> keeps_sources m.
Proof.
  intros Hm. apply keeps_same_fs. intros fs. now destruct (Hm fs) as [r ->].
Qed.

Lemma keeps_bind_post {A B} (Q : A -> Prop) (m : M A) (k : A -> M B) :
  (forall fs a fs' l, m fs = (Ok a, fs', l) -> Q a) ->
  keeps_sources m -> (forall a, Q a -> keeps_sources (k a)) ->
  keeps_sources (bind m k).
Proof.
  intros HQ Hm Hk fs p x Hp Hs. specialize (Hm fs p x Hp Hs). unfold bind.
  destruct (m fs) as [[[a|e] fs1] l1] eqn:Em; cbn [final_fs fst snd] in *; auto.
  pose proof (Hk a (HQ _ _ _ _ Em) fs1 p x Hm Hs) as Hk1.
  now destruct (k a fs1) as [[r fs2] l2].
Qed.

Lemma keeps_bind {A B} (m : M A) (k : A -> M B) :
  keeps_sources m -> (forall a, keeps_sources (k a)) -> keeps_sources (bind m k).
Proof.
  intros Hm Hk. apply (keeps_bind_post (fun _ => True)); auto.
Qed.

Lemma keeps_try_except {A} (m : M A) (h : exn -> M A) :
  keeps_sources m -> (forall e, keeps_sources (h e)) ->
  keeps_sources (try_except m h).
Proof.
  intros Hm Hh fs p x Hp Hs. specialize (Hm fs p x Hp Hs). unfold try_except.
  destruct (m fs) as [[[a|e] fs1] l1]; cbn [final_fs fst snd] in *; auto.
  destruct (is_exception e); cbn [final_fs fst snd]; auto.
  pose proof (Hh e fs1 p x Hm Hs) as Hh1.
  now destruct (h e fs1) as [[r fs2] l2].
Qed.

Lemma keeps_ret {A} (a : A) : keeps_sources (ret a).
Proof. now apply keeps_same_fs. Qed.

Lemma keeps_raise {A} e : keeps_sources (@raise A e).
Proof. now apply keeps_same_fs. Qed.

Lemma keeps_emit ev : keeps_sources (emit ev).
Proof. now apply keeps_same_fs. Qed.

Lemma emits_weaken {A} (P Q : event -> Prop) (m : M A) :
  (forall e, P e -> Q e) -> emits P m -> emits Q m.
Proof.
  intros HPQ Hm fs. specialize (Hm fs). revert Hm. apply Forall_impl. exact HPQ.
Qed.

Lemma emits_bind_post {A B} P (Q : A -> Prop) (m : M A) (k : A -> M B) :
  (forall fs a fs' l, m fs = (Ok a, fs', l) -> Q a) ->
  emits P m -> (forall a, Q a -> emits P (k a)) -> emits P (bind m k).
Proof.
  intros HQ Hm Hk fs. specialize (Hm fs). unfold bind.
  destruct (m fs) as [[[a|e] fs1] l1] eqn:Em; cbn [effects snd] in *; auto.
  pose proof (Hk a (HQ _ _ _ _ Em) fs1) as Hk1.
  destruct (k a fs1) as [[r fs2] l2]. cbn [effects snd] in *.
  apply Forall_app. auto.
Qed.

Lemma conversion_no_removal e : conversion_event e -> no_removal e.
Proof. destruct e; simpl; auto. Qed.

Lemma removals_none l : Forall no_removal l -> removals l = [].
Proof.
  induction 1 as [|e l He _ IH]; auto.
  destruct e; simpl in *; auto; contradiction.
Qed.

Lemma keeps_ensure_dir p : keeps_sources (ensure_dir p).
Proof.
  intros fs q x Hq _.
  destruct (ensure_dir_cases p fs) as [[fs1 [Hm ->]]|[e [_ ->]]];
    cbn [final_fs fst snd]; [|assumption].
  exact (makedirs_keeps_file Hm Hq).
Qed.

(** A write to a name without one of the four extensions keeps the
    sources. *)
Lemma keeps_write df d name :
  has_ext exts name = false -> keeps_sources (write_df_to_parquet df (d ++ [name])).
Proof.
  intros Hn fs p x Hp Hs. unfold write_df_to_parquet. cbv zeta.
  rewrite FSFacts.unsnoc_snoc.
  assert (Hne : p <> d ++ [name]).
  { intros ->. unfold is_source in Hs. rewrite basename_snoc in Hs. congruence. }
  destruct (arrow_ok df); cbn [negb final_fs fst snd]; auto.
  destruct (FS.lookup d fs) as [[g|es]|] eqn:Ed; cbn [final_fs fst snd]; auto.
  destruct (FS.lookup_entry name es) as [[g|es']|] eqn:Ee;
    cbn [final_fs fst snd]; auto.
  - destruct (f_protected g); cbn [final_fs fst snd]; auto.
    apply (lookup_alter_set_other d name _ p fs es x Ed); auto. now rewrite Ee.
  - apply (lookup_alter_set_other d name _ p fs es x Ed); auto. now rewrite Ee.
Qed.

Lemma keeps_write_parts d chunks : forall part,
  keeps_sources (write_parts d chunks part).
Proof.
  induction chunks as [|c cs IH]; intros part; cbn [write_parts].
  - apply keeps_ret.
  - apply keeps_bind; [|intros _; apply IH].
    unfold join. apply keeps_write, not_source_part.
Qed.

Lemma keeps_process_csv p out_dir name cs :
  keeps_sources (process_csv p out_dir name cs).
Proof.
  unfold process_csv, read_csv, join.
  apply keeps_bind; [apply keeps_read_only, read_only_getsize|].
  intros sz. destruct (threshold <? sz)%N.
  - apply keeps_bind; [apply keeps_ensure_dir|]. intros _.
    apply keeps_bind; [apply keeps_read_only, read_only_read_csv_chunked|].
    intros chunks. apply keeps_bind; [apply keeps_write_parts|]. intros _.
    apply keeps_bind; [apply keeps_read_only, read_only_listdir|].
    intros names. apply keeps_ret.
  - apply keeps_bind; [apply keeps_read_only, read_only_parse_csv|].
    intros df. apply keeps_bind; [apply keeps_write, not_source_parquet|].
    intros _. apply keeps_ret.
Qed.

Lemma keeps_process_excel p out_dir name :
  keeps_sources (process_excel p out_dir name).
Proof.
  unfold process_excel, join.
  apply keeps_bind; [apply keeps_read_only, read_only_read_excel|].
  intros df. apply keeps_bind; [apply keeps_write, not_source_parquet|].
  intros _. apply keeps_ret.
Qed.

Lemma keeps_process_dta p out_dir name :
  keeps_sources (process_dta p out_dir name).
Proof.
  unfold process_dta, join.
  apply keeps_bind; [apply keeps_read_only, read_only_read_stata|].
  intros df. apply keeps_bind; [apply keeps_write, not_source_parquet|].
  intros _. apply keeps_ret.
Qed.

Lemma keeps_convert_one input_dir output_dir f :
  keeps_sources (convert_one input_dir output_dir f).
Proof.
  unfold convert_one, attempt, print.
  apply keeps_bind; [apply keeps_ensure_dir|]. intros _.
  apply keeps_try_except.
  - apply keeps_bind.
    + unfold dispatch.
      destruct (String.eqb _ ".csv"); [apply keeps_process_csv|].
      destruct (Str.mem _ _); [apply keeps_process_excel|].
      destruct (String.eqb _ ".dta"); [apply keeps_process_dta|].
      apply keeps_ret.
    + intros outs. apply keeps_bind; [apply keeps_emit|]. intros _.
      apply keeps_ret.
  - intros e. apply keeps_bind; [apply keeps_emit|]. intros _. apply keeps_ret.
Qed.

Lemma keeps_convert_all input_dir output_dir files : forall acc,
  keeps_sources (convert_all input_dir output_dir files acc).
Proof.
  induction files as [|f files IH]; intros acc; cbn [convert_all].
  - apply keeps_ret.
  - apply keeps_bind; [apply keeps_convert_one|]. intros o. apply IH.
Qed.

(** X15.  The conversion loop never alters or removes a source file:
    every regular file whose name has one of the four extensions is, after
    the loop, where it was and with the content it had, whether the loop
    returns or stops on an error, and wherever the output directory is. *)
Theorem conversion_keeps_sources
  (input_dir output_dir : path) (files : list path) (fs : node)
  (p : path) (x : file) :
  FS.lookup p fs = Some (File x) ->
  has_ext exts (basename p) = true ->
  FS.lookup p (final_fs (convert_all input_dir output_dir files [] fs))
  = Some (File x).
Proof. apply keeps_convert_all. Qed.

(** The answer read at the prompt is not [y], or there is none to read. *)
Lemma declined_post args env :
  a_delete args = false ->
  (forall line, e_stdin env = Some line ->
                str_lower (str_strip line) <> "y") ->
  forall fs c fs' l, confirmation args env fs = (Ok c, fs', l) -> c <> "y".
Proof.
  intros Hd Hno fs c fs' l. unfold confirmation, input. rewrite Hd.
  destruct (e_stdin env) as [line|]; [|discriminate].
  unfold bind, emit, ret. intros [= <- _ _]. now apply Hno.
Qed.

Lemma keeps_confirmation args env : keeps_sources (confirmation args env).
Proof.
  apply keeps_same_fs. intros fs.
  now destruct (confirmation_run args env fs) as [r [l [-> _]]].
Qed.

Lemma emits_confirmation args env : emits no_removal (confirmation args env).
Proof.
  intros fs. unfold confirmation, input. destruct (a_delete args).
  - constructor.
  - destruct (e_stdin env); repeat constructor.
Qed.

Lemma keeps_print_summary summary output_dir :
  keeps_sources (print_summary summary output_dir).
Proof. now apply keeps_same_fs. Qed.

(** X16.  When the deletion is not confirmed ([--delete] is not given, and
    the answer at the prompt, stripped and lower-cased by the interpreter,
    is not [y], or there is no answer to read), [main] calls [os.remove]
    on nothing and every source file is, at the end of the run, where it
    was and with the content it had. *)
Theorem declined_deletion_keeps_sources (args : Args) (env : Env) (fs : node) :
  a_delete args = false ->
  (forall line, e_stdin env = Some line ->
                str_lower (str_strip line) <> "y") ->
  removals (effects (main args env fs)) = []
  /\ forall p x,
       FS.lookup p fs = Some (File x) -> has_ext exts (basename p) = true ->
       FS.lookup p (final_fs (main args env fs)) = Some (File x).
Proof.
  intros Hd Hno.
  pose proof (declined_post args env Hd Hno) as Hpost.
  assert (Hfin : forall summary output_dir,
    keeps_sources
      (confirm <- confirmation args env ;;
       (if String.eqb confirm "y"
        then delete_originals summary ;; print MsgDeleteDone
        else print MsgKept) ;;
       print_summary summary output_dir)
    /\ emits no_removal
      (confirm <- confirmation args env ;;
       (if String.eqb confirm "y"
        then delete_originals summary ;; print MsgDeleteDone
        else print MsgKept) ;;
       print_summary summary output_dir)).
  { intros summary output_dir. split.
    - apply (keeps_bind_post (fun c => c <> "y")); [exact Hpost| |].
      + apply keeps_confirmation.
      + intros c Hc. apply String.eqb_neq in Hc. rewrite Hc.
        apply keeps_bind; [apply keeps_emit|]. intros _. apply keeps_print_summary.
    - apply (emits_bind_post _ (fun c => c <> "y")); [exact Hpost| |].
      + apply emits_confirmation.
      + intros c Hc. apply String.eqb_neq in Hc. rewrite Hc.
        apply emits_bind; [apply emits_emit; exact I|]. intros _.
        unfold print_summary, print.
        apply emits_bind; [apply emits_emit; exact I|]. intros _.
        apply emits_emit. exact I. }
  assert (Hbatch : forall input_dir output_dir,
    keeps_sources (batch args env input_dir output_dir)
    /\ emits no_removal (batch args env input_dir output_dir)).
  { intros input_dir output_dir. unfold batch. split.
    - apply keeps_bind.
      + apply keeps_same_fs. intros fs0.
        now destruct (find_files_run input_dir exts fs0) as [files ->].
      + intros [|f files].
        * apply keeps_bind; [apply keeps_emit|]. intros _. apply keeps_raise.
        * apply keeps_bind; [apply keeps_convert_all|]. intros summary.
          apply Hfin.
    - apply emits_bind.
      + intros fs0. destruct (find_files_run input_dir exts fs0) as [files ->].
        repeat constructor.
      + intros [|f files].
        * apply emits_bind; [apply emits_emit; exact I|]. intros _.
          apply emits_raise.
        * apply emits_bind.
          -- apply (emits_weaken conversion_event); [apply conversion_no_removal|].
             apply emits_convert_all.
          -- intros summary. apply Hfin. }
  assert (Hmain : keeps_sources (main args env) /\ emits no_removal (main args env)).
  { unfold main, run, choose_directory_dialog. split.
    - apply keeps_bind.
      + destruct (a_input args); [apply keeps_ret|].
        destruct (e_dialog env); [apply keeps_ret|].
        apply keeps_bind; [apply keeps_emit|]. intros _. apply keeps_raise.
      + intros [input_dir|].
        * apply keeps_bind; [apply keeps_ensure_dir|]. intros _. apply Hbatch.
        * apply keeps_bind; [apply keeps_emit|]. intros _. apply keeps_raise.
    - apply emits_bind.
      + destruct (a_input args); [apply emits_ret|].
        destruct (e_dialog env); [apply emits_ret|].
        apply emits_bind; [apply emits_emit; exact I|]. intros _.
        apply emits_raise.
      + intros [input_dir|].
        * apply emits_bind.
          -- apply (emits_weaken conversion_event); [apply conversion_no_removal|].
             apply emits_ensure_dir.
          -- intros _. apply Hbatch.
        * apply emits_bind; [apply emits_emit; exact I|]. intros _.
          apply emits_raise. }
  destruct Hmain as [Hk He]. split.
  - apply removals_none, He.
  - intros p x Hp Hs. now apply Hk.
Qed.

(** X17.  Without [--delete] and with nothing to read at the prompt, a run
    whose conversions all returned stops at the prompt with [EOFError]:
    the converted files are on disk, nothing is removed and no summary is
    printed. *)
Theorem prompt_without_input_aborts
  (args : Args) (env : Env) (input_dir : path) (fs fs1 : node)
  (files : list path) (summary : list outcome) (fs2 : node) (l3 : list event) :
  chosen args env = Some input_dir ->
  a_delete args = false -> e_stdin env = None ->
  let output_dir := output_of args input_dir in
  FS.makedirs output_dir fs = Some fs1 ->
  result (find_files input_dir exts fs1) = Ok files -> files <> [] ->
  convert_all input_dir output_dir files [] fs1 = (Ok summary, fs2, l3) ->
  main args env fs
  = (Raise EOFError, fs2, EvMakedirs output_dir :: EvWalk input_dir :: l3).
Proof.
  intros Hch Hd Hin output_dir Hm Hfiles Hne Hconv.
  rewrite (main_chosen args env input_dir fs Hch). unfold run. fold output_dir.
  assert (He : ensure_dir output_dir fs = (Ok tt, fs1, [EvMakedirs output_dir]))
    by (unfold ensure_dir; now rewrite Hm).
  rewrite (bind_ok _ _ _ He).
  rewrite (batch_converted args env input_dir output_dir fs1 files summary fs2 l3
             Hfiles Hne Hconv).
  assert (Hc : confirmation args env fs2 = (Raise EOFError, fs2, [])).
  { unfold confirmation, input. now rewrite Hd, Hin. }
  unfold finish. rewrite (bind_raise _ _ _ Hc).
  cbn [result final_fs effects fst snd]. simpl. now rewrite app_nil_r.
Qed.

End Sources.

Lemma conversion_keeps_sources_witness :
  FS.lookup ["in"; "good.csv"] batch_fs = Some (File (csv_file kib demo_frame))
  /\ FS.lookup ["in"; "good.csv"]
       (final_fs (@convert_all demo_platform ["in"] ["in"]
                    [["in"; "good.csv"]; ["in"; "bad.csv"]; ["in"; "sub"; "y.xlsx"]]
                    [] batch_fs))
     = Some (File (csv_file kib demo_frame)).
Proof.
  split; [reflexivity|].
  apply (@conversion_keeps_sources demo_platform); reflexivity.
Defined.

Lemma declined_deletion_keeps_sources_witness :
  a_delete ask_args = false
  /\ removals (effects (@main demo_platform ask_args (answer "no") batch_fs)) = []
  /\ FS.lookup ["in"; "good.csv"]
       (final_fs (@main demo_platform ask_args (answer "no") batch_fs))
     = Some (File (csv_file kib demo_frame)).
Proof.
  split; [reflexivity|].
  destruct (@declined_deletion_keeps_sources demo_platform ask_args (answer "no")
              batch_fs eq_refl) as [Hrem Hkeep].
  - intros line [= <-]. vm_compute. discriminate.
  - split; [exact Hrem|]. apply Hkeep; reflexivity.
Defined.

Lemma prompt_without_input_aborts_witness :
  chosen ask_args demo_env = Some ["in"]
  /\ e_stdin demo_env = None
  /\ result (@main demo_platform ask_args demo_env batch_fs) = Raise EOFError.
Proof.
  split; [reflexivity|]. split; [reflexivity|].
  erewrite (@prompt_without_input_aborts demo_platform ask_args demo_env
              ["in"] batch_fs).
  - reflexivity.
  - reflexivity.
  - reflexivity.
  - reflexivity.
  - reflexivity.
  - reflexivity.
  - discriminate.
  - reflexivity.
Defined.

(** ** Deleting the originals *)

Lemma preserves_same_fs {A} I (m : M A) :
  (forall fs, final_fs (m fs) = fs) -> preserves I m.
Proof. intros Hm fs HI. now rewrite Hm. Qed.

Lemma preserves_bind {A B} I (m : M A) (k : A -> M B) :
  preserves I m -> (forall a, preserves I (k a)) -> preserves I (bind m k).
Proof.
  intros Hm Hk fs HI. specialize (Hm fs HI). unfold bind.
  destruct (m fs) as [[[a|e] fs1] l1]; cbn [final_fs fst snd] in *; auto.
  pose proof (Hk a fs1 Hm) as Hk1. now destruct (k a fs1) as [[r fs2] l2].
Qed.

Lemma preserves_try_except {A} I (m : M A) (h : exn -> M A) :
  preserves I m -> (forall e, preserves I (h e)) -> preserves I (try_except m h).
Proof.
  intros Hm Hh fs HI. specialize (Hm fs HI). unfold try_except.
  destruct (m fs) as [[[a|e] fs1] l1]; cbn [final_fs fst snd] in *; auto.
  destruct (is_exception e); cbn [final_fs fst snd]; auto.
  pose proof (Hh e fs1 Hm) as Hh1. now destruct (h e fs1) as [[r fs2] l2].
Qed.

Lemma preserves_read_only {A} I (m : M A) : read_only m -> preserves I m.
Proof.
  intros Hm. apply preserves_same_fs. intros fs. now destruct (Hm fs) as [r ->].
Qed.

Lemma map_fst_set_entry_present c v es w :
  FS.lookup_entry c es = Some w -> map fst (FS.set_entry c v es) = map fst es.
Proof.
  induction es as [|[k u] es IH]; simpl; [discriminate|].
  destruct (String.eqb c k); simpl; [reflexivity|].
  intros Hl. now rewrite IH.
Qed.

Lemma lookup_entry_none_not_in c es :
  FS.lookup_entry c es = None -> ~ In c (map fst es).
Proof.
  induction es as [|[k u] es IH]; simpl; [tauto|].
  destruct (String.eqb_spec c k); [discriminate|].
  intros Hl [Hk|Hin]; [congruence|]. now apply IH.
Qed.

Lemma NoDup_set_entry c v es :
  NoDup (map fst es) -> NoDup (map fst (FS.set_entry c v es)).
Proof.
  intros Hnd. destruct (FS.lookup_entry c es) as [w|] eqn:E.
  - now rewrite (map_fst_set_entry_present c v es w E).
  - rewrite (map_fst_set_entry_absent c v es E).
    apply NoDup_app; [assumption|repeat constructor; simpl; tauto|].
    intros a Ha [<-|[]]. now apply (lookup_entry_none_not_in _ _ E).
Qed.

Lemma Forall_set_entry (P : string * node -> Prop) c v es :
  (forall k, P (k, v)) -> Forall P es -> Forall P (FS.set_entry c v es).
Proof.
  intros Hv Hes. induction es as [|[k u] es IH]; simpl.
  - repeat constructor. apply Hv.
  - inversion Hes; subst. destruct (String.eqb c k); constructor; auto.
Qed.

Lemma wf_set_entry c v es :
  wf_node v -> wf_node (Dir es) -> wf_node (Dir (FS.set_entry c v es)).
Proof.
  intros Hv Hes. apply wf_dir in Hes. destruct Hes as [Hnd Hall].
  apply wf_dir. split; [now apply NoDup_set_entry|].
  apply Forall_set_entry; [intros k; exact Hv|exact Hall].
Qed.

Lemma wf_lookup_entry c es n :
  wf_node (Dir es) -> FS.lookup_entry c es = Some n -> wf_node n.
Proof.
  intros Hes Hl. apply wf_dir in Hes. destruct Hes as [_ Hall].
  rewrite Forall_forall in Hall. exact (Hall _ (lookup_entry_In _ _ _ Hl)).
Qed.

Lemma wf_alter_dir d g :
  (forall es, wf_node (Dir es) -> wf_node (Dir (g es))) ->
  forall n, wf_node n -> wf_node (FS.alter_dir d g n).
Proof.
  intros Hg. induction d as [|c d IH]; intros n Hn.
  - destruct n as [f|es]; cbn [FS.alter_dir]; auto.
  - destruct n as [f|es]; cbn [FS.alter_dir]; auto.
    destruct (FS.lookup_entry c es) as [n'|] eqn:E; auto.
    apply wf_set_entry; [|assumption].
    apply IH. exact (wf_lookup_entry _ _ _ Hn E).
Qed.

Lemma wf_makedirs p : forall n n',
  wf_node n -> FS.makedirs p n = Some n' -> wf_node n'.
Proof.
  induction p as [|c p IH]; intros n n' Hn Hm.
  - destruct n; simpl in Hm; [discriminate|]. now injection Hm as <-.
  - destruct n as [f|es]; simpl in Hm; [discriminate|].
    destruct (FS.makedirs p _) as [s'|] eqn:E; [|discriminate].
    injection Hm as <-. apply wf_set_entry; [|assumption].
    apply (IH _ s') in E; [assumption|].
    destruct (FS.lookup_entry c es) as [s|] eqn:El.
    + exact (wf_lookup_entry _ _ _ Hn El).
    + simpl. split; [constructor|exact I].
Qed.

Lemma del_entry_incl c es : incl (FS.del_entry c es) es.
Proof.
  induction es as [|[k u] es IH]; simpl; [apply incl_refl|].
  destruct (String.eqb c k).
  - apply incl_tl, incl_refl.
  - apply incl_cons; [now left|]. now apply incl_tl.
Qed.

Lemma del_entry_names c es a : In a (map fst (FS.del_entry c es)) -> In a (map fst es).
Proof. apply incl_map, del_entry_incl. Qed.

Lemma NoDup_del_entry c es :
  NoDup (map fst es) -> NoDup (map fst (FS.del_entry c es)).
Proof.
  induction es as [|[k u] es IH]; simpl; auto.
  intros Hnd. inversion Hnd as [|? ? Hk Hnd']; subst.
  destruct (String.eqb c k); [assumption|]. simpl. constructor; auto.
  intros Hin. apply Hk. now apply del_entry_names in Hin.
Qed.

Lemma wf_del_entry c es : wf_node (Dir es) -> wf_node (Dir (FS.del_entry c es)).
Proof.
  intros Hes. apply wf_dir in Hes. destruct Hes as [Hnd Hall].
  apply wf_dir. split; [now apply NoDup_del_entry|].
  rewrite Forall_forall in *. intros e He. apply Hall.
  now apply (del_entry_incl c es).
Qed.

Lemma lookup_entry_del_same c es :
  NoDup (map fst es) -> FS.lookup_entry c (FS.del_entry c es) = None.
Proof.
  induction es as [|[k u] es IH]; simpl; auto.
  intros Hnd. inversion Hnd as [|? ? Hk Hnd']; subst.
  destruct (String.eqb_spec c k) as [->|Hne].
  - destruct (FS.lookup_entry k es) as [w|] eqn:E; auto.
    exfalso. apply Hk. apply lookup_entry_In in E. now apply (in_map fst) in E.
  - simpl. destruct (String.eqb_spec c k); [contradiction|]. now apply IH.
Qed.

Lemma lookup_entry_del_other c c' es :
  c' <> c -> FS.lookup_entry c' (FS.del_entry c es) = FS.lookup_entry c' es.
Proof.
  intros Hne. induction es as [|[k u] es IH]; simpl; auto.
  destruct (String.eqb_spec c k) as [->|Hck].
  - destruct (String.eqb_spec c' k); [contradiction|reflexivity].
  - simpl. now rewrite IH.
Qed.

(** On a tree without double names, what is removed is gone, with all
    that was below it. *)
Lemma lookup_removed d name : forall fs es q,
  wf_node fs -> FS.lookup d fs = Some (Dir es) ->
  FS.lookup (d ++ name :: q) (FS.alter_dir d (FS.del_entry name) fs) = None.
Proof.
  intros fs es q Hwf Hd.
  rewrite (FSFacts.lookup_alter_dir d _ fs es (name :: q) Hd). cbn [FS.lookup].
  rewrite lookup_entry_del_same; [reflexivity|].
  pose proof (wf_lookup d fs (Dir es) Hwf Hd) as Hes.
  apply wf_dir in Hes. tauto.
Qed.

(** A removal brings nothing back. *)
Lemma lookup_none_after_delete d name : forall p fs,
  wf_node fs -> FS.lookup p fs = None ->
  FS.lookup p (FS.alter_dir d (FS.del_entry name) fs) = None.
Proof.
  induction d as [|c d IH]; intros p fs Hwf Hp.
  - destruct fs as [f|es]; cbn [FS.alter_dir]; auto.
    destruct p as [|a p]; [discriminate|]. cbn [FS.lookup] in *.
    destruct (String.eqb_spec a name) as [->|Hne].
    + rewrite lookup_entry_del_same; [reflexivity|]. apply wf_dir in Hwf. tauto.
    + now rewrite lookup_entry_del_other.
  - destruct fs as [f|es]; cbn [FS.alter_dir]; auto.
    destruct (FS.lookup_entry c es) as [n0|] eqn:E; auto.
    destruct p as [|a p]; [discriminate|]. cbn [FS.lookup] in *.
    destruct (String.eqb_spec a c) as [->|Hne].
    + rewrite FSFacts.lookup_entry_set_same. rewrite E in Hp.
      apply IH; [exact (wf_lookup_entry _ _ _ Hwf E)|exact Hp].
    + now rewrite FSFacts.lookup_entry_set_other.
Qed.

Lemma lookup_parent d name fs n :
  FS.lookup (d ++ [name]) fs = Some n -> exists es, FS.lookup d fs = Some (Dir es).
Proof.
  rewrite FSFacts.lookup_app. destruct (FS.lookup d fs) as [[f|es]|]; try discriminate.
  intros _. now exists es.
Qed.

Section Deletion.

Context `{Platform}.

(** One pass of the deletion loop on a tree without double names: the tree
    stays so, what was absent stays absent, and the file is gone or the
    failure is reported. *)
Lemma delete_step_disk p fs :
  wf_node fs ->
  exists fs' l,
    try_except (os_remove p)
      (fun e => print (MsgDeleteFailed p (describe e))) fs = (Ok tt, fs', l)
    /\ wf_node fs'
    /\ (forall q, FS.lookup q fs = None -> FS.lookup q fs' = None)
    /\ (FS.lookup p fs' = None \/ reported_failures l = [p]).
Proof.
  intros Hwf. unfold try_except, os_remove, print, emit.
  destruct (FS.lookup p fs) as [[f|es]|] eqn:Ep.
  - destruct (f_protected f).
    + cbn [is_exception]. exists fs, ([EvRemove p false] ++ [EvPrint (MsgDeleteFailed p (describe (PermissionError p)))]).
      repeat split; auto.
    + destruct (FS.unsnoc p) as [[d name]|] eqn:Eu.
      * pose proof (unsnoc_some p d name Eu) as ->.
        destruct (lookup_parent d name fs _ Ep) as [es Hd].
        exists (FS.alter_dir d (FS.del_entry name) fs), [EvRemove (d ++ [name]) true].
        split; [reflexivity|]. split; [|split].
        -- apply wf_alter_dir; [intros es0; apply wf_del_entry|assumption].
        -- intros q Hq. now apply lookup_none_after_delete.
        -- left. exact (lookup_removed d name fs es [] Hwf Hd).
      * cbn [is_exception]. eexists fs, _. repeat split; auto.
  - cbn [is_exception]. eexists fs, _. repeat split; auto.
  - cbn [is_exception]. eexists fs, _. repeat split; auto.
Qed.

Lemma delete_originals_disk summary : forall fs,
  wf_node fs ->
  exists fs' l,
    delete_originals summary fs = (Ok tt, fs', l)
    /\ wf_node fs'
    /\ (forall q, FS.lookup q fs = None -> FS.lookup q fs' = None)
    /\ forall o, In o summary ->
         FS.lookup (o_input o) fs' = None \/ In (o_input o) (reported_failures l).
Proof.
  induction summary as [|o summary IH]; intros fs Hwf.
  - exists fs, []. repeat split; auto; intros o [].
  - cbn [delete_originals].
    destruct (delete_step_disk (o_input o) fs Hwf) as [fs1 [l1 [Hs [Hwf1 [Hn1 Ho]]]]].
    rewrite (bind_ok _ _ _ Hs).
    destruct (IH fs1 Hwf1) as [fs' [l [Hd [Hwf' [Hn' Hall]]]]]. rewrite Hd.
    cbn [result final_fs effects fst snd]. exists fs', (l1 ++ l).
    split; [reflexivity|]. split; [assumption|]. split; [auto|].
    intros o' [<-|Hin].
    + destruct Ho as [Hgone|Hrep]; [left; auto|].
      right. rewrite reported_failures_app, Hrep. now left.
    + destruct (Hall o' Hin) as [Hgone|Hrep]; [now left|].
      right. rewrite reported_failures_app. apply in_or_app. now right.
Qed.

Lemma wf_write df p fs : wf_node fs -> wf_node (final_fs (write_df_to_parquet df p fs)).
Proof.
  intros Hwf. unfold write_df_to_parquet. cbv zeta.
  destruct (arrow_ok df); cbn [negb]; [|assumption].
  destruct (FS.unsnoc p) as [[d name]|]; [|assumption].
  assert (Hw : wf_node (FS.alter_dir d
                 (FS.set_entry name (File (mk_file (parquet_size df) false (Parquet df))))
                 fs)).
  { apply wf_alter_dir; [|assumption]. intros es. now apply wf_set_entry. }
  destruct (FS.lookup d fs) as [[g|es]|]; cbn [final_fs fst snd]; auto.
  destruct (FS.lookup_entry name es) as [[g|es']|]; cbn [final_fs fst snd]; auto.
  destruct (f_protected g); cbn [final_fs fst snd]; auto.
Qed.

Lemma wf_ensure_dir p : preserves wf_node (ensure_dir p).
Proof.
  intros fs Hwf.
  destruct (ensure_dir_cases p fs) as [[fs1 [Hm ->]]|[e [_ ->]]];
    cbn [final_fs fst snd]; [|assumption].
  exact (wf_makedirs p fs fs1 Hwf Hm).
Qed.

Lemma wf_write_parts d chunks : forall part,
  preserves wf_node (write_parts d chunks part).
Proof.
  induction chunks as [|c cs IH]; intros part; cbn [write_parts].
  - now apply preserves_same_fs.
  - apply preserves_bind; [|intros _; apply IH].
    intros fs. apply wf_write.
Qed.

Lemma wf_dispatch ext f target_dir name :
  preserves wf_node (dispatch ext f target_dir name).
Proof.
  assert (Hsingle : forall (rd : M frame) out_file,
            read_only rd ->
            preserves wf_node
              (df <- rd ;; write_df_to_parquet df out_file ;; ret [out_file])).
  { intros rd out_file Hrd. apply preserves_bind; [now apply preserves_read_only|].
    intros df. apply preserves_bind; [intros fs; apply wf_write|].
    intros _. now apply preserves_same_fs. }
  unfold dispatch.
  destruct (String.eqb ext ".csv").
  - unfold process_csv.
    apply preserves_bind; [apply preserves_read_only, read_only_getsize|].
    intros sz. destruct (threshold <? sz)%N.
    + apply preserves_bind; [apply wf_ensure_dir|]. intros _.
      apply preserves_bind; [apply preserves_read_only, read_only_read_csv_chunked|].
      intros chunks. apply preserves_bind; [apply wf_write_parts|]. intros _.
      apply preserves_bind; [apply preserves_read_only, read_only_listdir|].
      intros names. now apply preserves_same_fs.
    + apply Hsingle. unfold read_csv. apply read_only_parse_csv.
  - destruct (Str.mem ext _); [apply Hsingle, read_only_read_excel|].
    destruct (String.eqb ext ".dta"); [apply Hsingle, read_only_read_stata|].
    now apply preserves_same_fs.
Qed.

(** The conversions keep the tree free of double names. *)
Lemma wf_convert_all input_dir output_dir files : forall acc,
  preserves wf_node (convert_all input_dir output_dir files acc).
Proof.
  induction files as [|f files IH]; intros acc; cbn [convert_all].
  - now apply preserves_same_fs.
  - apply preserves_bind; [|intros o; apply IH].
    unfold convert_one, attempt, print.
    apply preserves_bind; [apply wf_ensure_dir|]. intros _.
    apply preserves_try_except.
    + apply preserves_bind; [apply wf_dispatch|]. intros outs.
      apply preserves_bind; [|intros ?]; now apply preserves_same_fs.
    + intros e. apply preserves_bind; [|intros ?]; now apply preserves_same_fs.
Qed.

(** X18.  On a disk where no directory lists a name twice, a run whose
    deletion is confirmed ends with every discovered file either gone from
    the disk or reported on a delete-failed line, whatever outcome its
    conversion had: a file whose conversion failed is removed like the
    others. *)
Theorem confirmed_deletion_removes_every_file
  (args : Args) (env : Env) (input_dir : path) (fs fs1 : node)
  (files : list path) (summary : list outcome) (fs2 : node) (l3 : list event) :
  wf_node fs ->
  chosen args env = Some input_dir ->
  let output_dir := output_of args input_dir in
  FS.makedirs output_dir fs = Some fs1 ->
  result (find_files input_dir exts fs1) = Ok files -> files <> [] ->
  convert_all input_dir output_dir files [] fs1 = (Ok summary, fs2, l3) ->
  result (confirmation args env fs2) = Ok "y" ->
  let r := main args env fs in
  forall f, In f files ->
    FS.lookup f (final_fs r) = None
    \/ In f (reported_failures (effects r)).
Proof.
  intros Hwf Hch output_dir Hm Hfiles Hne Hconv Hc r f Hf. unfold r.
  rewrite (main_chosen args env input_dir fs Hch). unfold run. fold output_dir.
  assert (He : ensure_dir output_dir fs = (Ok tt, fs1, [EvMakedirs output_dir]))
    by (unfold ensure_dir; now rewrite Hm).
  rewrite (bind_ok _ _ _ He).
  rewrite (batch_converted args env input_dir output_dir fs1 files summary fs2 l3
             Hfiles Hne Hconv).
  cbn [result final_fs effects fst snd].
  assert (Hwf2 : wf_node fs2).
  { pose proof (wf_convert_all input_dir output_dir files [] fs1
                  (wf_makedirs _ _ _ Hwf Hm)) as Hw.
    now rewrite Hconv in Hw. }
  destruct (confirmation_run args env fs2) as [rc [l4 [Hconf _]]].
  rewrite Hconf in Hc. cbn [result fst] in Hc. subst rc.
  destruct (delete_originals_disk summary fs2 Hwf2) as [fs3 [l5 [Hdel [_ [_ Hall]]]]].
  assert (Hfin : finish args env summary output_dir fs2
                 = (Ok tt, fs3, l4 ++ (l5 ++ [EvPrint MsgDeleteDone])
                                  ++ summary_lines summary output_dir)).
  { unfold finish, bind. rewrite Hconf. cbn [String.eqb Ascii.eqb Bool.eqb].
    rewrite Hdel. reflexivity. }
  rewrite Hfin. cbn [final_fs effects fst snd].
  pose proof (convert_all_ok _ _ _ _ _ _ _ _ Hconv) as Hsum. simpl in Hsum.
  rewrite <- Hsum in Hf. apply in_map_iff in Hf. destruct Hf as [o [<- Ho]].
  destruct (Hall o Ho) as [Hgone|Hrep]; [now left|]. right.
  rewrite reported_failures_app. apply in_or_app. right.
  change (In (o_input o)
            (reported_failures
               (l3 ++ l4 ++ (l5 ++ [EvPrint MsgDeleteDone])
                   ++ summary_lines summary output_dir))).
  rewrite !reported_failures_app, !in_app_iff. tauto.
Qed.

End Deletion.

Lemma confirmed_deletion_removes_every_file_witness :
  wf_node batch_fs
  /\ chosen demo_args demo_env = Some ["in"]
  /\ (FS.lookup ["in"; "good.csv"]
        (final_fs (@main demo_platform demo_args demo_env batch_fs)) = None
      \/ In ["in"; "good.csv"]
           (reported_failures
              (effects (@main demo_platform demo_args demo_env batch_fs)))).
Proof.
  split; [exact wf_batch_fs|]. split; [reflexivity|].
  eapply (@confirmed_deletion_removes_every_file demo_platform demo_args demo_env
            ["in"] batch_fs).
  - exact wf_batch_fs.
  - reflexivity.
  - reflexivity.
  - reflexivity.
  - discriminate.
  - reflexivity.
  - reflexivity.
  - simpl. auto.
Defined.

(** ** What the conversions leave on disk *)

Lemma snoc_inj {A} (d : list A) (a b : A) : d ++ [a] = d ++ [b] -> a = b.
Proof. intros Heq. apply app_inv_head in Heq. now injection Heq. Qed.

Section Landing.

Context `{Platform}.

(** The writes of the chunk loop keep every file that is not one of the
    parts still to write. *)
Lemma write_parts_keeps d chunks : forall part fs q x,
  FS.lookup q fs = Some (File x) ->
  (forall k, (part <= k)%N -> q <> d ++ [part_name k]) ->
  FS.lookup q (final_fs (write_parts d chunks part fs)) = Some (File x).
Proof.
  induction chunks as [|c cs IH]; intros part fs q x Hq Hne; cbn [write_parts].
  - exact Hq.
  - unfold join, bind.
    destruct (write_cases c (d ++ [part_name part]) fs) as [[fs1 Hw]|[e Hw]];
      rewrite Hw; [|exact Hq].
    destruct (write_returns _ _ _ _ _ Hw) as [_ [_ Hkeep]].
    pose proof (IH (part + 1)%N fs1 q x
                  (Hkeep q x (Hne part (N.le_refl _)) Hq)
                  (fun k Hk => Hne k ltac:(lia))) as Hrest.
    now destruct (write_parts d cs (part + 1) fs1) as [[r fs2] l2].
Qed.

(** Every part the chunk loop has written is on disk when the loop ends,
    however it ends. *)
Lemma write_parts_land d chunks : forall part fs q b,
  In (q, b) (writes (effects (write_parts d chunks part fs))) ->
  FS.lookup q (final_fs (write_parts d chunks part fs)) = Some (stored b).
Proof.
  induction chunks as [|c cs IH]; intros part fs q b; cbn [write_parts].
  - intros [].
  - unfold join, bind.
    destruct (write_cases c (d ++ [part_name part]) fs) as [[fs1 Hw]|[e Hw]];
      rewrite Hw; [|intros []].
    destruct (write_returns _ _ _ _ _ Hw) as [_ [Hland _]].
    pose proof (IH (part + 1)%N fs1 q b) as Hrest.
    pose proof (write_parts_keeps d cs (part + 1)%N fs1
                  (d ++ [part_name part]) _ Hland) as Hkeep.
    destruct (write_parts d cs (part + 1) fs1) as [[r fs2] l2].
    cbn [effects final_fs fst snd writes app] in *.
    intros [[= <- <-]|Hin]; [|now apply Hrest].
    apply Hkeep. intros k Hk Heq.
    apply snoc_inj, part_name_inj in Heq. lia.
Qed.

(** X19.  Whatever [process_csv] has written is on disk when it ends,
    however it ends: in a chunked conversion that fails at a later part,
    the parts written before the failure stay in the part directory, each
    with the rows it was written with. *)
Theorem written_parts_stay_on_disk
  (p out_dir : path) (name : string) (cs : N) (fs : node) (q : path) (b : frame) :
  let run := process_csv p out_dir name cs fs in
  In (q, b) (writes (effects run)) ->
  FS.lookup q (final_fs run) = Some (stored b).
Proof.
  intros run. unfold run, process_csv, join, bind.
  destruct (read_only_getsize p fs) as [[sz|e] ->]; [|intros []].
  destruct (threshold <? sz)%N.
  - destruct (ensure_dir_cases (out_dir ++ [name]) fs)
      as [[fs1 [_ ->]]|[e [_ ->]]]; [|intros []].
    destruct (read_only_read_csv_chunked p cs fs1) as [[chunks|e] ->]; [|intros []].
    pose proof (write_parts_land (out_dir ++ [name]) chunks 0 fs1 q b) as Hland.
    destruct (write_parts (out_dir ++ [name]) chunks 0 fs1) as [[[[]|e] fs2] l2];
      cbn [effects final_fs fst snd writes app] in *.
    + destruct (read_only_listdir (out_dir ++ [name]) fs2) as [[names|e] ->];
        cbn [effects final_fs fst snd writes app ret];
        rewrite ?app_nil_r; exact Hland.
    + exact Hland.
  - unfold read_csv. destruct (read_only_parse_csv p fs) as [[df|e] ->]; [|intros []].
    destruct (write_cases df (out_dir ++ [(name ++ ".parquet")%string]) fs)
      as [[fs1 Hw]|[e Hw]]; rewrite Hw; [|intros []].
    destruct (write_returns _ _ _ _ _ Hw) as [_ [Hland _]].
    cbn [effects final_fs fst snd writes app ret].
    intros [[= <- <-]|[]]. exact Hland.
Qed.

Lemma sorted_not_nil l : l <> [] -> Str.sorted l <> [].
Proof.
  intros Hl Hs. apply Hl. apply Permutation_nil.
  rewrite <- Hs. apply sorted_perm.
Qed.

(** A conversion that returns returns at least one path. *)
Lemma process_csv_outputs p out_dir name cs fs outs :
  result (process_csv p out_dir name cs fs) = Ok outs -> outs <> [].
Proof.
  unfold process_csv, join, bind.
  destruct (read_only_getsize p fs) as [[sz|e] ->]; [|discriminate].
  destruct (threshold <? sz)%N.
  - destruct (ensure_dir_cases (out_dir ++ [name]) fs)
      as [[fs1 [_ ->]]|[e [_ ->]]]; [|discriminate].
    unfold read_csv_chunked. destruct (cs =? 0)%N; [discriminate|]. unfold bind.
    destruct (read_only_parse_csv p fs1) as [[df|e] ->]; [|discriminate].
    cbn [ret]. unfold read_chunks. cbn [write_parts]. unfold join, bind.
    set (c0 := mk_frame (columns df) (firstn (N.to_nat cs) (rows df))).
    set (rest := map (mk_frame (columns df)) _).
    destruct (write_cases c0 ((out_dir ++ [name]) ++ [part_name 0]) fs1)
      as [[fs2 Hw]|[e Hw]]; rewrite Hw; [|discriminate].
    destruct (write_returns _ _ _ _ _ Hw) as [_ [Hland _]].
    pose proof (write_parts_keeps (out_dir ++ [name]) rest (0 + 1)%N fs2
                  ((out_dir ++ [name]) ++ [part_name 0]) _ Hland) as Hkeep.
    destruct (write_parts (out_dir ++ [name]) rest (0 + 1) fs2) as [[[[]|e] fs3] l3];
      [|discriminate].
    cbn [final_fs fst snd] in Hkeep.
    assert (Hk : FS.lookup ((out_dir ++ [name]) ++ [part_name 0]) fs3
                 = Some (stored c0)).
    { apply Hkeep. intros k Hk Heq.
      apply snoc_inj, part_name_inj in Heq. lia. }
    rewrite FSFacts.lookup_app in Hk. unfold listdir.
    destruct (FS.lookup (out_dir ++ [name]) fs3) as [[g|es]|]; try discriminate.
    cbn [result fst ret]. intros [= <-].
    destruct es as [|[k v] es]; [discriminate|].
    intros Hm. apply map_eq_nil in Hm. revert Hm. apply sorted_not_nil. discriminate.
  - unfold read_csv. destruct (read_only_parse_csv p fs) as [[df|e] ->]; [|discriminate].
    destruct (write_cases df (out_dir ++ [(name ++ ".parquet")%string]) fs)
      as [[fs1 ->]|[e ->]]; [|discriminate].
    cbn [result fst ret]. intros [= <-]. discriminate.
Qed.

Lemma single_outputs (rd : M frame) out_file fs outs :
  result ((df <- rd ;; write_df_to_parquet df out_file ;; ret [out_file]) fs) = Ok outs ->
  outs = [out_file].
Proof.
  unfold bind. destruct (rd fs) as [[[df|e] fs1] l1]; [|discriminate].
  destruct (write_cases df out_file fs1) as [[fs2 ->]|[e ->]]; [|discriminate].
  now intros [= <-].
Qed.

(** X20.  Every discovered file that the summary counts as converted has
    at least one Parquet output: the [else] branch of the dispatch, which
    gives no output, is never taken for a file that [find_files] returns,
    and each converter that returns returns a path. *)
Theorem converted_files_have_outputs
  (input_dir output_dir f : path) (fs fs' : node) (o : outcome) (l : list event) :
  has_ext exts (basename f) = true ->
  convert_one input_dir output_dir f fs = (Ok o, fs', l) ->
  o_error o = None ->
  o_outputs o <> [].
Proof.
  intros Hext Hc Herr. unfold convert_one in Hc.
  apply bind_inv_ok in Hc. destruct Hc as [[] [fs1 [l1 [l2 [_ [Ha _]]]]]].
  set (ext := str_lower (snd (Str.splitext (basename f)))) in *.
  set (name := fst (Str.splitext (basename f))) in *.
  set (target_dir := join output_dir (relpath (dirname f) input_dir)) in *.
  destruct (attempt_cases f target_dir name ext fs1)
    as [o' [fs2 [l' [Ha' [_ [_ Hcase]]]]]].
  rewrite Ha in Ha'. injection Ha' as <- _ _.
  destruct Hcase as [[outs [Hd ->]]|[e [_ ->]]]; [|discriminate].
  cbn [o_outputs fst snd]. unfold dispatch in Hd.
  unfold has_ext in Hext. fold ext in Hext. unfold exts, Str.mem in Hext.
  cbn [existsb] in Hext.
  destruct (String.eqb ext ".csv"); [exact (process_csv_outputs _ _ _ _ _ _ Hd)|].
  unfold Str.mem in Hd. cbn [existsb] in Hd.
  destruct (String.eqb ext ".xlsx");
    [cbn [orb] in Hd; rewrite (single_outputs _ _ _ _ Hd); discriminate|].
  destruct (String.eqb ext ".xls");
    [cbn [orb] in Hd; rewrite (single_outputs _ _ _ _ Hd); discriminate|].
  cbn [orb] in Hd, Hext.
  destruct (String.eqb ext ".dta");
    [rewrite (single_outputs _ _ _ _ Hd); discriminate|discriminate].
Qed.

End Landing.

Lemma written_parts_stay_on_disk_witness :
  let run := @process_csv demo_platform ["in"; "big.csv"] ["out"] "big" 2
               blocked_fs in
  result run = Raise (IsADirectoryError ["out"; "big"; "part-00001.parquet"])
  /\ FS.lookup ["out"; "big"; "part-00000.parquet"] (final_fs run)
     = Some (@stored demo_platform
               (mk_frame ["id"; "name"] [["1"; "ann"]; ["2"; "bob"]])).
Proof.
  intros run. split; [reflexivity|].
  apply (@written_parts_stay_on_disk demo_platform).
  vm_compute. left. reflexivity.
Defined.

Lemma converted_files_have_outputs_witness :
  @has_ext demo_platform exts (basename ["in"; "sub"; "y.xlsx"]) = true
  /\ exists o,
       result (@convert_one demo_platform ["in"] ["out"] ["in"; "sub"; "y.xlsx"]
                 batch_fs) = Ok o
       /\ o_error o = None
       /\ o_outputs o <> [].
Proof.
  split; [reflexivity|].
  eexists. split; [reflexivity|]. split; [reflexivity|].
  apply (@converted_files_have_outputs demo_platform ["in"] ["out"]
           ["in"; "sub"; "y.xlsx"] batch_fs
           (final_fs (@convert_one demo_platform ["in"] ["out"]
                        ["in"; "sub"; "y.xlsx"] batch_fs))
           _
           (effects (@convert_one demo_platform ["in"] ["out"]
                       ["in"; "sub"; "y.xlsx"] batch_fs))).
  - reflexivity.
  - reflexivity.
  - reflexivity.
Defined.

(** ** The input directory and the prompt *)

Lemma lstrip_spaces pre s :
  all_space pre = true -> Str.lstrip (pre ++ s) = Str.lstrip s.
Proof.
  induction pre as [|c pre IH]; simpl; auto.
  intros Hc. apply andb_true_iff in Hc. destruct Hc as [-> Hpre]. now apply IH.
Qed.

Lemma rstrip_spaces post : all_space post = true -> Str.rstrip post = "".
Proof.
  induction post as [|c post IH]; simpl; auto.
  intros Hc. apply andb_true_iff in Hc. destruct Hc as [-> Hpost].
  now rewrite (IH Hpost).
Qed.

Lemma strip_padded pre post c :
  all_space pre = true -> all_space post = true -> Str.is_space c = false ->
  Str.strip (pre ++ String c post) = String c "".
Proof.
  intros Hpre Hpost Hc. unfold Str.strip. rewrite (lstrip_spaces pre _ Hpre).
  cbn [Str.lstrip]. rewrite Hc. cbn [Str.rstrip].
  now rewrite (rstrip_spaces post Hpost), Hc.
Qed.

Lemma is_space_ascii c : Str.is_space c = true -> Str.is_ascii_char c = true.
Proof. destruct c as [[] [] [] [] [] [] [] []]; simpl; auto. Qed.

Lemma all_space_ascii s : all_space s = true -> Str.is_ascii s = true.
Proof.
  induction s as [|c s IH]; simpl; auto.
  intros Hc. apply andb_true_iff in Hc. destruct Hc as [Hc Hs].
  now rewrite (is_space_ascii c Hc), (IH Hs).
Qed.

Lemma is_ascii_app a b :
  Str.is_ascii (a ++ b) = Str.is_ascii a && Str.is_ascii b.
Proof.
  induction a as [|c a IH]; simpl; auto. now rewrite IH, andb_assoc.
Qed.

Section Start.

Context `{Platform}.

(** X21.  With no [--input] and no folder from the dialog, [main] exits
    with status 1 before touching the disk: no directory is made, and the
    one line printed tells whether the dialog could not be opened or was
    left without a choice. *)
Theorem no_input_directory_exits_with_1 (args : Args) (env : Env) (fs : node) :
  chosen args env = None ->
  main args env fs
  = (Raise (SystemExit 1), fs,
     [EvPrint match e_dialog env with
              | None => MsgNoGui
              | Some _ => MsgNoInput
              end]).
Proof.
  unfold chosen, main, choose_directory_dialog.
  destruct (a_input args) as [p|]; [discriminate|].
  destruct (e_dialog env) as [[p|]|]; [discriminate| |]; intros _; reflexivity.
Qed.

(** X22.  At the prompt, [y] confirms the deletion in either case and with
    any ASCII white space around it (blanks, tabs, the newline that ends
    the line): such an answer is stripped and lower-cased to [y]. *)
Theorem padded_y_confirms (args : Args) (env : Env) (fs : node)
  (pre post : string) (c : ascii) :
  a_delete args = false ->
  all_space pre = true -> all_space post = true ->
  c = "y"%char \/ c = "Y"%char ->
  e_stdin env = Some (pre ++ String c post)%string ->
  confirmation args env fs = (Ok "y", fs, [EvInput]).
Proof.
  intros Hd Hpre Hpost Hc Hin. unfold confirmation, input. rewrite Hd, Hin.
  unfold bind, emit, ret. cbn [app].
  assert (Hs : Str.is_space c = false) by (destruct Hc as [->| ->]; reflexivity).
  assert (Ha : Str.is_ascii (pre ++ String c post) = true).
  { rewrite is_ascii_app, (all_space_ascii pre Hpre). cbn [andb Str.is_ascii].
    rewrite (all_space_ascii post Hpost).
    destruct Hc as [->| ->]; reflexivity. }
  rewrite (str_strip_ascii _ Ha), (strip_padded pre post c Hpre Hpost Hs).
  rewrite str_lower_ascii by (destruct Hc as [->| ->]; reflexivity).
  destruct Hc as [->| ->]; reflexivity.
Qed.

End Start.

Lemma no_input_directory_exits_with_1_witness :
  chosen (mk_args None None true) (mk_env (Some None) None) = None
  /\ result (@main demo_platform (mk_args None None true) (mk_env (Some None) None)
               demo_fs)
     = Raise (SystemExit 1).
Proof.
  split; [reflexivity|].
  now rewrite (@no_input_directory_exits_with_1 demo_platform
                 (mk_args None None true) (mk_env (Some None) None) demo_fs eq_refl).
Defined.

Lemma padded_y_confirms_witness :
  all_space "  " = true
  /\ result (@confirmation demo_platform ask_args (answer "  Y ") demo_fs) = Ok "y".
Proof.
  split; [reflexivity|].
  now rewrite (@padded_y_confirms demo_platform ask_args (answer "  Y ") demo_fs
                 "  " " " "Y" eq_refl eq_refl eq_refl (or_intror eq_refl) eq_refl).
Defined.
